(** * World Happiness Report analyzer: a model of [happiness_analyzer.py]

    The development embeds the class [HappinessAnalyzer] of
    [src/happiness_analyzer.py] and proves properties of its methods.

    - A NumPy [float64] is a value of [float64]: NaN, an infinity, or a
      finite number.  Finite numbers are rationals ([Qc]) and arithmetic on
      them is exact: rounding, overflow and the sign of zero are not
      modelled.  NaN and the infinities behave as IEEE 754 says.  A
      theorem therefore says of a computed number which float64 operations
      produce it from which values, how it compares, or what it is where
      float64 arithmetic is exact as well ([0 / n], [x / x], [x - x / 1],
      [0 * inf]); a lemma at an example table states a computed number
      only where float64 computes that number exactly.
    - The rows of the file are given to the loader as [csv.reader] yields
      them: what [open()] and the decoding of the file can raise is outside
      the model, and the theorems about the loader speak of the rows read.
    - [self] is a record; a method is a computation of the monad [M], which
      threads the record and may raise a Python exception.
    - Three library functions are taken as they are documented and left
      open where the documentation leaves them open: Python's [float()]
      ([py_float]), the square root of a finite non-negative number
      ([sqrt64]) and [np.argsort], whose default kind puts equal keys in no
      promised order ([argsort], with the contract [argsort_contract]). *)

From Stdlib Require Import QArith Qcanon Qcabs.
From stdpp Require Import base option list strings gmap numbers sorting.

Open Scope Z_scope.

(** ** float64 *)

Inductive float64 : Type :=
| NaN
| Inf (neg : bool)
| Fin (q : Qc).

#[global] Instance float64_eq_dec : EqDecision float64.
Proof. solve_decision. Defined.

#[global] Instance float64_inhabited : Inhabited float64 := populate NaN.

(** [np.isnan] *)
Definition isnan (x : float64) : bool :=
  match x with NaN => true | _ => false end.

Definition notnan (x : float64) : bool := negb (isnan x).

Definition Qc_neg (q : Qc) : bool := bool_decide (q < 0)%Qc.

Definition fopp (x : float64) : float64 :=
  match x with
  | NaN => NaN
  | Inf a => Inf (negb a)
  | Fin q => Fin (- q)%Qc
  end.

Definition fadd (x y : float64) : float64 :=
  match x, y with
  | NaN, _ | _, NaN => NaN
  | Inf a, Inf b => if bool_decide (a = b) then Inf a else NaN
  | Inf a, Fin _ | Fin _, Inf a => Inf a
  | Fin p, Fin q => Fin (p + q)%Qc
  end.

Definition fsub (x y : float64) : float64 := fadd x (fopp y).

Definition fmul (x y : float64) : float64 :=
  match x, y with
  | NaN, _ | _, NaN => NaN
  | Inf a, Inf b => Inf (xorb a b)
  | Inf a, Fin q | Fin q, Inf a =>
      if bool_decide (q = 0%Qc) then NaN else Inf (xorb a (Qc_neg q))
  | Fin p, Fin q => Fin (p * q)%Qc
  end.

(** Division as NumPy does it: a zero divisor gives an infinity, or NaN for
    [0 / 0], and never raises. *)
Definition fdiv (x y : float64) : float64 :=
  match x, y with
  | NaN, _ | _, NaN => NaN
  | Inf _, Inf _ => NaN
  | Inf a, Fin q => Inf (xorb a (Qc_neg q))
  | Fin _, Inf _ => Fin 0%Qc
  | Fin p, Fin q =>
      if bool_decide (q = 0%Qc)
      then (if bool_decide (p = 0%Qc) then NaN else Inf (Qc_neg p))
      else Fin (p / q)%Qc
  end.

Definition fabs (x : float64) : float64 :=
  match x with
  | NaN => NaN
  | Inf _ => Inf false
  | Fin q => Fin (Qcabs q)
  end.

(** [x < y]: false as soon as one side is NaN. *)
Definition flt (x y : float64) : bool :=
  match x, y with
  | NaN, _ | _, NaN => false
  | Inf a, Inf b => a && negb b
  | Inf a, Fin _ => a
  | Fin _, Inf b => negb b
  | Fin p, Fin q => bool_decide (p < q)%Qc
  end.

Definition fle (x y : float64) : bool :=
  match x, y with
  | NaN, _ | _, NaN => false
  | Inf a, Inf b => a || negb b
  | Inf a, Fin _ => a
  | Fin _, Inf b => negb b
  | Fin p, Fin q => bool_decide (p <= q)%Qc
  end.

Definition fgt (x y : float64) : bool := flt y x.

Definition of_Z (z : Z) : float64 := Fin (Qc_of_Z z).
Definition of_nat (n : nat) : float64 := of_Z (Z.of_nat n).

Definition fsum (xs : list float64) : float64 := foldl fadd (Fin 0%Qc) xs.

(** ** Exceptions and the two monads *)

Inductive exn : Type :=
| KeyError | IndexError | ValueError | TypeError | StopIteration.

Inductive result (A : Type) : Type :=
| Ok (a : A)
| Raise (e : exn).
Arguments Ok {A} a.
Arguments Raise {A} e.

#[global] Instance result_ret : MRet result := fun A a => Ok a.
#[global] Instance result_bind : MBind result := fun A B k m =>
  match m with
  | Ok a => k a
  | Raise e => Raise e
  end.

Fixpoint mapR {A B} (f : A -> result B) (l : list A) : result (list B) :=
  match l with
  | [] => Ok []
  | x :: l' => y ← f x; ys ← mapR f l'; Ok (y :: ys)
  end.

(** ** Python lists and NumPy arrays *)

(** [l[i]] for a non-negative [i]. *)
Definition py_index {A} (l : list A) (i : nat) : result A :=
  match l !! i with
  | Some x => Ok x
  | None => Raise IndexError
  end.

(** An index into an axis of length [n]; a negative one counts from the end. *)
Definition norm_index (n : nat) (i : Z) : result nat :=
  if bool_decide (0 <= i < Z.of_nat n) then Ok (Z.to_nat i)
  else if bool_decide (- Z.of_nat n <= i < 0) then Ok (Z.to_nat (Z.of_nat n + i))
  else Raise IndexError.

(** [l[:n]] *)
Definition py_take {A} (n : Z) (l : list A) : list A :=
  if bool_decide (n < 0) then take (length l - Z.to_nat (- n)) l
  else take (Z.to_nat n) l.

(** [l.index(x)]: the first position of [x], or [ValueError]. *)
Fixpoint list_index (x : string) (l : list string) : result nat :=
  match l with
  | [] => Raise ValueError
  | y :: l' => if bool_decide (y = x) then Ok 0%nat else i ← list_index x l'; Ok (S i)
  end.

(** [enumerate(l)] *)
Definition enumerate {A} (l : list A) : list (nat * A) := imap pair l.

(** [xs[mask]] for a boolean array [mask]. *)
Definition mask_select {A} (mask : list bool) (xs : list A) : result (list A) :=
  if bool_decide (length mask = length xs)
  then Ok (snd <$> filter (fun p => fst p = true) (zip mask xs))
  else Raise IndexError.

(** An array of at most two dimensions: its [shape] and, when it has two,
    its rows. *)
Record ndarray : Type := mk_ndarray {
  shape : list nat;
  cells : list (list float64)
}.

(** [np.array(rows)] on a list of lists of floats: the empty list gives the
    empty one-dimensional array, and rows of different lengths are refused. *)
Definition np_array (rows : list (list float64)) : result ndarray :=
  match rows with
  | [] => Ok (mk_ndarray [0%nat] [])
  | r :: _ =>
      if forallb (fun r' => Nat.eqb (length r') (length r)) rows
      then Ok (mk_ndarray [length rows; length r] rows)
      else Raise ValueError
  end.

(** [a[:, c]] *)
Definition arr_col (a : ndarray) (c : Z) : result (list float64) :=
  match shape a with
  | [_; w] => j ← norm_index w c; Ok ((fun r => nth j r NaN) <$> cells a)
  | _ => Raise IndexError
  end.

(** [a[i, c]] *)
Definition arr_item (a : ndarray) (i : nat) (c : Z) : result float64 :=
  match shape a with
  | [_; w] => r ← py_index (cells a) i; j ← norm_index w c; Ok (nth j r NaN)
  | _ => Raise IndexError
  end.

(** [a[indices, :]] *)
Definition arr_rows (a : ndarray) (indices : list nat) : result ndarray :=
  match shape a with
  | [_; w] => rs ← mapR (py_index (cells a)) indices; Ok (mk_ndarray [length indices; w] rs)
  | _ => Raise IndexError
  end.

(** [a[:, indices]] *)
Definition arr_cols (a : ndarray) (indices : list Z) : result ndarray :=
  match shape a with
  | [n; w] =>
      js ← mapR (norm_index w) indices;
      Ok (mk_ndarray [n; length indices] ((fun r => (fun j => nth j r NaN) <$> (js : list nat)) <$> cells a))
  | _ => Raise IndexError
  end.

(** [a[~np.any(np.isnan(a), axis=1)]] *)
Definition drop_nan_rows (a : ndarray) : ndarray :=
  let kept := filter (fun r => forallb notnan r = true) (cells a) in
  mk_ndarray (length kept :: drop 1 (shape a)) kept.

(** [a.T] *)
Definition transpose (a : ndarray) : ndarray :=
  match shape a with
  | [n; w] => mk_ndarray [w; n] ((fun j => (fun r => nth j r NaN) <$> cells a) <$> seq 0 w)
  | _ => a
  end.

(** ** NumPy reductions *)

(** [np.mean]: the mean of no value is [0 / 0]. *)
Definition np_mean (xs : list float64) : float64 :=
  fdiv (fsum xs) (of_nat (length xs)).

Definition sq_dev (avg x : float64) : float64 :=
  let d := fsub x avg in fmul d d.

(** [np.var(xs, ddof=ddof)] *)
Definition np_var (ddof : nat) (xs : list float64) : float64 :=
  let arrmean := np_mean xs in
  fdiv (fsum (sq_dev arrmean <$> xs)) (of_nat (length xs - ddof)).

Definition fmin (x y : float64) : float64 :=
  if isnan x || isnan y then NaN else if flt y x then y else x.
Definition fmax (x y : float64) : float64 :=
  if isnan x || isnan y then NaN else if flt x y then y else x.

(** [np.min] and [np.max] have no identity: the empty array is refused. *)
Definition np_min (xs : list float64) : result float64 :=
  match xs with
  | [] => Raise ValueError
  | x :: xs' => Ok (foldl fmin x xs')
  end.
Definition np_max (xs : list float64) : result float64 :=
  match xs with
  | [] => Raise ValueError
  | x :: xs' => Ok (foldl fmax x xs')
  end.

Fixpoint insert_sorted (x : float64) (l : list float64) : list float64 :=
  match l with
  | [] => [x]
  | y :: l' => if fle x y then x :: l else y :: insert_sorted x l'
  end.

Definition sort_floats (xs : list float64) : list float64 :=
  foldr insert_sorted [] xs.

(** [np.median] of an array without NaN: the mean of the middle element, or
    of the two middle elements. *)
Definition np_median (xs : list float64) : float64 :=
  let s := sort_floats xs in
  let n := length s in
  if Nat.even n then np_mean (take 2 (drop (n / 2 - 1) s))
  else np_mean (take 1 (drop (n / 2) s)).

Definition np_nanmean (xs : list float64) : float64 :=
  np_mean (filter (fun x => notnan x = true) xs).

(** A stable insertion sort of the positions of [xs] by their keys: what
    NumPy's default sort does on a short array.  It is one of the functions
    [argsort_contract] allows. *)
Fixpoint insert_index (xs : list float64) (i : nat) (l : list nat) : list nat :=
  match l with
  | [] => [i]
  | j :: l' =>
      if flt (nth i xs NaN) (nth j xs NaN) then i :: l
      else j :: insert_index xs i l'
  end.

Definition stable_argsort (xs : list float64) : list nat :=
  foldl (fun acc i => insert_index xs i acc) [] (seq 0 (length xs)).

(** ** The analyzer object and its methods' monad *)

Record HappinessAnalyzer : Type := mk_analyzer {
  csv_file : string;
  data : option ndarray;
  headers : list string;
  country_names : list string;
  regional_indicators : list string;
  column_map : gmap string nat
}.

(** A method reads and writes [self] and returns a value or raises. *)
Definition M (A : Type) : Type := HappinessAnalyzer -> result A * HappinessAnalyzer.

Definition ret {A} (a : A) : M A := fun s => (Ok a, s).
Definition raise {A} (e : exn) : M A := fun s => (Raise e, s).
Definition bind {A B} (m : M A) (k : A -> M B) : M B := fun s =>
  match m s with
  | (Ok a, s') => k a s'
  | (Raise e, s') => (Raise e, s')
  end.
(** Reading an attribute of [self], and assigning to [self]. *)
Definition gets {A} (f : HappinessAnalyzer -> A) : M A := fun s => (Ok (f s), s).
Definition modify (f : HappinessAnalyzer -> HappinessAnalyzer) : M unit :=
  fun s => (Ok tt, f s).
(** A computation that does not touch [self]. *)
Definition lift {A} (r : result A) : M A := fun s => (r, s).

Declare Scope analyzer_scope.
Delimit Scope analyzer_scope with M.
Notation "x <- m ;; k" := (bind m (fun x => k))
  (at level 100, m at next level, right associativity) : analyzer_scope.
Notation "m ;; k" := (bind m (fun _ => k))
  (at level 100, right associativity) : analyzer_scope.

(** The value a method returns from the state [s], and the state it leaves. *)
Definition run {A} (m : M A) (s : HappinessAnalyzer) : result A := fst (m s).
Definition exec {A} (m : M A) (s : HappinessAnalyzer) : HappinessAnalyzer := snd (m s).

Fixpoint foldM {A B} (f : B -> A -> M B) (b : B) (l : list A) : M B :=
  match l with
  | [] => ret b
  | x :: l' => (b' <- f b x ;; foldM f b' l')%M
  end.

Definition set_headers (h : list string) (s : HappinessAnalyzer) : HappinessAnalyzer :=
  mk_analyzer (csv_file s) (data s) h (country_names s) (regional_indicators s) (column_map s).
Definition set_data (a : ndarray) (s : HappinessAnalyzer) : HappinessAnalyzer :=
  mk_analyzer (csv_file s) (Some a) (headers s) (country_names s) (regional_indicators s)
    (column_map s).
Definition set_column (header : string) (i : nat) (s : HappinessAnalyzer) : HappinessAnalyzer :=
  mk_analyzer (csv_file s) (data s) (headers s) (country_names s) (regional_indicators s)
    (<[header := i]> (column_map s)).
Definition append_country (c : string) (s : HappinessAnalyzer) : HappinessAnalyzer :=
  mk_analyzer (csv_file s) (data s) (headers s) (country_names s ++ [c])
    (regional_indicators s) (column_map s).
Definition append_region (r : string) (s : HappinessAnalyzer) : HappinessAnalyzer :=
  mk_analyzer (csv_file s) (data s) (headers s) (country_names s)
    (regional_indicators s ++ [r]) (column_map s).

(** The dictionaries the methods return. *)
Record statistics : Type := mk_statistics {
  stat_mean : float64;
  stat_median : float64;
  stat_std : float64;
  stat_min : float64;
  stat_max : float64;
  stat_count : nat
}.

Record region_statistics : Type := mk_region_statistics {
  region_mean : float64;
  region_median : float64;
  region_std : float64;
  region_count : nat
}.

(** A value of the dictionary [get_country_data] returns. *)
Inductive field : Type :=
| Text (s : string)
| Number (x : float64).

(** What [np.corrcoef] returns: a zero-dimensional array or a matrix. *)
Inductive correlation : Type :=
| Scalar (x : float64)
| Matrix (rows : list (list float64)).

Definition dot (xs ys : list float64) : float64 := fsum (zip_with fmul xs ys).

(** [np.cov(x)] before its final [squeeze]; the rows of [x] are the
    variables.  The divisor [m - 1] is replaced by [0.0] when it is not
    positive, and the products are multiplied by its inverse. *)
Definition np_cov (x : ndarray) : list (list float64) :=
  match shape x with
  | [_; m] =>
      let centred := (fun r => (fun v => fsub v (np_mean r)) <$> r) <$> cells x in
      let scale := fdiv (of_nat 1) (of_nat (m - 1)) in
      (fun r => (fun r' => fmul (dot r r') scale) <$> centred) <$> centred
  | _ => []
  end.

Definition fclip (x : float64) : float64 :=
  if flt x (of_Z (-1)) then of_Z (-1) else if flt (of_Z 1) x then of_Z 1 else x.

(** The tables of the examples: the scenario of the spec's testable
    properties, and a table whose only feature has no value. *)
Definition num (z : Z) : float64 := of_Z z.

Definition scenario : HappinessAnalyzer :=
  mk_analyzer "scenario.csv"
    (Some (mk_ndarray [3%nat; 2%nat] [[num 1; NaN]; [num 2; num 5]; [num 3; num 5]]))
    ["Country name"; "Regional indicator"; "F1"; "F2"]
    ["A"; "B"; "C"] ["R1"; "R1"; "R2"]
    (list_to_map [("Country name", 0%nat); ("Regional indicator", 1%nat);
                  ("F1", 2%nat); ("F2", 3%nat)]).

Definition one_feature : HappinessAnalyzer :=
  mk_analyzer "one.csv"
    (Some (mk_ndarray [2%nat; 1%nat] [[NaN]; [NaN]]))
    ["Country name"; "Regional indicator"; "F1"]
    ["A"; "B"] ["R1"; "R2"]
    (list_to_map [("Country name", 0%nat); ("Regional indicator", 1%nat); ("F1", 2%nat)]).

(** A table of two rows: F1 holds 1.0 and 3.0, F2 a single value. *)
Definition paired : HappinessAnalyzer :=
  mk_analyzer "paired.csv"
    (Some (mk_ndarray [2%nat; 2%nat] [[num 1; NaN]; [num 3; num 7]]))
    ["Country name"; "Regional indicator"; "F1"; "F2"]
    ["A"; "B"] ["R1"; "R1"]
    (list_to_map [("Country name", 0%nat); ("Regional indicator", 1%nat);
                  ("F1", 2%nat); ("F2", 3%nat)]).

(** Two files as [csv.reader] yields them: one with an empty line and an
    empty cell, and one whose only data row is shorter than the header. *)
Definition two_rows : list (list string) :=
  [["Country name"; "Regional indicator"; "F1"; "F2"];
   ["A"; "R1"; "1"; ""]; []; ["B"; "R1"; "2"; "5"]].

Definition short_row : list (list string) :=
  [["Country name"; "Regional indicator"; "F1"; "F2"]; ["A"; "R1"; "1"]].

(** The attributes [__init__] sets before it calls [load_data]. *)
Definition blank (csv : string) : HappinessAnalyzer :=
  mk_analyzer csv None [] [] [] ∅.

(** A [float()] for the examples: unsigned decimal integers only. *)
Fixpoint digits (s : string) (acc : Z) : option Z :=
  match s with
  | EmptyString => Some acc
  | String c s' =>
      let n := Z.of_nat (Ascii.nat_of_ascii c) in
      if bool_decide (48 <= n <= 57) then digits s' (10 * acc + (n - 48)) else None
  end.

Definition float_of_digits (s : string) : option float64 :=
  match s with
  | EmptyString => None
  | _ => of_Z <$> digits s 0
  end.

(** A square root for the examples: [sqrt q] to 52 binary digits, rounded
    down; it is exact on the squares of small rationals. *)
Definition sqrt_52 (q : Qc) : Qc :=
  let n := Qnum q in
  let d := Z.pos (Qden q) in
  (Qc_of_Z (Z.sqrt (n * d * 2 ^ 104)) / Qc_of_Z (d * 2 ^ 52))%Qc.

(** ** The methods of [HappinessAnalyzer] *)

Section Analyzer.

Open Scope analyzer_scope.

(** Python's [float(val)]: [None] stands for [ValueError]. *)
Variable py_float : string -> option float64.
(** The square root of a finite non-negative [float64]. *)
Variable sqrt64 : Qc -> Qc.
(** [np.argsort] with its default kind. *)
Variable argsort : list float64 -> list nat.

(** What NumPy promises of [np.argsort] on an array without NaN: the result
    lists every position once and the keys read in that order ascend. *)
Definition argsort_contract : Prop :=
  forall xs : list float64,
    Forall (fun x => isnan x = false) xs ->
    Permutation (argsort xs) (seq 0 (length xs)) /\
    forall i j a b,
      (i < j)%nat -> argsort xs !! i = Some a -> argsort xs !! j = Some b ->
      flt (nth b xs NaN) (nth a xs NaN) = false.

(** [np.sqrt] *)
Definition np_sqrt (x : float64) : float64 :=
  match x with
  | NaN => NaN
  | Inf neg => if neg then NaN else Inf false
  | Fin q => if Qc_neg q then NaN else Fin (sqrt64 q)
  end.

(** [np.std], with NumPy's default [ddof=0]. *)
Definition np_std (xs : list float64) : float64 := np_sqrt (np_var 0 xs).

Definition np_nanstd (xs : list float64) : float64 :=
  np_std (filter (fun x => notnan x = true) xs).

(** [np.corrcoef(x)]: a single variable leaves a zero-dimensional
    covariance [c], for which [c / c] is returned. *)
Definition np_corrcoef (x : ndarray) : correlation :=
  match np_cov x with
  | [[c]] => Scalar (fdiv c c)
  | c =>
      let stddev := imap (fun i row => np_sqrt (nth i row NaN)) c in
      Matrix (imap (fun i row =>
                imap (fun j v => fclip (fdiv (fdiv v (nth i stddev NaN)) (nth j stddev NaN))) row) c)
  end.

(** [self.data[...]] raises [TypeError] while [self.data] is [None]. *)
Definition get_data : M ndarray :=
  d <- gets data ;;
  match d with
  | Some a => ret a
  | None => raise TypeError
  end.

Definition load_row (rows : list (list float64)) (row : list string)
  : M (list (list float64)) :=
  match row with
  | c :: r :: v :: vs =>
      modify (append_country c) ;;
      modify (append_region r) ;;
      let numeric_row := (fun val => default NaN (py_float val)) <$> (v :: vs) in
      ret (rows ++ [numeric_row])
  | _ => ret rows
  end.

(** [load_data]; [reader] is what [csv.reader] yields for [self.csv_file],
    the file having been opened and decoded: the exceptions of [open()] and
    of reading the file are not modelled. *)
Definition load_data (reader : list (list string)) : M unit :=
  match reader with
  | [] => raise StopIteration
  | header_row :: body =>
      modify (set_headers header_row) ;;
      foldM (fun _ '(i, header) => modify (set_column header i)) tt (enumerate header_row) ;;
      rows <- foldM load_row [] body ;;
      a <- lift (np_array rows) ;;
      modify (set_data a) ;;
      (* the summary line reads self.data.shape[1] *)
      lift (py_index (shape a) 1) ;;
      ret tt
  end.

(** [HappinessAnalyzer(csv_file)] *)
Definition new (csv : string) (reader : list (list string)) : result HappinessAnalyzer :=
  match load_data reader (blank csv) with
  | (Ok _, s) => Ok s
  | (Raise e, _) => Raise e
  end.

Definition get_column_index (column_name : string) : M Z :=
  cm <- gets column_map ;;
  match cm !! column_name with
  | Some i => ret (Z.of_nat i - 2)
  | None => raise KeyError
  end.

Definition get_basic_statistics (column_name : string) : M statistics :=
  col_idx <- get_column_index column_name ;;
  a <- get_data ;;
  column_data <- lift (arr_col a col_idx) ;;
  let clean_data := filter (fun x => notnan x = true) column_data in
  let mean := np_mean clean_data in
  let median := np_median clean_data in
  let std := np_std clean_data in
  mn <- lift (np_min clean_data) ;;
  mx <- lift (np_max clean_data) ;;
  ret (mk_statistics mean median std mn mx (length clean_data)).

(** The part [get_top_countries] and [get_bottom_countries] share: the
    countries and values of the rows whose value is not NaN. *)
Definition valid_rows (column_name : string) : M (list string * list float64) :=
  col_idx <- get_column_index column_name ;;
  a <- get_data ;;
  values <- lift (arr_col a col_idx) ;;
  let valid_indices := notnan <$> values in
  valid_values <- lift (mask_select valid_indices values) ;;
  names <- gets country_names ;;
  valid_countries <- lift (mask_select valid_indices names) ;;
  ret (valid_countries, valid_values).

Definition pick (valid_countries : list string) (valid_values : list float64)
    (sorted_indices : list nat) : result (list (string * float64)) :=
  mapR (fun i => c ← py_index valid_countries i; v ← py_index valid_values i; Ok (c, v))
    sorted_indices.

Definition get_top_countries (column_name : string) (n : Z) : M (list (string * float64)) :=
  valid <- valid_rows column_name ;;
  let '(valid_countries, valid_values) := valid in
  let sorted_indices := py_take n (reverse (argsort valid_values)) in
  lift (pick valid_countries valid_values sorted_indices).

Definition get_bottom_countries (column_name : string) (n : Z) : M (list (string * float64)) :=
  valid <- valid_rows column_name ;;
  let '(valid_countries, valid_values) := valid in
  let sorted_indices := py_take n (argsort valid_values) in
  lift (pick valid_countries valid_values sorted_indices).

Definition filter_by_region (region : string) : M (list string * ndarray) :=
  regions <- gets regional_indicators ;;
  let indices := fst <$> filter (fun p => snd p = region) (enumerate regions) in
  names <- gets country_names ;;
  countries <- lift (mapR (py_index names) indices) ;;
  a <- get_data ;;
  d <- lift (arr_rows a indices) ;;
  ret (countries, d).

Definition get_correlation_matrix (column_names : list string) : M correlation :=
  indices <- foldM (fun acc name => i <- get_column_index name ;; ret (acc ++ [i])) []
               column_names ;;
  a <- get_data ;;
  subset_data <- lift (arr_cols a indices) ;;
  let clean_data := drop_nan_rows subset_data in
  ret (np_corrcoef (transpose clean_data)).

Definition compare_region (col_idx : Z) (results : gmap string region_statistics)
    (region : string) : M (gmap string region_statistics) :=
  filtered <- filter_by_region region ;;
  let '(_, region_data) := filtered in
  region_values <- lift (arr_col region_data col_idx) ;;
  let clean_values := filter (fun x => notnan x = true) region_values in
  if bool_decide (0 < length clean_values)%nat
  then ret (<[region := mk_region_statistics (np_mean clean_values) (np_median clean_values)
                          (np_std clean_values) (length clean_values)]> results)
  else ret results.

Definition compare_regions (column_name : string) : M (gmap string region_statistics) :=
  col_idx <- get_column_index column_name ;;
  regions <- gets regional_indicators ;;
  let unique_regions := elements (list_to_set regions : gset string) in
  foldM (compare_region col_idx) ∅ unique_regions.

Definition find_outliers (column_name : string) (threshold : float64)
  : M (list (string * float64 * float64)) :=
  col_idx <- get_column_index column_name ;;
  a <- get_data ;;
  values <- lift (arr_col a col_idx) ;;
  let mean := np_nanmean values in
  let std := np_nanstd values in
  let z_scores := (fun v => fabs (fdiv (fsub v mean) std)) <$> values in
  let outlier_indices :=
    fst <$> filter (fun p => fgt (snd p) threshold = true) (enumerate z_scores) in
  names <- gets country_names ;;
  lift (mapR (fun i => c ← py_index names i; v ← py_index values i;
                       z ← py_index z_scores i; Ok (c, v, z))
         (filter (fun i => notnan (nth i values NaN) = true) outlier_indices)).

Definition get_country_data (country_name : string) : M (gmap string field) :=
  names <- gets country_names ;;
  match list_index country_name names with
  | Raise _ => ret ∅
  | Ok idx =>
      regions <- gets regional_indicators ;;
      region <- lift (py_index regions idx) ;;
      let result := <["Regional indicator" := Text region]>
                      (<["Country name" := Text country_name]> ∅) in
      hs <- gets headers ;;
      foldM (fun result header =>
               col_idx <- get_column_index header ;;
               a <- get_data ;;
               v <- lift (arr_item a idx col_idx) ;;
               ret (<[header := Number v]> result))
            result (drop 2 hs)
  end.

Definition calculate_percentile_rank (country_name column_name : string) : M float64 :=
  col_idx <- get_column_index column_name ;;
  names <- gets country_names ;;
  country_idx <- lift (list_index country_name names) ;;
  a <- get_data ;;
  country_value <- lift (arr_item a country_idx col_idx) ;;
  all_values <- lift (arr_col a col_idx) ;;
  let clean_values := filter (fun x => notnan x = true) all_values in
  let below := length (filter (fun x => flt x country_value = true) clean_values) in
  ret (fmul (fdiv (of_nat below) (of_nat (length clean_values))) (of_Z 100)).

End Analyzer.

(** A method that never assigns to [self]. *)
Definition readonly {A} (m : M A) : Prop := forall s, exec m s = s.

(** ** The dataset an analyzer holds *)

(** The analyzer holds an [n] by [w] matrix and one name and one region per
    row. *)
Definition well_formed (s : HappinessAnalyzer) (n w : nat) : Prop :=
  (exists a, data s = Some a /\ shape a = [n; w] /\ length (cells a) = n /\
             Forall (fun r => length r = w) (cells a)) /\
  length (country_names s) = n /\
  length (regional_indicators s) = n.

(** [name] is the header of the feature in column [j] of the matrix. *)
Definition feature (s : HappinessAnalyzer) (w : nat) (name : string) (j : nat) : Prop :=
  column_map s !! name = Some (j + 2)%nat /\ (j < w)%nat.

(** The offset [get_column_index] gives for [name] selects column [j] of a
    matrix with [w] columns, read from the end when it is negative. *)
Definition resolves (s : HappinessAnalyzer) (w : nat) (name : string) (j : nat) : Prop :=
  exists i, column_map s !! name = Some i /\ norm_index w (Z.of_nat i - 2) = Ok j.

Definition matrix (s : HappinessAnalyzer) : list (list float64) :=
  match data s with
  | Some a => cells a
  | None => []
  end.

Definition column (s : HappinessAnalyzer) (j : nat) : list float64 :=
  (fun r => nth j r NaN) <$> matrix s.

Definition cell (s : HappinessAnalyzer) (i j : nat) : float64 :=
  nth j (nth i (matrix s) []) NaN.

(** The values of a column that are not MISSING. *)
Definition present (xs : list float64) : list float64 :=
  filter (fun x => isnan x = false) xs.

(** How many values of [xs] are not MISSING and strictly less than [v]. *)
Definition count_below (v : float64) (xs : list float64) : nat :=
  length (filter (fun x => isnan x = false /\ flt x v = true) xs).

(** [100 * k / n] *)
Definition percent (k n : nat) : Qc :=
  (Qc_of_Z 100 * Qc_of_Z (Z.of_nat k) / Qc_of_Z (Z.of_nat n))%Qc.

(** [i] is the first row named [name]. *)
Definition first_row (names : list string) (name : string) (i : nat) : Prop :=
  names !! i = Some name /\ forall i', (i' < i)%nat -> names !! i' <> Some name.

(** ** What each operation computes from the column it reads *)

Section Closed_forms.

Variable sqrt64 : Qc -> Qc.
Variable argsort : list float64 -> list nat.

(** [get_basic_statistics] on the column [xs]. *)
Definition statistics_of (xs : list float64) : result statistics :=
  let clean := present xs in
  mn ← np_min clean;
  mx ← np_max clean;
  Ok (mk_statistics (np_mean clean) (np_median clean) (np_std sqrt64 clean) mn mx
        (length clean)).

(** The (country, value) pairs of the rows whose value is not MISSING, in
    row order. *)
Definition valid_pairs (names : list string) (xs : list float64) : list (string * float64) :=
  filter (fun p => isnan (snd p) = false) (zip names xs).

(** The pairs of a column in the order [argsort] gives their values. *)
Definition ranked (names : list string) (xs : list float64) : list (string * float64) :=
  (fun i => nth i (valid_pairs names xs) ("", NaN)) <$>
    argsort (snd <$> valid_pairs names xs).

(** [get_bottom_countries] and [get_top_countries] on the column [xs]. *)
Definition bottom_of (names : list string) (xs : list float64) (n : Z)
  : result (list (string * float64)) :=
  let valid := valid_pairs names xs in
  mapR (py_index valid) (py_take n (argsort (snd <$> valid))).

Definition top_of (names : list string) (xs : list float64) (n : Z)
  : result (list (string * float64)) :=
  let valid := valid_pairs names xs in
  mapR (py_index valid) (py_take n (reverse (argsort (snd <$> valid)))).

(** [find_outliers] on the column [xs]. *)
Definition z_score (xs : list float64) (v : float64) : float64 :=
  fabs (fdiv (fsub v (np_mean (present xs))) (np_std sqrt64 (present xs))).

Definition outliers_of (names : list string) (xs : list float64) (threshold : float64)
  : result (list (string * float64 * float64)) :=
  let z_scores := z_score xs <$> xs in
  let outlier_indices :=
    fst <$> filter (fun p => fgt (snd p) threshold = true) (enumerate z_scores) in
  mapR (fun i => c ← py_index names i; v ← py_index xs i;
                 z ← py_index z_scores i; Ok (c, v, z))
    (filter (fun i => notnan (nth i xs NaN) = true) outlier_indices).

(** [compare_regions] on the column [xs]: the non-missing values of a
    region, the statistics recorded for them, and the dictionary built
    from the regions in the order the set of regions is listed. *)
Definition region_values (regions : list string) (xs : list float64) (region : string)
  : list float64 :=
  present (snd <$> filter (fun p => fst p = region) (zip regions xs)).

Definition region_statistics_of (xs : list float64) : region_statistics :=
  mk_region_statistics (np_mean xs) (np_median xs) (np_std sqrt64 xs) (length xs).

Definition record_region (regions : list string) (xs : list float64)
    (results : gmap string region_statistics) (region : string)
  : gmap string region_statistics :=
  let values := region_values regions xs region in
  if bool_decide (0 < length values)%nat
  then <[region := region_statistics_of values]> results
  else results.

Definition regions_of (regions : list string) (xs : list float64)
  : gmap string region_statistics :=
  foldl (record_region regions xs) ∅ (elements (list_to_set regions : gset string)).

(** [calculate_percentile_rank] on the column [xs]. *)
Definition percentile_of (names : list string) (xs : list float64) (country : string)
  : result float64 :=
  idx ← list_index country names;
  v ← py_index xs idx;
  Ok (fmul (fdiv (of_nat (count_below v xs)) (of_nat (length (present xs)))) (of_Z 100)).

End Closed_forms.

(** Position [a] may come before position [b] in an argsort of [xs]. *)
Definition key_le (xs : list float64) (a b : nat) : Prop :=
  flt (nth b xs NaN) (nth a xs NaN) = false.

(** A ranking is ascending when no later value is below an earlier one, and
    descending when no earlier value is below a later one. *)
Definition ascending (l : list (string * float64)) : Prop :=
  forall i i' p q, (i < i')%nat -> l !! i = Some p -> l !! i' = Some q ->
    flt (snd q) (snd p) = false.

Definition descending (l : list (string * float64)) : Prop :=
  forall i i' p q, (i < i')%nat -> l !! i = Some p -> l !! i' = Some q ->
    flt (snd p) (snd q) = false.

(** The data rows [load_data] admits: those with more than two fields. *)
Definition admitted (body : list (list string)) : list (list string) :=
  filter (fun row => (2 < length row)%nat) body.

(** The state [load_data] builds from a header and the data rows: the
    matrix rows, the two lists of names, and the column index, in which a
    repeated header keeps its last position. *)
Definition numeric_rows (py_float : string -> option float64) (body : list (list string))
  : list (list float64) :=
  (fun row => (fun val => default NaN (py_float val)) <$> drop 2 row) <$> admitted body.

Definition loaded_names (body : list (list string)) (s : HappinessAnalyzer)
  : HappinessAnalyzer :=
  mk_analyzer (csv_file s) (data s) (headers s)
    (country_names s ++ ((fun row => nth 0 row "") <$> admitted body))
    (regional_indicators s ++ ((fun row => nth 1 row "") <$> admitted body))
    (column_map s).

Definition indexed (header : list string) (s : HappinessAnalyzer) : HappinessAnalyzer :=
  mk_analyzer (csv_file s) (data s) (headers s) (country_names s) (regional_indicators s)
    (foldl (fun m p => <[snd p := fst p]> m) (column_map s) (enumerate header)).

(** [column_map] is the index [load_data] builds from [headers]. *)
Definition header_index (s : HappinessAnalyzer) : Prop :=
  column_map s = foldl (fun m p => <[snd p := fst p]> m) ∅ (enumerate (headers s)).

(** The feature names of the spec: the header fields after the first two. *)
Definition feature_names (s : HappinessAnalyzer) : list string := drop 2 (headers s).

(** The population and the sample standard deviation of [xs]: the square
    root of the sum of squared deviations from the mean, divided by the
    number [N] of values for the first and by [N - 1] for the second. *)
Definition sum_sq_dev (xs : list float64) : float64 :=
  fsum ((fun x => fmul (fsub x (np_mean xs)) (fsub x (np_mean xs))) <$> xs).

(** The variance [np.cov] computes for one variable: the sum of squared
    deviations times the inverse of [N - 1]. *)
Definition sample_variance (xs : list float64) : float64 :=
  fmul (sum_sq_dev xs) (fdiv (of_nat 1) (of_nat (length xs - 1))).

Definition Qc_sum (qs : list Qc) : Qc := foldr Qcplus 0%Qc qs.

Definition population_std (sqrt64 : Qc -> Qc) (xs : list float64) : float64 :=
  np_sqrt sqrt64 (fdiv (sum_sq_dev xs) (of_nat (length xs))).

Definition sample_std (sqrt64 : Qc -> Qc) (xs : list float64) : float64 :=
  np_sqrt sqrt64 (fdiv (sum_sq_dev xs) (of_nat (length xs - 1))).

(** The rows of the columns [js] that [get_correlation_matrix] keeps: those
    in which no value is MISSING. *)
Definition complete_rows (s : HappinessAnalyzer) (js : list nat) : list (list float64) :=
  filter (fun r => forallb notnan r = true)
    ((fun r => (fun j => nth j r NaN) <$> js) <$> matrix s).

(** The variables [np.corrcoef] is given: one row per selected column. *)
Definition variables_of (s : HappinessAnalyzer) (js : list nat) : ndarray :=
  mk_ndarray [length js; length (complete_rows s js)]
    ((fun k => (fun r => nth k r NaN) <$> complete_rows s js) <$> seq 0 (length js)).

(** A correlation coefficient after [np.clip]: NaN or a number of [-1, 1]. *)
Definition coefficient (v : float64) : Prop :=
  isnan v = true \/ (fle (of_Z (-1)) v = true /\ fle v (of_Z 1) = true).

(** * Properties *)

(** ** Methods that only read [self] *)

Lemma readonly_ret {A} (a : A) : readonly (ret a).
Proof. by intros s. Qed.

Lemma readonly_raise {A} (e : exn) : readonly (raise (A := A) e).
Proof. by intros s. Qed.

Lemma readonly_gets {A} (f : HappinessAnalyzer -> A) : readonly (gets f).
Proof. by intros s. Qed.

Lemma readonly_lift {A} (r : result A) : readonly (lift r).
Proof. by intros s. Qed.

Lemma readonly_bind {A B} (m : M A) (k : A -> M B) :
  readonly m -> (forall a, readonly (k a)) -> readonly (bind m k).
Proof.
  intros Hm Hk s. unfold exec, bind. specialize (Hm s). unfold exec in Hm.
  destruct (m s) as [[a|e] s']; simpl in *; subst s'; [apply Hk | done].
Qed.

Lemma readonly_foldM {A B} (f : B -> A -> M B) (l : list A) :
  (forall b x, readonly (f b x)) -> forall b, readonly (foldM f b l).
Proof.
  intros Hf. induction l as [|x l IH]; intros b; simpl.
  - apply readonly_ret.
  - apply readonly_bind; [apply Hf | apply IH].
Qed.

Create HintDb readonly.
#[export] Hint Resolve readonly_ret readonly_raise readonly_gets readonly_lift : readonly.

Ltac readonly_step :=
  first
    [ solve [auto with readonly]
    | apply readonly_bind; [| intros ?]
    | apply readonly_foldM; intros ? ?
    | progress cbv zeta
    | match goal with
      | |- readonly (match ?x with _ => _ end) => destruct x
      end ].

Ltac solve_readonly := repeat readonly_step.

Lemma readonly_run {A} (m : M A) s : readonly m -> m s = (run m s, s).
Proof. intros H. specialize (H s). unfold exec, run in *. by destruct (m s); simpl in *; subst. Qed.

Lemma readonly_get_column_index name : readonly (get_column_index name).
Proof. unfold get_column_index. solve_readonly. Qed.

Lemma readonly_get_data : readonly get_data.
Proof. unfold get_data. solve_readonly. Qed.

#[export] Hint Resolve readonly_get_column_index readonly_get_data : readonly.

Lemma readonly_valid_rows name : readonly (valid_rows name).
Proof. unfold valid_rows. solve_readonly. Qed.

Lemma readonly_filter_by_region region : readonly (filter_by_region region).
Proof. unfold filter_by_region. solve_readonly. Qed.

#[export] Hint Resolve readonly_valid_rows readonly_filter_by_region : readonly.

Section Frame.

Variable sqrt64 : Qc -> Qc.
Variable argsort : list float64 -> list nat.

Lemma readonly_compare_region c results region :
  readonly (compare_region sqrt64 c results region).
Proof. unfold compare_region. solve_readonly. Qed.

#[local] Hint Resolve readonly_compare_region : readonly.

Lemma readonly_get_basic_statistics name : readonly (get_basic_statistics sqrt64 name).
Proof. unfold get_basic_statistics. solve_readonly. Qed.

Lemma readonly_get_top_countries name n : readonly (get_top_countries argsort name n).
Proof. unfold get_top_countries. solve_readonly. Qed.

Lemma readonly_get_bottom_countries name n : readonly (get_bottom_countries argsort name n).
Proof. unfold get_bottom_countries. solve_readonly. Qed.

Lemma readonly_get_correlation_matrix names : readonly (get_correlation_matrix sqrt64 names).
Proof. unfold get_correlation_matrix. solve_readonly. Qed.

Lemma readonly_compare_regions name : readonly (compare_regions sqrt64 name).
Proof. unfold compare_regions. solve_readonly. Qed.

Lemma readonly_find_outliers name threshold : readonly (find_outliers sqrt64 name threshold).
Proof. unfold find_outliers. solve_readonly. Qed.

Lemma readonly_get_country_data country : readonly (get_country_data country).
Proof. unfold get_country_data. solve_readonly. Qed.

Lemma readonly_calculate_percentile_rank country name :
  readonly (calculate_percentile_rank country name).
Proof. unfold calculate_percentile_rank. solve_readonly. Qed.

(** C7: no operation of the analysis engine changes the analyzer: the
    state after the call (the matrix [data], the lists [country_names],
    [regional_indicators] and [headers], and [column_map]) is the state
    before it, whatever the arguments and whether the call returns or
    raises. *)
Theorem operations_leave_dataset_unchanged :
  (forall name s, exec (get_basic_statistics sqrt64 name) s = s) /\
  (forall name n s, exec (get_top_countries argsort name n) s = s) /\
  (forall name n s, exec (get_bottom_countries argsort name n) s = s) /\
  (forall region s, exec (filter_by_region region) s = s) /\
  (forall names s, exec (get_correlation_matrix sqrt64 names) s = s) /\
  (forall name s, exec (compare_regions sqrt64 name) s = s) /\
  (forall name threshold s, exec (find_outliers sqrt64 name threshold) s = s) /\
  (forall country s, exec (get_country_data country) s = s) /\
  (forall country name s, exec (calculate_percentile_rank country name) s = s).
Proof.
  repeat split; intros.
  - apply readonly_get_basic_statistics.
  - apply readonly_get_top_countries.
  - apply readonly_get_bottom_countries.
  - apply readonly_filter_by_region.
  - apply readonly_get_correlation_matrix.
  - apply readonly_compare_regions.
  - apply readonly_find_outliers.
  - apply readonly_get_country_data.
  - apply readonly_calculate_percentile_rank.
Qed.

End Frame.

(** ** Reading the dataset *)

Lemma run_bind {A B} (m : M A) (k : A -> M B) s :
  readonly m -> run (bind m k) s = run m s ≫= fun a => run (k a) s.
Proof.
  intros H. unfold run, bind. rewrite (readonly_run m s H). simpl.
  by destruct (run m s).
Qed.

Lemma run_ret {A} (a : A) s : run (ret a) s = Ok a.
Proof. done. Qed.

Lemma run_gets {A} (f : HappinessAnalyzer -> A) s : run (gets f) s = Ok (f s).
Proof. done. Qed.

Lemma run_lift {A} (r : result A) s : run (lift r) s = r.
Proof. done. Qed.

Lemma run_get_column_index name s :
  run (get_column_index name) s =
  match column_map s !! name with
  | Some i => Ok (Z.of_nat i - 2)
  | None => Raise KeyError
  end.
Proof. unfold get_column_index, run, bind, gets. simpl. by destruct (column_map s !! name). Qed.

Lemma run_get_data s :
  run get_data s = match data s with Some a => Ok a | None => Raise TypeError end.
Proof. unfold get_data, run, bind, gets. simpl. by destruct (data s). Qed.

Lemma norm_index_nat w j : (j < w)%nat -> norm_index w (Z.of_nat j) = Ok j.
Proof.
  intros H. unfold norm_index. rewrite bool_decide_eq_true_2 by lia.
  by rewrite Nat2Z.id.
Qed.

Lemma norm_index_lt w c j : norm_index w c = Ok j -> (j < w)%nat.
Proof.
  unfold norm_index. repeat case_bool_decide; intros [= <-]; lia.
Qed.

Lemma feature_resolves s w name j : feature s w name j -> resolves s w name j.
Proof.
  intros [H Hj]. exists (j + 2)%nat. split; [done |].
  replace (Z.of_nat (j + 2) - 2) with (Z.of_nat j) by lia. by apply norm_index_nat.
Qed.

Lemma run_resolved s w name j :
  resolves s w name j ->
  exists c, run (get_column_index name) s = Ok c /\ norm_index w c = Ok j.
Proof.
  intros (i & Hi & Hn). exists (Z.of_nat i - 2). by rewrite run_get_column_index, Hi.
Qed.

Lemma arr_col_resolved a n w c j :
  shape a = [n; w] -> norm_index w c = Ok j ->
  arr_col a c = Ok ((fun r => nth j r NaN) <$> cells a).
Proof. intros Hs Hj. unfold arr_col. by rewrite Hs, Hj. Qed.

Lemma arr_item_resolved a n w i c j :
  shape a = [n; w] -> norm_index w c = Ok j -> (i < length (cells a))%nat ->
  arr_item a i c = Ok (nth j (nth i (cells a) []) NaN).
Proof.
  intros Hs Hj Hi. unfold arr_item, py_index. rewrite Hs.
  destruct (lookup_lt_is_Some_2 (cells a) i Hi) as [r Hr]. rewrite Hr. simpl.
  rewrite Hj. simpl. by rewrite (nth_lookup_Some _ _ [] _ Hr).
Qed.

Lemma list_index_first names name i :
  list_index name names = Ok i <-> first_row names name i.
Proof.
  revert i. induction names as [|y names IH]; intros i; simpl.
  - split; [done | by intros [? _]].
  - case_bool_decide as Hy.
    + subst y. split.
      * intros [= <-]. split; [done | lia].
      * intros [Hi Hfirst]. destruct i as [|i]; [done |].
        by destruct (Hfirst 0%nat); [lia |].
    + split.
      * intros H. destruct (list_index name names) as [i0|e]; simpl in H; [| done].
        injection H as <-. destruct (IH i0) as [[E1 E2] _]; [done |]. split; [done |].
        intros [|i'] Hi'; simpl; [congruence | apply E2; lia].
      * intros [Hi Hfirst]. destruct i as [|i]; simpl in Hi; [congruence |].
        assert (first_row names name i) as Hfr.
        { split; [done |]. intros i' Hi'. apply (Hfirst (S i')). lia. }
        apply IH in Hfr. by rewrite Hfr.
Qed.

Lemma list_index_present names name :
  name ∈ names -> exists i, list_index name names = Ok i.
Proof.
  induction names as [|y names IH]; intros Hin; [by apply elem_of_nil in Hin |].
  simpl. case_bool_decide as Hy; [by exists 0%nat |].
  apply elem_of_cons in Hin as [->|Hin]; [done |].
  destruct (IH Hin) as [i ->]. by exists (S i).
Qed.

Lemma list_index_absent names name :
  name ∉ names -> list_index name names = Raise ValueError.
Proof.
  induction names as [|y names IH]; simpl; [done |].
  intros Hn. apply not_elem_of_cons in Hn as [Hne Hn].
  rewrite bool_decide_eq_false_2 by congruence. by rewrite IH.
Qed.

Lemma well_formed_matrix s n w :
  well_formed s n w ->
  exists a, data s = Some a /\ shape a = [n; w] /\ matrix s = cells a /\
            length (matrix s) = n.
Proof.
  intros [(a & Hd & Hs & Hl & _) _]. exists a. unfold matrix. rewrite Hd. eauto.
Qed.

Lemma first_row_lt names name i : first_row names name i -> (i < length names)%nat.
Proof. intros [H _]. by apply lookup_lt_Some in H. Qed.

(** ** Counting and comparing floats *)

Lemma filter_notnan xs : filter (fun x => notnan x = true) xs = present xs.
Proof.
  unfold present. apply list_filter_iff. intros x. unfold notnan. by destruct (isnan x).
Qed.

Lemma filter_below v xs :
  length (filter (fun x => flt x v = true) (present xs)) = count_below v xs.
Proof.
  unfold count_below, present. rewrite list_filter_filter. f_equal.
  apply list_filter_iff. intros x. tauto.
Qed.

Lemma flt_nan_r x : flt x NaN = false.
Proof. by destruct x. Qed.

Lemma flt_notnan x y : flt x y = true -> isnan x = false /\ isnan y = false.
Proof. by destruct x, y. Qed.

Lemma flt_trans x y z : flt x y = true -> flt y z = true -> flt x z = true.
Proof.
  destruct x as [|a|p], y as [|b|q], z as [|c|r]; simpl; try done;
    repeat match goal with b : bool |- _ => destruct b end; simpl; try done.
  rewrite !bool_decide_eq_true. apply Qclt_trans.
Qed.

Lemma flt_fle x y : flt x y = true -> fle y x = false.
Proof.
  destruct x as [|a|p], y as [|b|q]; simpl; try done;
    repeat match goal with b : bool |- _ => destruct b end; simpl; try done.
  rewrite bool_decide_eq_true, bool_decide_eq_false. apply Qclt_not_le.
Qed.

Lemma count_below_nan xs : count_below NaN xs = 0%nat.
Proof.
  unfold count_below. induction xs as [|x xs IH]; [done |].
  rewrite filter_cons. case_decide as H; [| done].
  destruct H as [_ H]. by rewrite flt_nan_r in H.
Qed.

Lemma count_below_mono v1 v2 xs :
  flt v1 v2 = true -> (count_below v1 xs <= count_below v2 xs)%nat.
Proof.
  intros H. unfold count_below. induction xs as [|x xs IH]; [done |].
  rewrite !filter_cons. repeat case_decide; simpl; try lia.
  match goal with Hn : ~ _ |- _ => destruct Hn end.
  match goal with Hx : _ /\ _ |- _ => destruct Hx as [Hx Hlt] end.
  split; [done | by apply flt_trans with v1].
Qed.

Lemma count_below_le_present v xs : (count_below v xs <= length (present xs))%nat.
Proof. rewrite <- filter_below. apply length_filter. Qed.

Lemma count_below_minimum v xs :
  Forall (fun x => isnan x = true \/ fle v x = true) xs -> count_below v xs = 0%nat.
Proof.
  intros H. unfold count_below. induction H as [|x xs Hx _ IH]; [done |].
  rewrite filter_cons. case_decide as Hc; [| done].
  destruct Hc as [Hnan Hlt]. apply flt_fle in Hlt. destruct Hx; congruence.
Qed.

Lemma present_nonempty xs v :
  v ∈ xs -> isnan v = false -> (0 < length (present xs))%nat.
Proof.
  intros Hin Hv. assert (v ∈ present xs) as Hp.
  { unfold present. by apply list_elem_of_filter. }
  destruct (present xs); [by apply elem_of_nil in Hp | simpl; lia].
Qed.

Lemma Qc_of_nat_nonzero n : (0 < n)%nat -> Qc_of_Z (Z.of_nat n) <> 0%Qc.
Proof. intros H. rewrite <- Z2Qc_inj_0. intros E. apply Z2Qc_inj in E. lia. Qed.

Lemma percent_of_counts k n :
  (0 < n)%nat -> fmul (fdiv (of_nat k) (of_nat n)) (of_Z 100) = Fin (percent k n).
Proof.
  intros H. unfold of_nat, of_Z, fdiv, fmul, percent.
  rewrite bool_decide_eq_false_2 by by apply Qc_of_nat_nonzero.
  f_equal. field. by apply Qc_of_nat_nonzero.
Qed.

Lemma percent_zero n : (0 < n)%nat -> percent 0 n = 0%Qc.
Proof.
  intros H. unfold percent. change (Z.of_nat 0) with 0%Z. rewrite Z2Qc_inj_0.
  field. by apply Qc_of_nat_nonzero.
Qed.

Lemma percent_mono k1 k2 n : (k1 <= k2)%nat -> (percent k1 n <= percent k2 n)%Qc.
Proof.
  intros H. unfold percent, Qcdiv.
  destruct (Nat.eq_dec n 0%nat) as [->|Hn].
  - replace (/ Qc_of_Z (Z.of_nat 0))%Qc with 0%Qc by (by apply Qc_is_canon).
    rewrite !Qcmult_0_r. apply Qcle_refl.
  - apply Qcmult_le_compat_r.
    + rewrite !(Qcmult_comm (Qc_of_Z 100)). apply Qcmult_le_compat_r.
      * apply (proj1 (Z2Qc_inj_le _ _)). lia.
      * rewrite <- Z2Qc_inj_0. apply (proj1 (Z2Qc_inj_le _ _)). lia.
    + apply Qclt_le_weak, Qcinv_pos. rewrite <- Z2Qc_inj_0.
      apply (proj1 (Z2Qc_inj_lt _ _)). lia.
Qed.

(** ** [calculate_percentile_rank] *)

Lemma cell_in_column s i j : (i < length (matrix s))%nat -> cell s i j ∈ column s j.
Proof.
  intros Hi. unfold cell, column.
  destruct (lookup_lt_is_Some_2 _ _ Hi) as [r Hr].
  rewrite (nth_lookup_Some _ _ [] _ Hr).
  apply list_elem_of_fmap. exists r. split; [done |]. by apply list_elem_of_lookup_2 in Hr.
Qed.

(** What the method computes once the column and the row are found. *)
Lemma run_calculate_percentile_rank s n w name j country idx :
  well_formed s n w -> resolves s w name j ->
  first_row (country_names s) country idx ->
  run (calculate_percentile_rank country name) s =
  Ok (fmul (fdiv (of_nat (count_below (cell s idx j) (column s j)))
                 (of_nat (length (present (column s j)))))
           (of_Z 100)).
Proof.
  intros Hwf Hf Hrow.
  destruct (well_formed_matrix _ _ _ Hwf) as (a & Hd & Hs & Hm & Hl).
  destruct Hwf as (_ & Hnames & _).
  pose proof (first_row_lt _ _ _ Hrow) as Hidx.
  apply list_index_first in Hrow.
  destruct (run_resolved _ _ _ _ Hf) as (c & Hc & Hj).
  assert (idx < length (cells a))%nat as Hi by (rewrite <- Hm; lia).
  unfold calculate_percentile_rank.
  rewrite run_bind, Hc by auto with readonly. simpl.
  rewrite run_bind, run_gets by auto with readonly. simpl.
  rewrite run_bind, run_lift, Hrow by auto with readonly. simpl.
  rewrite run_bind, run_get_data, Hd by auto with readonly. simpl.
  rewrite run_bind, run_lift by auto with readonly.
  rewrite (arr_item_resolved a n w _ _ j) by done. simpl.
  rewrite run_bind, run_lift by auto with readonly.
  rewrite (arr_col_resolved a n w _ j) by done. simpl.
  rewrite run_ret, filter_notnan, filter_below.
  unfold cell, column. by rewrite Hm.
Qed.

Lemma run_percentile_rank_present s n w name j country idx :
  well_formed s n w -> feature s w name j ->
  first_row (country_names s) country idx ->
  isnan (cell s idx j) = false ->
  run (calculate_percentile_rank country name) s =
    Ok (Fin (percent (count_below (cell s idx j) (column s j))
                     (length (present (column s j))))).
Proof.
  intros Hwf Hf Hrow Hv.
  rewrite (run_calculate_percentile_rank _ _ _ _ _ _ _ Hwf (feature_resolves _ _ _ _ Hf) Hrow).
  rewrite percent_of_counts; [done |].
  apply present_nonempty with (cell s idx j); [| done].
  apply cell_in_column. destruct (well_formed_matrix _ _ _ Hwf) as (a & _ & _ & _ & Hl).
  destruct Hwf as (_ & Hnames & _). apply first_row_lt in Hrow. lia.
Qed.

Lemma present_of_value s n w j idx :
  well_formed s n w -> (idx < n)%nat -> isnan (cell s idx j) = false ->
  (0 < length (present (column s j)))%nat.
Proof.
  intros Hwf Hidx Hv. apply present_nonempty with (cell s idx j); [| done].
  apply cell_in_column. destruct (well_formed_matrix _ _ _ Hwf) as (a & _ & _ & _ & Hl). lia.
Qed.

(** C4: for an entity whose value [v] for the feature is not MISSING,
    [calculate_percentile_rank] returns [(k / N) * 100], the quotient and
    the product being those of float64, where [k] counts the non-missing
    values of the feature strictly less than [v] and [N], which is at least
    one, counts the non-missing values; a value no other value is below (so
    also one tied for the minimum) gets rank 0; and a name that is in no row
    makes the call fail with [ValueError], the entity-not-found error of
    [list.index]. *)
Theorem percentile_rank_counts_strictly_smaller s n w name j country :
  well_formed s n w -> feature s w name j ->
  (forall idx,
     first_row (country_names s) country idx ->
     isnan (cell s idx j) = false ->
     (0 < length (present (column s j)))%nat /\
     run (calculate_percentile_rank country name) s =
       Ok (fmul (fdiv (of_nat (count_below (cell s idx j) (column s j)))
                      (of_nat (length (present (column s j)))))
                (of_Z 100)) /\
     (Forall (fun x => isnan x = true \/ fle (cell s idx j) x = true) (column s j) ->
      run (calculate_percentile_rank country name) s = Ok (Fin 0%Qc))) /\
  (country ∉ country_names s ->
   run (calculate_percentile_rank country name) s = Raise ValueError).
Proof.
  intros Hwf Hf. split.
  - intros idx Hrow Hv.
    assert (0 < length (present (column s j)))%nat as Hpos.
    { apply (present_of_value s n w j idx); [done | | done].
      destruct Hwf as (_ & Hnames & _). apply first_row_lt in Hrow. lia. }
    split; [done |].
    rewrite (run_calculate_percentile_rank _ _ _ _ _ _ _ Hwf (feature_resolves _ _ _ _ Hf) Hrow).
    split; [done |].
    intros Hmin. by rewrite (count_below_minimum _ _ Hmin), percent_of_counts, percent_zero.
  - intros Habsent. unfold calculate_percentile_rank.
    destruct (run_resolved _ _ _ _ (feature_resolves _ _ _ _ Hf)) as (c & Hc & _).
    rewrite run_bind, Hc by auto with readonly. simpl.
    rewrite run_bind, run_gets by auto with readonly. simpl.
    rewrite run_bind, run_lift by auto with readonly.
    by rewrite list_index_absent.
Qed.

(** C3 (amended): for an entity whose value for the feature is MISSING,
    [calculate_percentile_rank] returns [0.0] as soon as one value of the
    feature is not MISSING, because no value compares below NaN; it returns
    NaN only when every value of the feature is MISSING. *)
Theorem percentile_rank_of_missing_value s n w name j country idx :
  well_formed s n w -> feature s w name j ->
  first_row (country_names s) country idx ->
  isnan (cell s idx j) = true ->
  run (calculate_percentile_rank country name) s =
    Ok (if decide (present (column s j) = []) then NaN else Fin 0%Qc).
Proof.
  intros Hwf Hf Hrow Hv.
  rewrite (run_calculate_percentile_rank _ _ _ _ _ _ _ Hwf (feature_resolves _ _ _ _ Hf) Hrow).
  destruct (cell s idx j); try done. rewrite count_below_nan.
  destruct (present (column s j)) as [|x xs] eqn:E.
  - by rewrite decide_True.
  - rewrite decide_False by done. rewrite percent_of_counts by (simpl; lia).
    rewrite percent_zero by (simpl; lia). done.
Qed.

(** C8: [calculate_percentile_rank] is monotonic in the entity's value: if
    the values [v1 < v2] of two entities for a feature are not MISSING, the
    rank of the first is at most the rank of the second. *)
Theorem percentile_rank_monotonic s n w name j country1 country2 idx1 idx2 :
  well_formed s n w -> feature s w name j ->
  first_row (country_names s) country1 idx1 ->
  first_row (country_names s) country2 idx2 ->
  flt (cell s idx1 j) (cell s idx2 j) = true ->
  exists r1 r2,
    run (calculate_percentile_rank country1 name) s = Ok r1 /\
    run (calculate_percentile_rank country2 name) s = Ok r2 /\
    fle r1 r2 = true.
Proof.
  intros Hwf Hf Hrow1 Hrow2 Hlt.
  destruct (flt_notnan _ _ Hlt) as [Hv1 Hv2].
  pose proof (run_percentile_rank_present _ _ _ _ _ _ _ Hwf Hf Hrow1 Hv1) as E1.
  pose proof (run_percentile_rank_present _ _ _ _ _ _ _ Hwf Hf Hrow2 Hv2) as E2.
  eexists _, _. split; [exact E1 |]. split; [exact E2 |].
  simpl. apply bool_decide_eq_true. by apply percent_mono, count_below_mono.
Qed.

(** ** [get_basic_statistics] *)

Lemma run_get_basic_statistics sqrt64 s n w name j :
  well_formed s n w -> resolves s w name j ->
  run (get_basic_statistics sqrt64 name) s = statistics_of sqrt64 (column s j).
Proof.
  intros Hwf Hf.
  destruct (well_formed_matrix _ _ _ Hwf) as (a & Hd & Hs & Hm & Hl).
  destruct (run_resolved _ _ _ _ Hf) as (c & Hc & Hj).
  unfold get_basic_statistics, statistics_of.
  rewrite run_bind, Hc by auto with readonly. simpl.
  rewrite run_bind, run_get_data, Hd by auto with readonly. simpl.
  rewrite run_bind, run_lift by auto with readonly.
  rewrite (arr_col_resolved a n w _ j) by done. simpl.
  rewrite filter_notnan. unfold column. rewrite Hm.
  rewrite run_bind, run_lift by auto with readonly.
  destruct (np_min _); simpl; [| done].
  rewrite run_bind, run_lift by auto with readonly.
  by destruct (np_max _).
Qed.

(** C1: on a feature column in which every cell is MISSING,
    [get_basic_statistics] does not return: [np.min] refuses the empty
    array of remaining values and the call raises [ValueError], although
    the mean, the median and the standard deviation of that array are
    NaN. *)
Theorem basic_statistics_of_missing_column_raises sqrt64 s n w name j :
  well_formed s n w -> feature s w name j ->
  Forall (fun x => isnan x = true) (column s j) ->
  run (get_basic_statistics sqrt64 name) s = Raise ValueError /\
  isnan (np_mean (present (column s j))) = true /\
  isnan (np_median (present (column s j))) = true /\
  isnan (np_std sqrt64 (present (column s j))) = true.
Proof.
  intros Hwf Hf Hall.
  rewrite (run_get_basic_statistics _ _ _ _ _ _ Hwf (feature_resolves _ _ _ _ Hf)).
  unfold statistics_of. cbv zeta.
  assert (present (column s j) = []) as ->.
  { unfold present. induction Hall as [|x xs Hx _ IH]; [done |].
    rewrite filter_cons, decide_False by congruence. done. }
  repeat split; by vm_compute.
Qed.

(** ** [load_data] *)

Section Loader.

Variable py_float : string -> option float64.

Lemma foldM_load_row body : forall rows s,
  foldM (load_row py_float) rows body s =
  (Ok (rows ++ numeric_rows py_float body), loaded_names body s).
Proof.
  unfold numeric_rows, loaded_names, admitted.
  induction body as [|row body IH]; intros rows s.
  - simpl. rewrite !app_nil_r. by destruct s.
  - rewrite filter_cons. cbn [foldM]. unfold bind at 1.
    destruct row as [|c [|r [|v vs]]];
      try (rewrite decide_False by (simpl; lia); cbn [load_row ret]; by rewrite IH).
    rewrite decide_True by (simpl; lia). cbn [load_row]. unfold bind, modify, ret.
    rewrite IH. simpl. by rewrite <- !app_assoc.
Qed.

Lemma foldM_set_column (l : list (nat * string)) : forall s,
  foldM (fun _ '(i, header) => modify (set_column header i)) tt l s =
  (Ok tt, mk_analyzer (csv_file s) (data s) (headers s) (country_names s)
            (regional_indicators s)
            (foldl (fun m p => <[snd p := fst p]> m) (column_map s) l)).
Proof.
  induction l as [|[i h] l IH]; intros s; simpl.
  - by destruct s.
  - unfold bind at 1. simpl. by rewrite IH.
Qed.

(** What the constructor returns, read off [load_data]. *)
Lemma new_unfold csv header body :
  new py_float csv (header :: body) =
  a ← np_array (numeric_rows py_float body);
  _ ← py_index (shape a) 1;
  Ok (set_data a (loaded_names body (indexed header (set_headers header (blank csv))))).
Proof.
  unfold new, load_data.
  unfold bind at 1. simpl.
  unfold bind at 1. rewrite foldM_set_column. simpl.
  unfold bind at 1. rewrite foldM_load_row. simpl.
  unfold bind at 1. unfold lift at 1.
  destruct (np_array (numeric_rows py_float body)) as [a|e]; simpl; [| done].
  unfold bind at 1. simpl. unfold bind at 1. unfold lift at 1.
  by destruct (py_index (shape a) 1).
Qed.

Lemma np_array_shape rows a :
  np_array rows = Ok a ->
  cells a = rows /\
  (rows = [] /\ shape a = [0%nat] \/
   exists w, shape a = [length rows; w] /\ (0 < length rows)%nat /\
             Forall (fun r => length r = w) rows).
Proof.
  unfold np_array. destruct rows as [|r rows]; [intros [= <-]; auto |].
  destruct (forallb _ _) eqn:E; [| done]. intros [= <-]. split; [done |]. right.
  exists (length r). split; [done |]. split; [simpl; lia |].
  rewrite forallb_forall in E. apply List.Forall_forall. intros r' Hr'.
  by apply Nat.eqb_eq, E.
Qed.

Lemma length_admitted_row body w :
  Forall (fun r => length r = w) (numeric_rows py_float body) ->
  Forall (fun row => (2 < length row)%nat -> length row = (w + 2)%nat) body.
Proof.
  unfold numeric_rows, admitted. intros H. apply list.Forall_forall. intros row Hin Hlen.
  rewrite Forall_fmap in H. rewrite list.Forall_forall in H.
  specialize (H row). simpl in H. rewrite length_fmap, length_drop in H.
  rewrite <- H; [lia |]. by apply list_elem_of_filter.
Qed.

(** C6 (amended): a dataset the loader accepts has one entity name and one
    category label per matrix row, and at least one row; its matrix has as
    many columns as each admitted data row has fields after the first two.
    That number is the number of feature names when the admitted rows are
    as long as the header; the loader does not compare the two. *)
Theorem loaded_dataset_shape csv reader s :
  new py_float csv reader = Ok s ->
  exists header body n w,
    reader = header :: body /\ headers s = header /\
    well_formed s n w /\ (0 < n)%nat /\
    n = length (admitted body) /\
    Forall (fun row => (2 < length row)%nat -> length row = (w + 2)%nat) body /\
    (Forall (fun row => (2 < length row)%nat -> length row = length header) body ->
     length (feature_names s) = w).
Proof.
  destruct reader as [|header body]; [done |]. rewrite new_unfold.
  destruct (np_array (numeric_rows py_float body)) as [a|e] eqn:Ha; simpl; [| done].
  destruct (py_index (shape a) 1) as [w0|e] eqn:Hw; simpl; [| done].
  intros [= <-]. apply np_array_shape in Ha as [Hc [[_ Hs]|(w & Hs & Hn & Hrows)]].
  { by rewrite Hs in Hw. }
  assert (length (numeric_rows py_float body) = length (admitted body)) as Hlen.
  { unfold numeric_rows. by rewrite length_fmap. }
  exists header, body, (length (admitted body)), w.
  repeat split; simpl; try done.
  - exists a. rewrite Hs, Hc, Hlen. done.
  - by rewrite length_fmap.
  - by rewrite length_fmap.
  - lia.
  - by apply length_admitted_row.
  - intros Hhead. unfold feature_names. simpl. rewrite length_drop.
    apply length_admitted_row in Hrows.
    destruct (admitted body) as [|row rest] eqn:E; [simpl in *; lia |].
    assert (row ∈ admitted body) as Hin by (rewrite E; left).
    apply list_elem_of_filter in Hin as [Hrow Hin].
    rewrite list.Forall_forall in Hhead, Hrows.
    specialize (Hhead row Hin Hrow). specialize (Hrows row Hin Hrow). lia.
Qed.

End Loader.

(** ** [get_top_countries] and [get_bottom_countries] *)

Lemma mask_select_values (names : list string) : forall xs : list float64,
  length names = length xs ->
  snd <$> filter (fun p : bool * float64 => fst p = true) (zip (notnan <$> xs) xs)
    = snd <$> valid_pairs names xs.
Proof.
  unfold valid_pairs. induction names as [|c names IH]; intros [|x xs] Hlen;
    simpl in Hlen; try done.
  cbn [fmap list_fmap zip zip_with]. rewrite !filter_cons. cbn [fst snd].
  injection Hlen as Hlen. specialize (IH xs Hlen).
  destruct x; simpl; [exact IH | f_equal; exact IH ..].
Qed.

Lemma mask_select_names : forall (names : list string) (xs : list float64),
  length names = length xs ->
  snd <$> filter (fun p : bool * string => fst p = true) (zip (notnan <$> xs) names)
    = fst <$> valid_pairs names xs.
Proof.
  unfold valid_pairs. induction names as [|c names IH]; intros [|x xs] Hlen;
    simpl in Hlen; try done.
  cbn [fmap list_fmap zip zip_with]. rewrite !filter_cons. cbn [fst snd].
  injection Hlen as Hlen. specialize (IH xs Hlen).
  destruct x; simpl; [exact IH | f_equal; exact IH ..].
Qed.

Lemma mask_select_ok {A} (mask : list bool) (xs : list A) :
  length mask = length xs ->
  mask_select mask xs = Ok (snd <$> filter (fun p => fst p = true) (zip mask xs)).
Proof. intros H. unfold mask_select. by rewrite bool_decide_eq_true_2. Qed.

Lemma length_column s n w j : well_formed s n w -> length (column s j) = n.
Proof.
  intros Hwf. destruct (well_formed_matrix _ _ _ Hwf) as (a & _ & _ & _ & Hl).
  unfold column. by rewrite length_fmap.
Qed.

Lemma run_valid_rows s n w name j :
  well_formed s n w -> resolves s w name j ->
  run (valid_rows name) s =
  Ok (fst <$> valid_pairs (country_names s) (column s j),
      snd <$> valid_pairs (country_names s) (column s j)).
Proof.
  intros Hwf Hf.
  pose proof (length_column s n w j Hwf) as Hlen.
  destruct (well_formed_matrix _ _ _ Hwf) as (a & Hd & Hs & Hm & Hl).
  destruct Hwf as (_ & Hnames & _).
  destruct (run_resolved _ _ _ _ Hf) as (c & Hc & Hj).
  unfold valid_rows.
  rewrite run_bind, Hc by auto with readonly. simpl.
  rewrite run_bind, run_get_data, Hd by auto with readonly. simpl.
  rewrite run_bind, run_lift by auto with readonly.
  rewrite (arr_col_resolved a n w _ j) by done. simpl.
  rewrite <- Hm. fold (column s j).
  rewrite run_bind, run_lift by auto with readonly.
  rewrite mask_select_ok by by rewrite length_fmap. simpl.
  rewrite run_bind, run_gets by auto with readonly. simpl.
  rewrite run_bind, run_lift by auto with readonly.
  rewrite mask_select_ok by (rewrite length_fmap; lia). simpl.
  rewrite run_ret. f_equal. f_equal.
  - apply mask_select_names. lia.
  - apply mask_select_values. lia.
Qed.

Lemma py_index_pair (valid : list (string * float64)) (i : nat) :
  (c ← py_index (fst <$> valid) i; v ← py_index (snd <$> valid) i; Ok (c, v))
  = py_index valid i.
Proof.
  unfold py_index. rewrite !list_lookup_fmap. by destruct (valid !! i) as [[c v]|].
Qed.

Lemma pick_pairs (valid : list (string * float64)) (idxs : list nat) :
  pick (fst <$> valid) (snd <$> valid) idxs = mapR (py_index valid) idxs.
Proof.
  unfold pick. induction idxs as [|i idxs IH]; [done |].
  cbn [mapR]. by rewrite IH, py_index_pair.
Qed.

Lemma run_get_bottom_countries argsort s n w name j k :
  well_formed s n w -> resolves s w name j ->
  run (get_bottom_countries argsort name k) s =
  bottom_of argsort (country_names s) (column s j) k.
Proof.
  intros Hwf Hf. unfold get_bottom_countries, bottom_of.
  rewrite run_bind, (run_valid_rows _ _ _ _ _ Hwf Hf) by auto with readonly. simpl.
  by rewrite run_lift, pick_pairs.
Qed.

Lemma run_get_top_countries argsort s n w name j k :
  well_formed s n w -> resolves s w name j ->
  run (get_top_countries argsort name k) s =
  top_of argsort (country_names s) (column s j) k.
Proof.
  intros Hwf Hf. unfold get_top_countries, top_of.
  rewrite run_bind, (run_valid_rows _ _ _ _ _ Hwf Hf) by auto with readonly. simpl.
  by rewrite run_lift, pick_pairs.
Qed.

Lemma mapR_py_index {A} (l : list A) (d : A) (idxs : list nat) :
  Forall (fun i => (i < length l)%nat) idxs ->
  mapR (py_index l) idxs = Ok ((fun i => nth i l d) <$> idxs).
Proof.
  induction 1 as [|i idxs Hi _ IH]; [done |]. cbn [mapR]. rewrite IH.
  unfold py_index. destruct (lookup_lt_is_Some_2 l i Hi) as [x Hx]. rewrite Hx. simpl.
  by rewrite (nth_lookup_Some _ _ d _ Hx).
Qed.

Lemma fmap_nth_seq {A} (l : list A) (d : A) :
  (fun i => nth i l d) <$> seq 0 (length l) = l.
Proof.
  apply list_eq. intros i. rewrite list_lookup_fmap.
  destruct (decide (i < length l)%nat) as [Hi|Hi].
  - rewrite lookup_seq_lt by done. simpl.
    destruct (lookup_lt_is_Some_2 l i Hi) as [x Hx]. by rewrite Hx, (nth_lookup_Some _ _ d _ Hx).
  - rewrite lookup_seq_ge by lia. simpl. symmetry. apply lookup_ge_None. lia.
Qed.

Lemma valid_pairs_notnan names xs :
  Forall (fun x => isnan x = false) (snd <$> valid_pairs names xs).
Proof.
  apply Forall_fmap, list.Forall_forall. intros p Hp.
  unfold valid_pairs in Hp. by apply list_elem_of_filter in Hp as [Hp _].
Qed.

Lemma ascending_take l k : ascending l -> ascending (take k l).
Proof.
  intros H i i' p q Hlt Hp Hq.
  apply lookup_take_Some in Hp as [Hp _]. apply lookup_take_Some in Hq as [Hq _]. eauto.
Qed.

Lemma descending_take l k : descending l -> descending (take k l).
Proof.
  intros H i i' p q Hlt Hp Hq.
  apply lookup_take_Some in Hp as [Hp _]. apply lookup_take_Some in Hq as [Hq _]. eauto.
Qed.

Lemma ascending_reverse l : ascending l -> descending (reverse l).
Proof.
  intros H i i' p q Hlt Hp Hq.
  apply reverse_lookup_Some in Hp as [Hp Hi]. apply reverse_lookup_Some in Hq as [Hq Hi'].
  apply (H (length l - S i') (length l - S i))%nat; [lia | done | done].
Qed.

Section Ranking.

Variable argsort : list float64 -> list nat.
Hypothesis argsort_ok : argsort_contract argsort.

Lemma argsort_in_range names xs :
  Forall (fun i => (i < length (valid_pairs names xs))%nat)
    (argsort (snd <$> valid_pairs names xs)).
Proof.
  destruct (argsort_ok _ (valid_pairs_notnan names xs)) as [Hperm _].
  apply list.Forall_forall. intros i Hi. rewrite Hperm in Hi.
  apply elem_of_seq in Hi. rewrite length_fmap in Hi. lia.
Qed.

Lemma ranked_permutation names xs : ranked argsort names xs ≡ₚ valid_pairs names xs.
Proof.
  destruct (argsort_ok _ (valid_pairs_notnan names xs)) as [Hperm _].
  unfold ranked. rewrite Hperm, length_fmap. by rewrite fmap_nth_seq.
Qed.

Lemma ranked_ascending names xs : ascending (ranked argsort names xs).
Proof.
  destruct (argsort_ok _ (valid_pairs_notnan names xs)) as [_ Hsorted].
  pose proof (argsort_in_range names xs) as Hrange.
  rewrite list.Forall_forall in Hrange.
  intros i i' p q Hlt Hp Hq. unfold ranked in Hp, Hq.
  apply list_lookup_fmap_Some in Hp as (a & -> & Ha).
  apply list_lookup_fmap_Some in Hq as (b & -> & Hb).
  specialize (Hsorted i i' a b Hlt Ha Hb).
  assert (forall c, c ∈ argsort (snd <$> valid_pairs names xs) ->
            nth c (snd <$> valid_pairs names xs) NaN
            = snd (nth c (valid_pairs names xs) ("", NaN))) as Hnth.
  { intros c Hc. apply Hrange in Hc.
    destruct (lookup_lt_is_Some_2 _ _ Hc) as [pr Hpr].
    rewrite (nth_lookup_Some _ _ _ _ Hpr).
    apply nth_lookup_Some. by rewrite list_lookup_fmap, Hpr. }
  rewrite <- !Hnth; [done | |]; by eapply list_elem_of_lookup_2.
Qed.

Lemma bottom_of_ranked names xs k :
  0 <= k -> bottom_of argsort names xs k = Ok (take (Z.to_nat k) (ranked argsort names xs)).
Proof.
  intros Hk. unfold bottom_of, py_take, ranked. cbv zeta.
  rewrite bool_decide_eq_false_2 by lia.
  rewrite (mapR_py_index _ ("", NaN)).
  - by rewrite fmap_take.
  - apply Forall_take, argsort_in_range.
Qed.

Lemma top_of_ranked names xs k :
  0 <= k -> top_of argsort names xs k = Ok (take (Z.to_nat k) (reverse (ranked argsort names xs))).
Proof.
  intros Hk. unfold top_of, py_take, ranked. cbv zeta.
  rewrite bool_decide_eq_false_2 by lia.
  rewrite (mapR_py_index _ ("", NaN)).
  - by rewrite fmap_take, fmap_reverse.
  - apply Forall_take, Forall_reverse, argsort_in_range.
Qed.

(** C2 (amended): for a known feature, [get_bottom_countries] and
    [get_top_countries] leave out the rows whose value is MISSING, order the
    remaining (country, value) pairs by value, ascending for the bottom and
    descending for the top, and return the first [k] of them, or all of them
    when there are fewer.  Equal values come in the order [np.argsort] gives
    them, which its default kind does not promise to be the row order, and
    the top list runs through that one order backwards: among equal values
    the two lists are never both in row order. *)
Theorem top_and_bottom_countries s n w name j k :
  well_formed s n w -> feature s w name j -> 0 <= k ->
  exists ranking : list (string * float64),
    ranking ≡ₚ valid_pairs (country_names s) (column s j) /\
    ascending ranking /\
    descending (reverse ranking) /\
    run (get_bottom_countries argsort name k) s = Ok (take (Z.to_nat k) ranking) /\
    run (get_top_countries argsort name k) s = Ok (take (Z.to_nat k) (reverse ranking)).
Proof.
  intros Hwf Hf Hk. apply feature_resolves in Hf.
  exists (ranked argsort (country_names s) (column s j)).
  split; [apply ranked_permutation |].
  split; [apply ranked_ascending |].
  split; [apply ascending_reverse, ranked_ascending |].
  rewrite (run_get_bottom_countries _ _ _ _ _ _ _ Hwf Hf).
  rewrite (run_get_top_countries _ _ _ _ _ _ _ Hwf Hf).
  by rewrite bottom_of_ranked, top_of_ranked.
Qed.

End Ranking.

(** ** The stable insertion sort meets the contract of [np.argsort] *)

Lemma flt_asym x y : flt x y = true -> flt y x = false.
Proof.
  intros H. destruct (flt y x) eqn:E; [| done].
  pose proof (flt_trans _ _ _ H E) as Hxx.
  destruct x as [|a|p]; simpl in Hxx; try done; [by destruct a |].
  apply bool_decide_eq_true in Hxx. by apply Qclt_not_eq in Hxx.
Qed.

Lemma insert_index_permutation xs i l : insert_index xs i l ≡ₚ i :: l.
Proof.
  induction l as [|j l IH]; simpl; [done |].
  destruct (flt _ _); [done |]. rewrite IH. apply Permutation_swap.
Qed.

Lemma insert_index_sorted xs i l :
  StronglySorted (key_le xs) l -> StronglySorted (key_le xs) (insert_index xs i l).
Proof.
  induction l as [|j l IH]; simpl; intros Hs.
  - repeat constructor.
  - apply StronglySorted_inv in Hs as [Hl Hj].
    destruct (flt (nth i xs NaN) (nth j xs NaN)) eqn:E.
    + constructor; [by constructor |]. constructor.
      * by apply flt_asym.
      * eapply Forall_impl; [exact Hj |]. intros x Hx. unfold key_le in *.
        destruct (flt (nth x xs NaN) (nth i xs NaN)) eqn:Ex; [| done].
        by rewrite (flt_trans _ _ _ Ex E) in Hx.
    + constructor; [by apply IH |].
      rewrite insert_index_permutation. by constructor.
Qed.

Lemma StronglySorted_lookup {A} (R : A -> A -> Prop) (l : list A) :
  StronglySorted R l ->
  forall i j a b, (i < j)%nat -> l !! i = Some a -> l !! j = Some b -> R a b.
Proof.
  induction 1 as [|x l Hl IH Hx]; intros i j a b Hlt Ha Hb; [done |].
  destruct j as [|j]; [lia |]. simpl in Hb. destruct i as [|i]; simpl in Ha.
  - injection Ha as <-. rewrite list.Forall_forall in Hx. apply Hx.
    by eapply list_elem_of_lookup_2.
  - apply (IH i j); [lia | done | done].
Qed.

Lemma stable_argsort_fold xs (idxs acc : list nat) :
  StronglySorted (key_le xs) acc ->
  foldl (fun acc i => insert_index xs i acc) acc idxs ≡ₚ acc ++ idxs /\
  StronglySorted (key_le xs) (foldl (fun acc i => insert_index xs i acc) acc idxs).
Proof.
  revert acc. induction idxs as [|i idxs IH]; intros acc Hacc; simpl.
  - by rewrite app_nil_r.
  - destruct (IH (insert_index xs i acc) (insert_index_sorted xs i acc Hacc)) as [Hp Hs].
    split; [| done]. rewrite Hp, insert_index_permutation.
    by rewrite (Permutation_middle acc idxs i).
Qed.

Lemma stable_argsort_contract : argsort_contract stable_argsort.
Proof.
  intros xs _. unfold stable_argsort.
  destruct (stable_argsort_fold xs (seq 0 (length xs)) []) as [Hp Hs]; [constructor |].
  split; [done |]. intros i j a b Hlt Ha Hb.
  exact (StronglySorted_lookup _ _ Hs i j a b Hlt Ha Hb).
Qed.

(** ** Columns of finite values *)

Lemma finite_list xs :
  Forall (fun x => exists q, x = Fin q) xs -> exists qs, xs = Fin <$> qs.
Proof.
  induction 1 as [|x xs [q ->] _ [qs ->]]; [by exists [] | by exists (q :: qs)].
Qed.

(** ** [get_correlation_matrix] on one feature *)

Lemma dot_centred xs avg :
  dot ((fun v => fsub v avg) <$> xs) ((fun v => fsub v avg) <$> xs)
  = fsum ((fun x => fmul (fsub x avg) (fsub x avg)) <$> xs).
Proof.
  unfold dot. f_equal. induction xs as [|x xs IH]; [done |].
  cbn [fmap list_fmap zip_with]. f_equal. exact IH.
Qed.

Lemma np_corrcoef_single sqrt64 xs :
  np_corrcoef sqrt64 (mk_ndarray [1%nat; length xs] [xs])
  = Scalar (fdiv (sample_variance xs) (sample_variance xs)).
Proof.
  unfold np_corrcoef, np_cov. simpl. by rewrite dot_centred.
Qed.

Lemma single_column_complete (rows : list (list float64)) j :
  (fun r => nth 0 r NaN) <$>
    filter (fun r => forallb notnan r = true) ((fun r => [nth j r NaN]) <$> rows)
  = present ((fun r => nth j r NaN) <$> rows).
Proof.
  unfold present. induction rows as [|r rows IH]; [done |].
  cbn [fmap list_fmap]. rewrite !filter_cons. simpl.
  destruct (nth j r NaN); simpl; [exact IH | f_equal; exact IH ..].
Qed.

Lemma run_get_correlation_matrix_single sqrt64 s n w name j :
  well_formed s n w -> resolves s w name j ->
  run (get_correlation_matrix sqrt64 [name]) s =
  Ok (Scalar (fdiv (sample_variance (present (column s j)))
                   (sample_variance (present (column s j))))).
Proof.
  intros Hwf Hf.
  destruct (well_formed_matrix _ _ _ Hwf) as (a & Hd & Hs & Hm & Hl).
  destruct (run_resolved _ _ _ _ Hf) as (c & Hc & Hj).
  unfold get_correlation_matrix. cbn [foldM].
  rewrite run_bind by solve_readonly.
  rewrite run_bind by solve_readonly.
  rewrite run_bind, Hc by solve_readonly. simpl.
  rewrite run_bind, run_get_data, Hd by solve_readonly. simpl.
  rewrite run_bind, run_lift by solve_readonly.
  unfold arr_cols. rewrite Hs. simpl. rewrite Hj. simpl.
  rewrite run_ret. f_equal.
  unfold drop_nan_rows, transpose. simpl.
  rewrite single_column_complete. unfold column. rewrite Hm.
  rewrite <- (np_corrcoef_single sqrt64). do 3 f_equal.
  by rewrite <- single_column_complete, length_fmap.
Qed.

(** With fewer than two observations the sample variance is [0 * inf]. *)
Lemma deviation_of_single x :
  isnan x = false -> fsub x (np_mean [x]) = Fin 0%Qc \/ fsub x (np_mean [x]) = NaN.
Proof.
  destruct x as [|neg|q]; [done | right; destruct neg; by vm_compute | left].
  unfold np_mean, fsum, of_nat, of_Z, fsub. simpl foldl. simpl length.
  unfold fdiv. rewrite bool_decide_eq_false_2 by (apply (Qc_of_nat_nonzero 1); lia).
  unfold fopp, fadd. change (Z.of_nat 1) with 1%Z. rewrite Z2Qc_inj_1.
  apply (f_equal Fin). field. apply Q_apart_0_1.
Qed.

Lemma sample_variance_few xs :
  Forall (fun x => isnan x = false) xs -> (length xs <= 1)%nat -> sample_variance xs = NaN.
Proof.
  intros Hxs Hlen. unfold sample_variance.
  replace (length xs - 1)%nat with 0%nat by lia.
  change (fdiv (of_nat 1) (of_nat 0)) with (Inf false).
  destruct xs as [|x [|? ?]]; [by vm_compute | | simpl in Hlen; lia].
  apply Forall_cons in Hxs as [Hx _]. unfold sum_sq_dev, fsum. cbn [fmap list_fmap foldl].
  destruct (deviation_of_single x Hx) as [-> | ->]; by vm_compute.
Qed.

Lemma present_notnan xs : Forall (fun x => isnan x = false) (present xs).
Proof.
  apply list.Forall_forall. intros x Hx. unfold present in Hx.
  by apply list_elem_of_filter in Hx as [? _].
Qed.

(** C5 (amended): for one known feature, [get_correlation_matrix] returns
    the zero-dimensional result of [np.corrcoef], the quotient [c / c] of
    the sample variance [c] that [np.cov] computes from the non-missing
    values of the feature, and not a 1x1 matrix.  The quotient is [1.0]
    when [c] is finite and not zero, and NaN when [c] is zero, NaN or
    infinite; with fewer than two values [c] is [0 * inf], so the result is
    NaN. *)
Theorem correlation_of_single_feature sqrt64 s n w name j :
  well_formed s n w -> feature s w name j ->
  run (get_correlation_matrix sqrt64 [name]) s =
    Ok (Scalar (fdiv (sample_variance (present (column s j)))
                     (sample_variance (present (column s j))))) /\
  (forall q, sample_variance (present (column s j)) = Fin q -> q <> 0%Qc ->
     run (get_correlation_matrix sqrt64 [name]) s = Ok (Scalar (Fin 1%Qc))) /\
  (sample_variance (present (column s j)) = Fin 0%Qc \/
   sample_variance (present (column s j)) = NaN \/
   (exists neg, sample_variance (present (column s j)) = Inf neg) ->
     run (get_correlation_matrix sqrt64 [name]) s = Ok (Scalar NaN)) /\
  ((length (present (column s j)) <= 1)%nat ->
     sample_variance (present (column s j)) = NaN /\
     run (get_correlation_matrix sqrt64 [name]) s = Ok (Scalar NaN)).
Proof.
  intros Hwf Hf. apply feature_resolves in Hf.
  rewrite (run_get_correlation_matrix_single _ _ _ _ _ _ Hwf Hf).
  split; [done |]. split; [| split].
  - intros q -> Hq. unfold fdiv. rewrite bool_decide_eq_false_2 by done.
    do 3 f_equal. by field.
  - intros [-> | [-> | [neg ->]]]; [| done | done].
    unfold fdiv. by rewrite !bool_decide_eq_true_2.
  - intros Hfew. rewrite (sample_variance_few _ (present_notnan _) Hfew). done.
Qed.

(** ** [calculate_percentile_rank] and [find_outliers] on the column they read *)

Lemma run_percentile_of s n w name j country :
  well_formed s n w -> resolves s w name j ->
  run (calculate_percentile_rank country name) s =
  percentile_of (country_names s) (column s j) country.
Proof.
  intros Hwf Hf.
  destruct (well_formed_matrix _ _ _ Hwf) as (a & Hd & Hs & Hm & Hl).
  destruct Hwf as (_ & Hnames & _).
  destruct (run_resolved _ _ _ _ Hf) as (c & Hc & Hj).
  unfold calculate_percentile_rank, percentile_of.
  rewrite run_bind, Hc by auto with readonly. simpl.
  rewrite run_bind, run_gets by auto with readonly. simpl.
  rewrite run_bind, run_lift by auto with readonly.
  destruct (list_index country (country_names s)) as [idx|e] eqn:Hidx; simpl; [| done].
  apply list_index_first, first_row_lt in Hidx.
  assert (idx < length (cells a))%nat as Hi by (rewrite <- Hm; lia).
  rewrite run_bind, run_get_data, Hd by auto with readonly. simpl.
  rewrite run_bind, run_lift by auto with readonly.
  rewrite (arr_item_resolved a n w _ _ j) by done. simpl.
  rewrite run_bind, run_lift by auto with readonly.
  rewrite (arr_col_resolved a n w _ j) by done. simpl.
  rewrite run_ret, filter_notnan, filter_below.
  unfold column, py_index. rewrite Hm, list_lookup_fmap.
  destruct (lookup_lt_is_Some_2 _ _ Hi) as [r Hr]. rewrite Hr. simpl.
  by rewrite (nth_lookup_Some _ _ [] _ Hr).
Qed.

Lemma np_nanmean_present xs : np_nanmean xs = np_mean (present xs).
Proof. unfold np_nanmean. by rewrite filter_notnan. Qed.

Lemma np_nanstd_present sqrt64 xs : np_nanstd sqrt64 xs = np_std sqrt64 (present xs).
Proof. unfold np_nanstd. by rewrite filter_notnan. Qed.

Lemma run_find_outliers sqrt64 s n w name j threshold :
  well_formed s n w -> resolves s w name j ->
  run (find_outliers sqrt64 name threshold) s =
  outliers_of sqrt64 (country_names s) (column s j) threshold.
Proof.
  intros Hwf Hf.
  destruct (well_formed_matrix _ _ _ Hwf) as (a & Hd & Hs & Hm & Hl).
  destruct (run_resolved _ _ _ _ Hf) as (c & Hc & Hj).
  unfold find_outliers, outliers_of.
  rewrite run_bind, Hc by auto with readonly. simpl.
  rewrite run_bind, run_get_data, Hd by auto with readonly. simpl.
  rewrite run_bind, run_lift by auto with readonly.
  rewrite (arr_col_resolved a n w _ j) by done. simpl.
  rewrite run_bind, run_gets by auto with readonly. simpl.
  rewrite run_lift, np_nanmean_present, np_nanstd_present.
  unfold column. rewrite Hm. reflexivity.
Qed.

Lemma np_std_population sqrt64 xs : np_std sqrt64 xs = population_std sqrt64 xs.
Proof.
  unfold np_std, population_std, np_var, sum_sq_dev, sq_dev. by rewrite Nat.sub_0_r.
Qed.

(** The rows the comprehension of [find_outliers] keeps, read as a filter
    of the rows of the dataset. *)
Lemma outlier_rows (g : float64 -> float64) (threshold : float64) (names : list string) :
  forall (xs : list float64) (pn : list string) (px : list float64),
  length pn = length px -> length names = length xs ->
  mapR (fun i => c ← py_index (pn ++ names) i; v ← py_index (px ++ xs) i;
                 z ← py_index (g <$> px ++ xs) i; Ok (c, v, z))
    (filter (fun i => notnan (nth i (px ++ xs) NaN) = true)
       (fst <$> filter (fun p => fgt (snd p) threshold = true)
                  (imap (fun i z => ((length px + i)%nat, z)) (g <$> xs))))
  = Ok ((fun p => (fst p, snd p, g (snd p))) <$>
          filter (fun p => isnan (snd p) = false /\ fgt (g (snd p)) threshold = true)
            (zip names xs)).
Proof.
  induction names as [|c names IH]; intros [|x xs] pn px Hpre Hlen; simpl in Hlen; try done.
  injection Hlen as Hlen.
  cbn [fmap list_fmap imap zip zip_with]. rewrite !filter_cons. cbn [fst snd].
  assert (imap ((fun i z => ((length px + i)%nat, z)) ∘ S) (g <$> xs)
          = imap (fun i z => ((length (px ++ [x]) + i)%nat, z)) (g <$> xs)) as ->.
  { apply imap_ext. intros i z _. simpl. f_equal. rewrite length_app. simpl. lia. }
  specialize (IH xs (pn ++ [c]) (px ++ [x])).
  rewrite <- !app_assoc in IH. simpl in IH.
  assert (length (pn ++ [c]) = length (px ++ [x])) as Hpre' by (rewrite !length_app; simpl; lia).
  specialize (IH Hpre' Hlen). clear Hpre'.
  destruct (decide (fgt (g x) threshold = true)) as [Hgt|Hgt].
  - cbn [fmap list_fmap fst]. rewrite filter_cons.
    rewrite Nat.add_0_r, nth_middle.
    destruct (isnan x) eqn:Hx.
    + rewrite decide_False by (unfold notnan; by rewrite Hx).
      rewrite decide_False by (by intros [? _]).
      exact IH.
    + rewrite decide_True by (unfold notnan; by rewrite Hx).
      rewrite decide_True by done.
      cbn [mapR fmap list_fmap fst snd]. rewrite IH.
      unfold py_index. rewrite fmap_app. cbn [fmap list_fmap].
      rewrite !list_lookup_middle by (by rewrite ?length_fmap). done.
  - rewrite decide_False by (by intros [_ ?]). exact IH.
Qed.

Lemma outliers_of_rows sqrt64 names xs threshold :
  length names = length xs ->
  outliers_of sqrt64 names xs threshold =
  Ok ((fun p => (fst p, snd p, z_score sqrt64 xs (snd p))) <$>
        filter (fun p => isnan (snd p) = false /\
                         fgt (z_score sqrt64 xs (snd p)) threshold = true)
          (zip names xs)).
Proof.
  intros Hlen. unfold outliers_of. cbv zeta.
  by apply (outlier_rows (z_score sqrt64 xs) threshold names xs [] []).
Qed.

(** ** [filter_by_region] and [compare_regions] *)

Lemma rows_of_region {A} (region : string) (regions : list string) :
  forall (l pre : list A), length l = length regions ->
  mapR (py_index (pre ++ l))
    (fst <$> filter (fun p => snd p = region)
               (imap (fun i r => ((length pre + i)%nat, r)) regions))
  = Ok (snd <$> filter (fun p => fst p = region) (zip regions l)).
Proof.
  induction regions as [|r rs IH]; intros [|x l] pre Hlen; simpl in Hlen; try done.
  injection Hlen as Hlen.
  cbn [imap zip zip_with]. rewrite !filter_cons. cbn [fst snd].
  assert (imap ((fun i r0 => ((length pre + i)%nat, r0)) ∘ S) rs
          = imap (fun i r0 => ((length (pre ++ [x]) + i)%nat, r0)) rs) as ->.
  { apply imap_ext. intros i r0 _. simpl. f_equal. rewrite length_app. simpl. lia. }
  specialize (IH l (pre ++ [x]) Hlen). rewrite <- app_assoc in IH. simpl in IH.
  destruct (decide (r = region)) as [->|Hne].
  - cbn [fmap list_fmap mapR fst snd]. rewrite IH.
    unfold py_index at 1. rewrite Nat.add_0_r, list_lookup_middle by done. done.
  - exact IH.
Qed.

Lemma fmap_region_rows {A B} (f : A -> B) (region : string) (regions : list string) :
  forall l : list A,
  f <$> (snd <$> filter (fun p => fst p = region) (zip regions l))
  = snd <$> filter (fun p => fst p = region) (zip regions (f <$> l)).
Proof.
  induction regions as [|r rs IH]; intros [|x l]; try done.
  cbn [fmap list_fmap zip zip_with]. rewrite !filter_cons. cbn [fst snd].
  destruct (decide (r = region)); [| apply IH].
  cbn [fmap list_fmap snd]. f_equal. apply IH.
Qed.

Lemma rows_of_region_enumerate {A} (region : string) (regions : list string) (l : list A) :
  length l = length regions ->
  mapR (py_index l) (fst <$> filter (fun p => snd p = region) (enumerate regions))
  = Ok (snd <$> filter (fun p => fst p = region) (zip regions l)).
Proof.
  intros Hlen. unfold enumerate.
  rewrite (imap_ext pair (fun i r => ((length (@nil A) + i)%nat, r))) by done.
  by apply (rows_of_region region regions l []).
Qed.

Lemma region_rows_absent {A} (region : string) (regions : list string) (l : list A) :
  region ∉ regions -> filter (fun p => fst p = region) (zip regions l) = [].
Proof.
  revert l. induction regions as [|r rs IH]; intros l Hnot; [done |].
  destruct l as [|x l]; [done |]. cbn [zip zip_with]. rewrite filter_cons. cbn [fst].
  apply not_elem_of_cons in Hnot as [Hne Hnot].
  destruct (decide (r = region)); [done |]. by apply IH.
Qed.

Lemma region_rows_lookup {A} (region : string) (regions : list string) (l : list A) x :
  x ∈ snd <$> filter (fun p => fst p = region) (zip regions l)
  <-> exists i, regions !! i = Some region /\ l !! i = Some x.
Proof.
  rewrite list_elem_of_fmap. split.
  - intros ([r y] & -> & Hin). apply list_elem_of_filter in Hin as [Hr Hin]. simpl in Hr.
    subst r. apply list_elem_of_lookup in Hin as [i Hi].
    apply lookup_zip_with_Some in Hi as (a & b & [= <- <-] & Ha & Hb). eauto.
  - intros (i & Hr & Hx). exists (region, x). split; [done |].
    apply list_elem_of_filter. split; [done |]. apply list_elem_of_lookup. exists i.
    apply lookup_zip_with_Some. eauto.
Qed.

Lemma run_filter_by_region s n w region :
  well_formed s n w ->
  exists countries k,
    run (filter_by_region region) s =
    Ok (countries,
        mk_ndarray [k; w]
          (snd <$> filter (fun p => fst p = region) (zip (regional_indicators s) (matrix s)))).
Proof.
  intros Hwf.
  destruct (well_formed_matrix _ _ _ Hwf) as (a & Hd & Hs & Hm & Hl).
  destruct Hwf as (_ & Hnames & Hregions).
  eexists _, _.
  unfold filter_by_region.
  rewrite run_bind, run_gets by auto with readonly. simpl.
  rewrite run_bind, run_gets by auto with readonly. simpl.
  rewrite run_bind, run_lift by auto with readonly.
  rewrite rows_of_region_enumerate by lia. simpl.
  rewrite run_bind, run_get_data, Hd by auto with readonly. simpl.
  rewrite run_bind, run_lift by auto with readonly.
  unfold arr_rows. rewrite Hs.
  rewrite rows_of_region_enumerate by (rewrite <- Hm; lia). simpl.
  rewrite run_ret, Hm. reflexivity.
Qed.

Section Regions.

Variable sqrt64 : Qc -> Qc.

Lemma run_compare_region s n w c j results region :
  well_formed s n w -> norm_index w c = Ok j ->
  run (compare_region sqrt64 c results region) s =
  Ok (record_region sqrt64 (regional_indicators s) (column s j) results region).
Proof.
  intros Hwf Hj. destruct (run_filter_by_region s n w region Hwf) as (countries & k & Hrun).
  unfold compare_region.
  rewrite run_bind, Hrun by auto with readonly. simpl.
  rewrite run_bind, run_lift by auto with readonly.
  rewrite (arr_col_resolved _ k w _ j) by done. simpl.
  rewrite filter_notnan, fmap_region_rows.
  unfold record_region, region_values, region_statistics_of, column. cbv zeta.
  by destruct (bool_decide _).
Qed.

Lemma run_compare_fold s n w c j regions :
  well_formed s n w -> norm_index w c = Ok j -> forall results,
  run (foldM (compare_region sqrt64 c) results regions) s =
  Ok (foldl (record_region sqrt64 (regional_indicators s) (column s j)) results regions).
Proof.
  intros Hwf Hj. induction regions as [|region regions IH]; intros results; [done |].
  cbn [foldM foldl].
  rewrite run_bind, (run_compare_region _ _ _ _ _ _ _ Hwf Hj) by apply readonly_compare_region.
  simpl. by apply IH.
Qed.

Lemma run_compare_regions s n w name j :
  well_formed s n w -> resolves s w name j ->
  run (compare_regions sqrt64 name) s =
  Ok (regions_of sqrt64 (regional_indicators s) (column s j)).
Proof.
  intros Hwf Hf. destruct (run_resolved _ _ _ _ Hf) as (c & Hc & Hj).
  unfold compare_regions, regions_of.
  rewrite run_bind, Hc by auto with readonly. simpl.
  rewrite run_bind, run_gets by auto with readonly. simpl.
  by apply (run_compare_fold s n w).
Qed.

Lemma regions_of_lookup regions xs region (st : region_statistics) :
  regions_of sqrt64 regions xs !! region = Some st ->
  st = region_statistics_of sqrt64 (region_values regions xs region) /\
  (0 < region_count st)%nat.
Proof.
  unfold regions_of. generalize (elements (list_to_set regions : gset string)).
  intros l. revert st.
  assert (forall results : gmap string region_statistics,
            (forall st : region_statistics, results !! region = Some st ->
               st = region_statistics_of sqrt64 (region_values regions xs region) /\
               (0 < region_count st)%nat) ->
            forall st : region_statistics,
              foldl (record_region sqrt64 regions xs) results l !! region = Some st ->
               st = region_statistics_of sqrt64 (region_values regions xs region) /\
               (0 < region_count st)%nat) as H.
  { induction l as [|r l IH]; intros results Hres; [done |]. cbn [foldl].
    apply IH. intros st. unfold record_region. cbv zeta.
    case_bool_decide as Hpos; [| apply Hres].
    destruct (decide (r = region)) as [->|Hne].
    - rewrite lookup_insert_eq. by intros [= <-].
    - rewrite lookup_insert_ne by done. apply Hres. }
  apply H. intros st. by rewrite lookup_empty.
Qed.

Lemma record_fold_lookup regions xs region (l : list string) :
  forall results : gmap string region_statistics,
  foldl (record_region sqrt64 regions xs) results l !! region =
  if bool_decide (region ∈ l /\ region_values regions xs region <> [])
  then Some (region_statistics_of sqrt64 (region_values regions xs region))
  else results !! region.
Proof.
  induction l as [|r l IH]; intros results.
  - cbn [foldl]. rewrite bool_decide_eq_false_2; [done |]. intros [H _].
    by apply elem_of_nil in H.
  - cbn [foldl]. rewrite IH. clear IH. unfold record_region. cbv zeta.
    destruct (decide (region_values regions xs region = [])) as [Hnil|Hvals].
    { rewrite (bool_decide_eq_false_2 (region ∈ l /\ _)) by (by intros [_ ?]).
      rewrite (bool_decide_eq_false_2 (region ∈ r :: l /\ _)) by (by intros [_ ?]).
      case_bool_decide as Hpos; [| done].
      rewrite lookup_insert_ne; [done |]. intros ->. rewrite Hnil in Hpos. simpl in Hpos. lia. }
    destruct (decide (region ∈ l)) as [Hin|Hout].
    { rewrite !bool_decide_eq_true_2; [done | | done]. split; [by right | done]. }
    rewrite (bool_decide_eq_false_2 (region ∈ l /\ _)) by (by intros [? _]).
    destruct (decide (r = region)) as [->|Hne].
    + rewrite (bool_decide_eq_true_2 (region ∈ region :: l /\ _)) by (split; [by left | done]).
      rewrite bool_decide_eq_true_2; [by rewrite lookup_insert_eq |].
      destruct (region_values regions xs region); [done | simpl; lia].
    + rewrite (bool_decide_eq_false_2 (region ∈ r :: l /\ _)).
      * case_bool_decide; [by rewrite lookup_insert_ne | done].
      * intros [Hin _]. by apply elem_of_cons in Hin as [->|Hin].
Qed.

Lemma region_values_absent regions xs region :
  region ∉ regions -> region_values regions xs region = [].
Proof. intros H. unfold region_values. by rewrite region_rows_absent. Qed.

Lemma region_values_elem regions xs region v :
  v ∈ region_values regions xs region
  <-> exists i, regions !! i = Some region /\ xs !! i = Some v /\ isnan v = false.
Proof.
  unfold region_values, present. rewrite list_elem_of_filter, region_rows_lookup.
  split; [intros (? & i & ? & ?) | intros (i & ? & ? & ?)]; eauto.
Qed.

Lemma regions_of_lookup_total regions xs region :
  regions_of sqrt64 regions xs !! region =
  if bool_decide (region_values regions xs region <> [])
  then Some (region_statistics_of sqrt64 (region_values regions xs region))
  else None.
Proof.
  unfold regions_of. rewrite record_fold_lookup, lookup_empty.
  destruct (decide (region_values regions xs region = [])) as [Hnil|Hvals].
  { rewrite (bool_decide_eq_false_2 (_ /\ _)) by (by intros [_ ?]).
    by rewrite bool_decide_eq_false_2 by (by intros ?). }
  rewrite (bool_decide_eq_true_2 (_ /\ _)); [by rewrite bool_decide_eq_true_2 |].
  split; [| done].
  apply elem_of_elements, elem_of_list_to_set.
  destruct (decide (region ∈ regions)) as [|Hout]; [done |].
  by apply (region_values_absent regions xs) in Hout.
Qed.

End Regions.

(** ** The standard deviations *)

Lemma statistics_of_returns sqrt64 xs :
  present xs <> [] -> exists st, statistics_of sqrt64 xs = Ok st.
Proof.
  intros H. unfold statistics_of. cbv zeta.
  destruct (present xs) as [|x l]; [done |]. simpl. eauto.
Qed.

Lemma statistics_of_std sqrt64 xs st :
  statistics_of sqrt64 xs = Ok st ->
  stat_std st = population_std sqrt64 (present xs) /\ stat_count st = length (present xs).
Proof.
  unfold statistics_of. cbv zeta.
  destruct (np_min (present xs)) as [mn|e]; simpl; [| done].
  destruct (np_max (present xs)) as [mx|e]; simpl; [| done].
  intros [= <-]. simpl. by rewrite np_std_population.
Qed.

(** C10: every standard deviation the engine computes is the population
    standard deviation, the square root of the sum of squared deviations
    from the mean divided by the number [N] of non-missing values (ddof 0):
    the [std] of [get_basic_statistics], whose [count] is that [N]; the
    [std] of every region [compare_regions] records, over the region's [N]
    non-missing values, and it records every region that has a value; and
    the denominator of every z-score [find_outliers] returns, which are the
    z-scores of all the rows whose value exceeds the threshold by that
    measure. *)
Theorem standard_deviations_are_population sqrt64 s n w name j :
  well_formed s n w -> feature s w name j ->
  (forall st, run (get_basic_statistics sqrt64 name) s = Ok st ->
     stat_std st = population_std sqrt64 (present (column s j)) /\
     stat_count st = length (present (column s j))) /\
  (present (column s j) <> [] ->
   exists st, run (get_basic_statistics sqrt64 name) s = Ok st) /\
  (exists results, run (compare_regions sqrt64 name) s = Ok results /\
     (forall region st, results !! region = Some st ->
        region_std st =
          population_std sqrt64 (region_values (regional_indicators s) (column s j) region) /\
        region_count st =
          length (region_values (regional_indicators s) (column s j) region)) /\
     (forall region,
        region_values (regional_indicators s) (column s j) region <> [] ->
        exists st, results !! region = Some st)) /\
  (forall threshold,
     exists outliers, run (find_outliers sqrt64 name threshold) s = Ok outliers /\
       (forall c v z, (c, v, z) ∈ outliers ->
          z = fabs (fdiv (fsub v (np_mean (present (column s j))))
                         (population_std sqrt64 (present (column s j))))) /\
       (forall i c v,
          country_names s !! i = Some c -> column s j !! i = Some v ->
          isnan v = false ->
          fgt (fabs (fdiv (fsub v (np_mean (present (column s j))))
                          (population_std sqrt64 (present (column s j))))) threshold = true ->
          (c, v, fabs (fdiv (fsub v (np_mean (present (column s j))))
                            (population_std sqrt64 (present (column s j))))) ∈ outliers)).
Proof.
  intros Hwf Hf. apply feature_resolves in Hf.
  rewrite (run_get_basic_statistics _ _ _ _ _ _ Hwf Hf).
  rewrite (run_compare_regions _ _ _ _ _ _ Hwf Hf).
  split; [intros st H; eapply statistics_of_std, H |].
  split; [apply statistics_of_returns |].
  split.
  - eexists. split; [reflexivity |]. split.
    + intros region st Hst.
      apply regions_of_lookup in Hst as [-> _]. simpl. by rewrite np_std_population.
    + intros region Hvalues. rewrite regions_of_lookup_total.
      rewrite bool_decide_eq_true_2 by done. by eexists.
  - intros threshold. rewrite (run_find_outliers _ _ _ _ _ _ _ Hwf Hf).
    assert (length (country_names s) = length (column s j)) as Hlen.
    { rewrite (length_column s n w j Hwf). by destruct Hwf as (_ & Hnames & _). }
    rewrite outliers_of_rows by done. eexists. split; [reflexivity |].
    unfold z_score. rewrite np_std_population. split.
    + intros c v z Hin. apply list_elem_of_fmap in Hin as ([c' v'] & [= -> -> ->] & _).
      done.
    + intros i c v Hc Hv Hnan Hgt. apply list_elem_of_fmap. exists (c, v).
      split; [done |]. apply list_elem_of_filter. split; [done |].
      apply list_elem_of_lookup. exists i. apply lookup_zip_with_Some. eauto.
Qed.

(** ** The identity columns *)

Lemma index_untouched (ps : list (nat * string)) (h : string) :
  forall m : gmap string nat,
  Forall (fun p => snd p <> h) ps ->
  foldl (fun m p => <[snd p := fst p]> m) m ps !! h = m !! h.
Proof.
  induction ps as [|[i x] ps IH]; intros m Hps; [done |].
  apply Forall_cons in Hps as [Hx Hps]. simpl in *.
  rewrite IH by done. by rewrite lookup_insert_ne.
Qed.

Lemma enumerate_names_from {A} (f : nat -> A -> nat * A) (l : list A) :
  (forall i x, snd (f i x) = x) ->
  forall p, p ∈ imap f l -> snd p ∈ l.
Proof.
  intros Hf p Hp. apply list_elem_of_lookup in Hp as [k Hk].
  apply list_lookup_imap_Some in Hk as (x & Hx & ->). rewrite Hf.
  by eapply list_elem_of_lookup_2.
Qed.

Lemma identity_offsets s h0 h1 rest :
  header_index s -> headers s = h0 :: h1 :: rest ->
  h0 ∉ h1 :: rest -> h1 ∉ rest ->
  column_map s !! h0 = Some 0%nat /\ column_map s !! h1 = Some 1%nat.
Proof.
  intros Hidx Hh H0 H1. rewrite Hidx, Hh. unfold enumerate. cbn [imap foldl fst snd].
  apply not_elem_of_cons in H0 as [Hne H0].
  assert (forall h, h ∉ rest ->
            Forall (fun p : nat * string => snd p <> h) (imap (pair ∘ S ∘ S) rest)) as Hrest.
  { intros h Hh'. apply list.Forall_forall. intros p Hp Hp'.
    apply Hh'. rewrite <- Hp'. by apply (enumerate_names_from (pair ∘ S ∘ S)). }
  rewrite !index_untouched by auto. split.
  - by rewrite lookup_insert_ne, lookup_insert_eq.
  - by rewrite lookup_insert_eq.
Qed.

Lemma new_header_index py_float csv reader s :
  new py_float csv reader = Ok s -> header_index s.
Proof.
  destruct reader as [|header body]; [done |]. rewrite new_unfold.
  destruct (np_array _) as [a|e]; simpl; [| done].
  destruct (py_index (shape a) 1); simpl; [| done]. by intros [= <-].
Qed.

Lemma norm_index_from_end (w k : nat) :
  (1 <= k <= w)%nat -> norm_index w (- Z.of_nat k) = Ok (w - k)%nat.
Proof.
  intros H. unfold norm_index.
  rewrite bool_decide_eq_false_2, bool_decide_eq_true_2 by lia. f_equal. lia.
Qed.

Lemma norm_index_out_of_range (w : nat) (c : Z) :
  c < - Z.of_nat w -> norm_index w c = Raise IndexError.
Proof. intros H. unfold norm_index. by rewrite !bool_decide_eq_false_2 by lia. Qed.

(** A name whose offset is out of the matrix' range. *)
Lemma arr_col_out_of_range a n w c :
  shape a = [n; w] -> norm_index w c = Raise IndexError -> arr_col a c = Raise IndexError.
Proof. intros Hs Hc. unfold arr_col. by rewrite Hs, Hc. Qed.

Section Out_of_range.

Variable sqrt64 : Qc -> Qc.
Variable argsort : list float64 -> list nat.

Lemma out_of_range_operations s n w name c threshold k :
  well_formed s n w -> run (get_column_index name) s = Ok c ->
  norm_index w c = Raise IndexError ->
  run (get_basic_statistics sqrt64 name) s = Raise IndexError /\
  run (get_top_countries argsort name k) s = Raise IndexError /\
  run (get_bottom_countries argsort name k) s = Raise IndexError /\
  run (find_outliers sqrt64 name threshold) s = Raise IndexError /\
  run (get_correlation_matrix sqrt64 [name]) s = Raise IndexError /\
  ((0 < n)%nat -> run (compare_regions sqrt64 name) s = Raise IndexError) /\
  (forall country, country ∈ country_names s ->
     run (calculate_percentile_rank country name) s = Raise IndexError).
Proof.
  intros Hwf Hc Hn.
  destruct (well_formed_matrix _ _ _ Hwf) as (a & Hd & Hs & Hm & Hl).
  pose proof (arr_col_out_of_range a n w c Hs Hn) as Hcol.
  assert (run (valid_rows name) s = Raise IndexError) as Hvalid.
  { unfold valid_rows.
    rewrite run_bind, Hc by auto with readonly. simpl.
    rewrite run_bind, run_get_data, Hd by auto with readonly. simpl.
    rewrite run_bind, run_lift by auto with readonly. by rewrite Hcol. }
  repeat split.
  - unfold get_basic_statistics.
    rewrite run_bind, Hc by auto with readonly. simpl.
    rewrite run_bind, run_get_data, Hd by auto with readonly. simpl.
    rewrite run_bind, run_lift by auto with readonly. by rewrite Hcol.
  - unfold get_top_countries. by rewrite run_bind, Hvalid by auto with readonly.
  - unfold get_bottom_countries. by rewrite run_bind, Hvalid by auto with readonly.
  - unfold find_outliers.
    rewrite run_bind, Hc by auto with readonly. simpl.
    rewrite run_bind, run_get_data, Hd by auto with readonly. simpl.
    rewrite run_bind, run_lift by auto with readonly. by rewrite Hcol.
  - unfold get_correlation_matrix. cbn [foldM].
    rewrite run_bind by solve_readonly.
    rewrite run_bind by solve_readonly.
    rewrite run_bind, Hc by solve_readonly. simpl.
    rewrite run_bind, run_get_data, Hd by solve_readonly. simpl.
    rewrite run_bind, run_lift by solve_readonly.
    unfold arr_cols. rewrite Hs. simpl. by rewrite Hn.
  - intros Hpos. unfold compare_regions.
    rewrite run_bind, Hc by auto with readonly. simpl.
    rewrite run_bind, run_gets by auto with readonly. simpl.
    destruct (elements (list_to_set (regional_indicators s) : gset string))
      as [|region regions] eqn:E.
    { apply elements_empty_inv in E. destruct Hwf as (_ & _ & Hregions).
      destruct (regional_indicators s) as [|r rs]; [simpl in Hregions; lia |].
      exfalso. apply (not_elem_of_empty (C := gset string) r).
      rewrite <- E. set_solver. }
    assert (run (compare_region sqrt64 c ∅ region) s = Raise IndexError) as Hregion.
    { destruct (run_filter_by_region s n w region Hwf) as (countries & k' & Hrun).
      unfold compare_region.
      rewrite run_bind, Hrun by auto with readonly. simpl.
      rewrite run_bind, run_lift by auto with readonly.
      by rewrite (arr_col_out_of_range _ k' w). }
    cbn [foldM]. by rewrite run_bind, Hregion by apply readonly_compare_region.
  - intros country Hin. unfold calculate_percentile_rank.
    rewrite run_bind, Hc by auto with readonly. simpl.
    rewrite run_bind, run_gets by auto with readonly. simpl.
    rewrite run_bind, run_lift by auto with readonly.
    destruct (list_index_present _ _ Hin) as [idx Hidx]. rewrite Hidx. simpl.
    apply list_index_first, first_row_lt in Hidx.
    destruct Hwf as (_ & Hnames & _).
    rewrite run_bind, run_get_data, Hd by auto with readonly. simpl.
    rewrite run_bind, run_lift by auto with readonly.
    unfold arr_item, py_index. rewrite Hs.
    destruct (lookup_lt_is_Some_2 (cells a) idx) as [r ->]; [rewrite <- Hm; lia |].
    simpl. by rewrite Hn.
Qed.

End Out_of_range.

Section Identity_columns.

Variable sqrt64 : Qc -> Qc.
Variable argsort : list float64 -> list nat.

(** C9 (amended): when the two identity headers are not repeated later in
    the header row, [get_column_index] does not fail on them and returns
    the offsets -2 and -1.  The second one selects the last matrix column;
    the first one selects the column before it when the matrix has at least
    two columns, and is out of range when it has one, so that an operation
    raises [IndexError], which is not a name-not-found error.  An operation
    given a name whose offset selects column [j] computes its result from
    that column, so with an identity name it reads a numeric column counted
    from the end. *)
Theorem identity_names_read_from_the_end s n w h0 h1 rest :
  well_formed s n w -> header_index s -> headers s = h0 :: h1 :: rest ->
  h0 ∉ h1 :: rest -> h1 ∉ rest ->
  run (get_column_index h0) s = Ok (-2) /\
  run (get_column_index h1) s = Ok (-1) /\
  ((1 <= w)%nat -> resolves s w h1 (w - 1)) /\
  ((2 <= w)%nat -> resolves s w h0 (w - 2)) /\
  (w = 1%nat -> forall threshold k,
     run (get_basic_statistics sqrt64 h0) s = Raise IndexError /\
     run (get_top_countries argsort h0 k) s = Raise IndexError /\
     run (get_bottom_countries argsort h0 k) s = Raise IndexError /\
     run (find_outliers sqrt64 h0 threshold) s = Raise IndexError /\
     run (get_correlation_matrix sqrt64 [h0]) s = Raise IndexError /\
     ((0 < n)%nat -> run (compare_regions sqrt64 h0) s = Raise IndexError) /\
     (forall country, country ∈ country_names s ->
        run (calculate_percentile_rank country h0) s = Raise IndexError)) /\
  (forall name j, resolves s w name j -> forall threshold k country,
     run (get_basic_statistics sqrt64 name) s = statistics_of sqrt64 (column s j) /\
     run (get_top_countries argsort name k) s
       = top_of argsort (country_names s) (column s j) k /\
     run (get_bottom_countries argsort name k) s
       = bottom_of argsort (country_names s) (column s j) k /\
     run (compare_regions sqrt64 name) s
       = Ok (regions_of sqrt64 (regional_indicators s) (column s j)) /\
     run (find_outliers sqrt64 name threshold) s
       = outliers_of sqrt64 (country_names s) (column s j) threshold /\
     run (calculate_percentile_rank country name) s
       = percentile_of (country_names s) (column s j) country /\
     run (get_correlation_matrix sqrt64 [name]) s
       = Ok (Scalar (fdiv (sample_variance (present (column s j)))
                          (sample_variance (present (column s j)))))).
Proof.
  intros Hwf Hidx Hh H0 H1.
  destruct (identity_offsets s h0 h1 rest Hidx Hh H0 H1) as [E0 E1].
  assert (run (get_column_index h0) s = Ok (-2)) as R0
    by by rewrite run_get_column_index, E0.
  assert (run (get_column_index h1) s = Ok (-1)) as R1
    by by rewrite run_get_column_index, E1.
  split; [done |]. split; [done |]. split; [| split; [| split]].
  - intros Hw. exists 1%nat. split; [done |]. apply (norm_index_from_end w 1). lia.
  - intros Hw. exists 0%nat. split; [done |]. apply (norm_index_from_end w 2). lia.
  - intros -> threshold k.
    by apply (out_of_range_operations sqrt64 argsort s n 1 h0 (-2)).
  - intros name j Hf threshold k country.
    split; [by apply (run_get_basic_statistics sqrt64 s n w) |].
    split; [by apply (run_get_top_countries argsort s n w) |].
    split; [by apply (run_get_bottom_countries argsort s n w) |].
    split; [by apply (run_compare_regions sqrt64 s n w) |].
    split; [by apply (run_find_outliers sqrt64 s n w) |].
    split; [by apply (run_percentile_of s n w) |].
    by apply (run_get_correlation_matrix_single sqrt64 s n w).
Qed.

End Identity_columns.

(** * The theorems at the example tables *)

Ltac check_well_formed :=
  split;
  [ eexists; split; [reflexivity |]; split; [reflexivity |]; split;
    [reflexivity | by repeat constructor]
  | by split ].

Ltac check_feature := split; [by vm_compute | lia].

Ltac check_first_row :=
  split;
  [ reflexivity
  | let i := fresh "i" in let Hi := fresh "Hi" in
    intros i Hi; do 3 (try (destruct i as [|i]; [first [done | lia] |])); lia ].

Ltac check_absent :=
  let H := fresh "H" in
  intros H; repeat (apply elem_of_cons in H as [H|H]; [done |]); by apply elem_of_nil in H.

Ltac equal_floats := vm_compute; apply (f_equal Ok), (f_equal Fin), Qc_is_canon; reflexivity.

(** C1 at a table whose only feature has no value: the call raises. *)
Lemma basic_statistics_of_missing_column_raises_witness :
  well_formed one_feature 2 1 /\ feature one_feature 1 "F1" 0 /\
  Forall (fun x => isnan x = true) (column one_feature 0) /\
  run (get_basic_statistics sqrt_52 "F1") one_feature = Raise ValueError.
Proof.
  assert (well_formed one_feature 2 1) as Hwf by check_well_formed.
  assert (feature one_feature 1 "F1" 0) as Hf by check_feature.
  assert (Forall (fun x => isnan x = true) (column one_feature 0)) as Hall
    by by repeat constructor.
  split; [done |]. split; [done |]. split; [done |].
  exact (proj1 (basic_statistics_of_missing_column_raises sqrt_52 _ _ _ _ _ Hwf Hf Hall)).
Defined.

(** C2 at the scenario of the spec, with the stable insertion sort: the
    single top country by F1. *)
Lemma top_and_bottom_countries_witness :
  argsort_contract stable_argsort /\ well_formed scenario 3 2 /\
  feature scenario 2 "F1" 0 /\
  exists ranking : list (string * float64),
    ranking ≡ₚ valid_pairs (country_names scenario) (column scenario 0) /\
    ascending ranking /\
    descending (reverse ranking) /\
    run (get_bottom_countries stable_argsort "F1" 1) scenario = Ok (take 1 ranking) /\
    run (get_top_countries stable_argsort "F1" 1) scenario = Ok (take 1 (reverse ranking)).
Proof.
  assert (well_formed scenario 3 2) as Hwf by check_well_formed.
  assert (feature scenario 2 "F1" 0) as Hf by check_feature.
  split; [exact stable_argsort_contract |]. split; [done |]. split; [done |].
  exact (top_and_bottom_countries stable_argsort stable_argsort_contract
           scenario 3 2 "F1" 0 1 Hwf Hf ltac:(lia)).
Defined.

(** C2 as stated fails: B and C share the value 5.0 of F2 and B is the
    earlier row, but the top list names C first. *)
Lemma top_countries_reverse_ties :
  country_names scenario = ["A"; "B"; "C"] /\
  run (get_top_countries stable_argsort "F2" 2) scenario = Ok [("C", num 5); ("B", num 5)] /\
  run (get_bottom_countries stable_argsort "F2" 2) scenario = Ok [("B", num 5); ("C", num 5)].
Proof. by vm_compute. Qed.

(** C3 at the scenario: A has no value for F2, and ranks 0. *)
Lemma percentile_rank_of_missing_value_witness :
  well_formed scenario 3 2 /\ feature scenario 2 "F2" 1 /\
  first_row (country_names scenario) "A" 0 /\ isnan (cell scenario 0 1) = true /\
  run (calculate_percentile_rank "A" "F2") scenario = Ok (Fin 0%Qc).
Proof.
  assert (well_formed scenario 3 2) as Hwf by check_well_formed.
  assert (feature scenario 2 "F2" 1) as Hf by check_feature.
  assert (first_row (country_names scenario) "A" 0) as Hrow by check_first_row.
  split; [done |]. split; [done |]. split; [done |]. split; [done |].
  exact (percentile_rank_of_missing_value scenario 3 2 "F2" 1 "A" 0 Hwf Hf Hrow eq_refl).
Defined.

(** C3 as stated fails: the rank of the missing value is 0.0, not NaN. *)
Lemma missing_value_ranks_zero :
  cell scenario 0 1 = NaN /\
  run (calculate_percentile_rank "A" "F2") scenario = Ok (Fin 0%Qc).
Proof. split; [done | equal_floats]. Qed.

(** C4 at the table of two rows: one of the two values of F1 is below
    the 3.0 of B, and the rank is 50.0. *)
Lemma percentile_rank_counts_strictly_smaller_witness :
  well_formed paired 2 2 /\ feature paired 2 "F1" 0 /\
  first_row (country_names paired) "B" 1 /\ isnan (cell paired 1 0) = false /\
  count_below (cell paired 1 0) (column paired 0) = 1%nat /\
  length (present (column paired 0)) = 2%nat /\
  run (calculate_percentile_rank "B" "F1") paired = Ok (Fin (Qc_of_Z 50)).
Proof.
  assert (well_formed paired 2 2) as Hwf by check_well_formed.
  assert (feature paired 2 "F1" 0) as Hf by check_feature.
  assert (first_row (country_names paired) "B" 1) as Hrow by check_first_row.
  split; [done |]. split; [done |]. split; [done |]. split; [done |].
  split; [by vm_compute |]. split; [by vm_compute |].
  destruct (percentile_rank_counts_strictly_smaller paired 2 2 "F1" 0 "B" Hwf Hf)
    as [H _].
  destruct (H 1%nat Hrow eq_refl) as (_ & -> & _). equal_floats.
Defined.

(** C5 at the scenario: the sample variance of the values 1, 2 and 3 of F1
    is 1. *)
Lemma correlation_of_single_feature_witness :
  well_formed scenario 3 2 /\ feature scenario 2 "F1" 0 /\
  sample_variance (present (column scenario 0)) = Fin 1%Qc /\
  run (get_correlation_matrix sqrt_52 ["F1"]) scenario = Ok (Scalar (Fin 1%Qc)).
Proof.
  assert (well_formed scenario 3 2) as Hwf by check_well_formed.
  assert (feature scenario 2 "F1" 0) as Hf by check_feature.
  assert (sample_variance (present (column scenario 0)) = Fin 1%Qc) as Hc
    by (vm_compute; apply (f_equal Fin), Qc_is_canon; reflexivity).
  split; [done |]. split; [done |]. split; [done |].
  destruct (correlation_of_single_feature sqrt_52 scenario 3 2 "F1" 0 Hwf Hf)
    as (_ & H & _).
  apply (H 1%Qc Hc). apply Q_apart_0_1.
Defined.

(** C5 as stated fails: two rows have a value for F2, the same one, and the
    result is the scalar NaN. *)
Lemma correlation_of_constant_feature :
  column scenario 1 = [NaN; num 5; num 5] /\
  run (get_correlation_matrix sqrt_52 ["F2"]) scenario = Ok (Scalar NaN).
Proof. by vm_compute. Qed.

(** C6 at a file of two admitted rows and an empty line. *)
Lemma loaded_dataset_shape_witness :
  exists s,
    new float_of_digits "two.csv" two_rows = Ok s /\
    exists header body n w,
      two_rows = header :: body /\ headers s = header /\
      well_formed s n w /\ (0 < n)%nat /\
      n = length (admitted body) /\
      Forall (fun row => (2 < length row)%nat -> length row = (w + 2)%nat) body /\
      (Forall (fun row => (2 < length row)%nat -> length row = length header) body ->
       length (feature_names s) = w).
Proof.
  eexists. split; [by vm_compute |].
  exact (loaded_dataset_shape float_of_digits "two.csv" two_rows _ eq_refl).
Defined.

(** C6 as stated fails: the header names two features, the only data row
    holds one value, and the loader accepts the file. *)
Lemma loader_accepts_short_rows :
  exists s,
    new float_of_digits "short.csv" short_row = Ok s /\
    length (feature_names s) = 2%nat /\
    shape <$> data s = Some [1%nat; 1%nat].
Proof. eexists. split; [by vm_compute |]. by split. Qed.

(** C8 at the scenario: A's value of F1 is below C's. *)
Lemma percentile_rank_monotonic_witness :
  well_formed scenario 3 2 /\ feature scenario 2 "F1" 0 /\
  first_row (country_names scenario) "A" 0 /\
  first_row (country_names scenario) "C" 2 /\
  flt (cell scenario 0 0) (cell scenario 2 0) = true /\
  exists r1 r2,
    run (calculate_percentile_rank "A" "F1") scenario = Ok r1 /\
    run (calculate_percentile_rank "C" "F1") scenario = Ok r2 /\
    fle r1 r2 = true.
Proof.
  assert (well_formed scenario 3 2) as Hwf by check_well_formed.
  assert (feature scenario 2 "F1" 0) as Hf by check_feature.
  assert (first_row (country_names scenario) "A" 0) as Hrow1 by check_first_row.
  assert (first_row (country_names scenario) "C" 2) as Hrow2 by check_first_row.
  split; [done |]. split; [done |]. split; [done |]. split; [done |].
  split; [by vm_compute |].
  exact (percentile_rank_monotonic scenario 3 2 "F1" 0 "A" "C" 0 2 Hwf Hf Hrow1 Hrow2
           eq_refl).
Defined.

(** C9 at the scenario: the two identity names read F1 and F2. *)
Lemma identity_names_read_from_the_end_witness :
  well_formed scenario 3 2 /\ header_index scenario /\
  run (get_column_index "Country name") scenario = Ok (-2) /\
  run (get_column_index "Regional indicator") scenario = Ok (-1) /\
  resolves scenario 2 "Regional indicator" 1 /\
  resolves scenario 2 "Country name" 0.
Proof.
  assert (well_formed scenario 3 2) as Hwf by check_well_formed.
  assert (header_index scenario) as Hidx by by vm_compute.
  split; [done |]. split; [done |].
  destruct (identity_names_read_from_the_end sqrt_52 stable_argsort scenario 3 2
              "Country name" "Regional indicator" ["F1"; "F2"] Hwf Hidx eq_refl)
    as (H0 & H1 & Hlast & Hfirst & _).
  - check_absent.
  - check_absent.
  - split; [exact H0 |]. split; [exact H1 |].
    split; [apply Hlast | apply Hfirst]; lia.
Defined.

(** C9 as stated fails: with one feature column the offset -2 of the first
    identity name is out of range, and the operation raises [IndexError]. *)
Lemma first_identity_name_out_of_range :
  run (get_column_index "Country name") one_feature = Ok (-2) /\
  run (get_basic_statistics sqrt_52 "Country name") one_feature = Raise IndexError.
Proof. by vm_compute. Qed.

(** C10 at the table of two rows: the population standard deviation of
    the values 1.0 and 3.0 of F1 is 1.0, the sample one is not; the
    statistics, the one region and the z-scores carry 1.0. *)
Lemma standard_deviations_are_population_witness :
  well_formed paired 2 2 /\ feature paired 2 "F1" 0 /\
  population_std sqrt_52 (present (column paired 0)) = Fin 1%Qc /\
  sample_std sqrt_52 (present (column paired 0)) <> Fin 1%Qc /\
  (exists st,
     run (get_basic_statistics sqrt_52 "F1") paired = Ok st /\
     stat_std st = Fin 1%Qc /\ stat_count st = 2%nat) /\
  (exists results st,
     run (compare_regions sqrt_52 "F1") paired = Ok results /\
     results !! "R1" = Some st /\ region_std st = Fin 1%Qc /\ region_count st = 2%nat) /\
  (exists outliers,
     run (find_outliers sqrt_52 "F1" (num 0)) paired = Ok outliers /\
     ("A", num 1, Fin 1%Qc) ∈ outliers /\ ("B", num 3, Fin 1%Qc) ∈ outliers).
Proof.
  assert (well_formed paired 2 2) as Hwf by check_well_formed.
  assert (feature paired 2 "F1" 0) as Hf by check_feature.
  assert (population_std sqrt_52 (present (column paired 0)) = Fin 1%Qc) as Hstd
    by (vm_compute; apply (f_equal Fin), Qc_is_canon; reflexivity).
  assert (sample_std sqrt_52 (present (column paired 0)) <> Fin 1%Qc) as Hsample.
  { intros E. by apply (f_equal (fun x => bool_decide (x = Fin 1%Qc))) in E. }
  assert (region_values (regional_indicators paired) (column paired 0) "R1"
          = present (column paired 0)) as Hregion by reflexivity.
  assert (forall v, v = num 1 \/ v = num 3 ->
            fabs (fdiv (fsub v (np_mean (present (column paired 0)))) (Fin 1%Qc)) = Fin 1%Qc)
    as Hz.
  { intros v [-> | ->]; vm_compute; apply (f_equal Fin), Qc_is_canon; reflexivity. }
  split; [done |]. split; [done |]. split; [done |]. split; [done |].
  destruct (standard_deviations_are_population sqrt_52 paired 2 2 "F1" 0 Hwf Hf)
    as (Hbasic & Hreturns & (results & Hrun & Hentries & Hkeys) & Hout).
  split; [| split].
  - destruct Hreturns as [st Hst]; [done |].
    exists st. split; [done |]. destruct (Hbasic st Hst) as [-> ->]. by rewrite Hstd.
  - destruct (Hkeys "R1") as [st Hst]; [done |].
    exists results, st. split; [done |]. split; [done |].
    destruct (Hentries "R1" st Hst) as [-> ->]. by rewrite Hregion, Hstd.
  - destruct (Hout (num 0)) as (outliers & Hrun' & _ & Hall).
    exists outliers. split; [done |]. rewrite Hstd in Hall. split.
    + rewrite <- (Hz (num 1)) by auto. apply (Hall 0%nat); [done | done | done |].
      by rewrite Hz by auto.
    + rewrite <- (Hz (num 3)) by auto. apply (Hall 1%nat); [done | done | done |].
      by rewrite Hz by auto.
Defined.

(** Whatever order [np.argsort] gives equal keys, one of the two lists
    names C before B at the scenario: the top list is the bottom list read
    backwards. *)
Lemma ties_never_both_in_row_order argsort :
  argsort_contract argsort ->
  run (get_top_countries argsort "F2" 2) scenario = Ok [("C", num 5); ("B", num 5)] \/
  run (get_bottom_countries argsort "F2" 2) scenario = Ok [("C", num 5); ("B", num 5)].
Proof.
  intros Hc.
  assert (well_formed scenario 3 2) as Hwf by check_well_formed.
  assert (resolves scenario 2 "F2" 1) as Hf by (apply feature_resolves; check_feature).
  assert (valid_pairs (country_names scenario) (column scenario 1)
          = [("B", num 5); ("C", num 5)]) as Hvalid by by vm_compute.
  destruct (Hc [num 5; num 5]) as [Hperm _]; [by repeat constructor |].
  simpl in Hperm. symmetry in Hperm. apply Permutation_length_2_inv in Hperm.
  rewrite (run_get_top_countries _ _ _ _ _ _ _ Hwf Hf).
  rewrite (run_get_bottom_countries _ _ _ _ _ _ _ Hwf Hf).
  unfold top_of, bottom_of. cbv zeta. rewrite Hvalid.
  change (snd <$> [("B", num 5); ("C", num 5)]) with [num 5; num 5].
  destruct Hperm as [-> | ->]; [left | right]; by vm_compute.
Qed.

(** The two divisors differ: on the values 1.0 and 3.0 the population
    standard deviation is 1.0 and the sample one is the root of 2.0. *)
Lemma population_std_is_not_sample_std :
  population_std sqrt_52 [num 1; num 3] = Fin 1%Qc /\
  sample_std sqrt_52 [num 1; num 3] <> Fin 1%Qc.
Proof.
  split.
  - vm_compute. apply (f_equal Fin), Qc_is_canon. reflexivity.
  - intros E. by apply (f_equal (fun x => bool_decide (x = Fin 1%Qc))) in E.
Qed.

(** * Further properties of the methods *)

(** ** Unknown column names *)

Lemma run_column_indices s names : forall acc,
  run (foldM (fun acc name => (i <- get_column_index name ;; ret (acc ++ [i]))%M) acc names) s
  = (idxs ← mapR (fun name => run (get_column_index name) s) names; Ok (acc ++ idxs)).
Proof.
  induction names as [|name names IH]; intros acc; cbn [foldM mapR].
  - rewrite run_ret. simpl. by rewrite app_nil_r.
  - rewrite run_bind by solve_readonly. rewrite run_bind by solve_readonly.
    destruct (run (get_column_index name) s) as [i|e]; simpl; [| done].
    rewrite IH. destruct (mapR _ names) as [idxs|e]; simpl; [| done].
    by rewrite <- app_assoc.
Qed.

Section Unknown_column.

Variable sqrt64 : Qc -> Qc.
Variable argsort : list float64 -> list nat.

(** X1: a column name that is not in [column_map] makes every operation that
    takes one raise [KeyError], whatever the analyzer holds; so does a list
    of names for [get_correlation_matrix] whose first unknown name comes
    after known ones only. *)
Theorem unknown_column_raises_key_error s name :
  column_map s !! name = None ->
  run (get_column_index name) s = Raise KeyError /\
  run (get_basic_statistics sqrt64 name) s = Raise KeyError /\
  (forall k, run (get_top_countries argsort name k) s = Raise KeyError) /\
  (forall k, run (get_bottom_countries argsort name k) s = Raise KeyError) /\
  run (compare_regions sqrt64 name) s = Raise KeyError /\
  (forall threshold, run (find_outliers sqrt64 name threshold) s = Raise KeyError) /\
  (forall country, run (calculate_percentile_rank country name) s = Raise KeyError) /\
  (forall before after,
     Forall (fun x => is_Some (column_map s !! x)) before ->
     run (get_correlation_matrix sqrt64 (before ++ name :: after)) s = Raise KeyError).
Proof.
  intros Hnone.
  assert (run (get_column_index name) s = Raise KeyError) as Hc
    by by rewrite run_get_column_index, Hnone.
  assert (run (valid_rows name) s = Raise KeyError) as Hvalid.
  { unfold valid_rows. by rewrite run_bind, Hc by auto with readonly. }
  split; [done |]. split.
  { unfold get_basic_statistics. by rewrite run_bind, Hc by auto with readonly. }
  split.
  { intros k. unfold get_top_countries. by rewrite run_bind, Hvalid by auto with readonly. }
  split.
  { intros k. unfold get_bottom_countries.
    by rewrite run_bind, Hvalid by auto with readonly. }
  split.
  { unfold compare_regions. by rewrite run_bind, Hc by auto with readonly. }
  split.
  { intros threshold. unfold find_outliers.
    by rewrite run_bind, Hc by auto with readonly. }
  split.
  { intros country. unfold calculate_percentile_rank.
    by rewrite run_bind, Hc by auto with readonly. }
  intros before after Hknown. unfold get_correlation_matrix.
  rewrite run_bind by solve_readonly. rewrite run_column_indices.
  assert (mapR (fun x => run (get_column_index x) s) (before ++ name :: after)
          = Raise KeyError) as ->; [| done].
  induction Hknown as [|x before [i Hx] _ IH]; cbn [app mapR].
  - by rewrite Hc.
  - by rewrite run_get_column_index, Hx, IH.
Qed.

End Unknown_column.

(** ** The column index after loading *)

Lemma enumerate_app {A} (l : list A) (x : A) :
  enumerate (l ++ [x]) = enumerate l ++ [(length l, x)].
Proof. unfold enumerate. rewrite imap_app. simpl. by rewrite Nat.add_0_r. Qed.

Lemma index_of_headers (hs : list string) : forall h i,
  foldl (fun (m : gmap string nat) p => <[snd p := fst p]> m) ∅ (enumerate hs) !! h = Some i
  <-> hs !! i = Some h /\ h ∉ drop (S i) hs.
Proof.
  induction hs as [|x hs IH] using rev_ind; intros h i.
  - simpl. rewrite lookup_empty. split; [done | by intros [? _]].
  - rewrite enumerate_app, foldl_app. cbn [foldl fst snd].
    destruct (decide (x = h)) as [->|Hne].
    + rewrite lookup_insert_eq. split.
      * intros [= <-]. rewrite list_lookup_middle by done. split; [done |].
        rewrite drop_ge by (rewrite length_app; simpl; lia). apply not_elem_of_nil.
      * intros [Hi Hlast]. f_equal.
        destruct (decide (i < length hs)%nat) as [Hlt|Hge].
        -- exfalso. apply Hlast. rewrite drop_app_le by lia.
           apply elem_of_app. right. by left.
        -- apply lookup_lt_Some in Hi. rewrite length_app in Hi. simpl in Hi. lia.
    + rewrite lookup_insert_ne by done. rewrite IH. split.
      * intros [Hi Hlast]. pose proof (lookup_lt_Some _ _ _ Hi) as Hlt.
        rewrite lookup_app_l by done. split; [done |].
        rewrite drop_app_le by lia. intros Hin. apply elem_of_app in Hin as [Hin|Hin]; [done |].
        apply list_elem_of_singleton in Hin. congruence.
      * intros [Hi Hlast].
        destruct (decide (i < length hs)%nat) as [Hlt|Hge].
        -- rewrite lookup_app_l in Hi by done. split; [done |].
           rewrite drop_app_le in Hlast by lia. intros Hin. apply Hlast.
           apply elem_of_app. by left.
        -- assert (i = length hs) as ->.
           { apply lookup_lt_Some in Hi. rewrite length_app in Hi. simpl in Hi. lia. }
           rewrite list_lookup_middle in Hi by done. congruence.
Qed.

Lemma last_occurrence (hs : list string) (h : string) :
  h ∈ hs -> exists i, hs !! i = Some h /\ h ∉ drop (S i) hs.
Proof.
  induction hs as [|x hs IH]; intros Hin; [by apply elem_of_nil in Hin |].
  destruct (decide (h ∈ hs)) as [Hlater|Hlast].
  - destruct (IH Hlater) as (i & Hi & Hdrop). by exists (S i).
  - apply elem_of_cons in Hin as [->|Hin]; [| done]. by exists 0%nat.
Qed.

Section Loaded_index.

Variable py_float : string -> option float64.

(** X2: after loading, [get_column_index] of a header field gives the last
    position of that field in the header row, minus two, and raises
    [KeyError] exactly for the names that are no header field. *)
Theorem column_index_after_loading csv reader s :
  new py_float csv reader = Ok s ->
  (forall h i, headers s !! i = Some h -> h ∉ drop (S i) (headers s) ->
     run (get_column_index h) s = Ok (Z.of_nat i - 2)) /\
  (forall h c, run (get_column_index h) s = Ok c ->
     exists i, c = Z.of_nat i - 2 /\ headers s !! i = Some h /\
               h ∉ drop (S i) (headers s)) /\
  (forall h, run (get_column_index h) s = Raise KeyError <-> h ∉ headers s).
Proof.
  intros Hnew. pose proof (new_header_index _ _ _ _ Hnew) as Hidx.
  unfold header_index in Hidx.
  split; [| split].
  - intros h i Hi Hlast. rewrite run_get_column_index, Hidx.
    by rewrite (proj2 (index_of_headers (headers s) h i)).
  - intros h c. rewrite run_get_column_index, Hidx.
    destruct (foldl _ _ _ !! h) as [i|] eqn:E; [| done]. intros [= <-].
    apply index_of_headers in E as [Hi Hlast]. by exists i.
  - intros h. rewrite run_get_column_index, Hidx.
    destruct (foldl _ _ _ !! h) as [i|] eqn:E.
    + apply index_of_headers in E as [Hi _]. split; [done |].
      intros Hn. exfalso. apply Hn. by eapply list_elem_of_lookup_2.
    + split; [| done]. intros _ Hin.
      destruct (last_occurrence _ _ Hin) as (i & Hi & Hlast).
      by rewrite (proj2 (index_of_headers (headers s) h i)) in E.
Qed.

End Loaded_index.

(** ** What the loader accepts and what it stores *)

Lemma forallb_false {A} (f : A -> bool) (l : list A) :
  forallb f l = false -> exists x, x ∈ l /\ f x = false.
Proof.
  induction l as [|x l IH]; [done |]. simpl. destruct (f x) eqn:E; simpl.
  - intros H. destruct (IH H) as (y & Hy & Hf). exists y. split; [by right | done].
  - intros _. exists x. split; [by left | done].
Qed.

Section Loader_cases.

Variable py_float : string -> option float64.

Lemma numeric_row_length (row : list string) :
  length ((fun val => default NaN (py_float val)) <$> drop 2 row) = (length row - 2)%nat.
Proof. by rewrite length_fmap, length_drop. Qed.

Lemma admitted_long body row : row ∈ admitted body -> (2 < length row)%nat.
Proof. unfold admitted. intros H. by apply list_elem_of_filter in H as [H _]. Qed.

(** The three ways [np.array] and the summary line treat the parsed rows. *)
Lemma new_cases csv header body :
  (admitted body = [] /\ new py_float csv (header :: body) = Raise IndexError) \/
  (admitted body <> [] /\
   (forall r1 r2, r1 ∈ admitted body -> r2 ∈ admitted body -> length r1 = length r2) /\
   exists s, new py_float csv (header :: body) = Ok s) \/
  ((exists r1 r2, r1 ∈ admitted body /\ r2 ∈ admitted body /\ length r1 <> length r2) /\
   new py_float csv (header :: body) = Raise ValueError).
Proof.
  rewrite new_unfold. unfold numeric_rows.
  destruct (admitted body) as [|row rows] eqn:E; [by left |]. right.
  pose proof (admitted_long body row) as Hrow. rewrite E in Hrow.
  specialize (Hrow ltac:(left)).
  cbn [fmap list_fmap np_array].
  destruct (forallb _ _) eqn:Hall.
  - left. split; [done |]. split; [| simpl; eauto].
    rewrite forallb_forall in Hall.
    assert (forall r, r ∈ row :: rows -> length r = length row) as Hlen.
    { intros r Hr. pose proof (admitted_long body r) as Hr2. rewrite E in Hr2.
      specialize (Hr2 Hr).
      specialize (Hall ((fun val => default NaN (py_float val)) <$> drop 2 r)).
      rewrite !numeric_row_length in Hall. apply Nat.eqb_eq in Hall; [lia |].
      apply list_elem_of_In.
      change (((fun val => default NaN (py_float val)) <$> drop 2 row)
              :: ((fun r0 => (fun val => default NaN (py_float val)) <$> drop 2 r0) <$> rows))
        with ((fun r0 => (fun val => default NaN (py_float val)) <$> drop 2 r0) <$> row :: rows).
      apply list_elem_of_fmap. by exists r. }
    intros r1 r2 H1 H2. by rewrite (Hlen r1 H1), (Hlen r2 H2).
  - right. split; [| done].
    apply forallb_false in Hall as (x & Hx & Hf).
    change (((fun val => default NaN (py_float val)) <$> drop 2 row)
            :: ((fun r0 => (fun val => default NaN (py_float val)) <$> drop 2 r0) <$> rows))
      with ((fun r0 => (fun val => default NaN (py_float val)) <$> drop 2 r0) <$> row :: rows)
      in Hx.
    apply list_elem_of_fmap in Hx as (r & -> & Hr).
    rewrite !numeric_row_length in Hf. apply Nat.eqb_neq in Hf.
    exists r, row. split; [done |]. split; [by left | lia].
Qed.

(** X3: what the constructor does with the rows [csv.reader] yields: with
    no header row it raises [StopIteration]; with no data row of more than
    two fields it raises [IndexError]; with two admitted rows of different
    length it raises [ValueError]; and with at least one admitted row, all
    of one length, it returns an analyzer. *)
Theorem loader_outcomes csv :
  new py_float csv [] = Raise StopIteration /\
  (forall header body, admitted body = [] ->
     new py_float csv (header :: body) = Raise IndexError) /\
  (forall header body r1 r2,
     r1 ∈ admitted body -> r2 ∈ admitted body -> length r1 <> length r2 ->
     new py_float csv (header :: body) = Raise ValueError) /\
  (forall header body,
     admitted body <> [] ->
     (forall r1 r2, r1 ∈ admitted body -> r2 ∈ admitted body -> length r1 = length r2) ->
     exists s, new py_float csv (header :: body) = Ok s).
Proof.
  split; [done |]. split; [| split].
  - intros header body Hnone.
    destruct (new_cases csv header body)
      as [[_ ->] | [(Hsome & _) | [(r1 & _ & H1 & _) _]]]; [done | done |].
    rewrite Hnone in H1. by apply elem_of_nil in H1.
  - intros header body r1 r2 H1 H2 Hne.
    destruct (new_cases csv header body)
      as [[Hnone _] | [(_ & Hsame & _) | [_ ->]]]; [| | done].
    + rewrite Hnone in H1. by apply elem_of_nil in H1.
    + by specialize (Hsame r1 r2 H1 H2).
  - intros header body Hsome Hsame.
    destruct (new_cases csv header body)
      as [[Hnone _] | [(_ & _ & Hs) | [(r1 & r2 & H1 & H2 & Hne) _]]]; [done | done |].
    by specialize (Hsame r1 r2 H1 H2).
Qed.

(** X4: row [i] of a loaded dataset is the [i]-th admitted data row of the
    file: its first two fields are the country and the region, and each
    further field is the cell [float()] parses it to, or NaN when [float()]
    refuses it. *)
Theorem loader_stores_admitted_rows csv header body s :
  new py_float csv (header :: body) = Ok s ->
  csv_file s = csv /\ headers s = header /\
  length (country_names s) = length (admitted body) /\
  forall i row, admitted body !! i = Some row ->
    country_names s !! i = Some (nth 0 row "") /\
    regional_indicators s !! i = Some (nth 1 row "") /\
    forall j, (j + 2 < length row)%nat ->
      cell s i j = default NaN (py_float (nth (j + 2) row "")).
Proof.
  rewrite new_unfold.
  destruct (np_array (numeric_rows py_float body)) as [a|e] eqn:Ha; simpl; [| done].
  destruct (py_index (shape a) 1) as [w0|e]; simpl; [| done]. intros [= <-].
  apply np_array_shape in Ha as [Hcells _]. 
  unfold loaded_names, indexed, set_headers, set_data, blank.
  cbn [csv_file headers country_names regional_indicators data app].
  split; [done |]. split; [done |]. split; [by rewrite length_fmap |].
  intros i row Hrow. rewrite !list_lookup_fmap, Hrow. split; [done |]. split; [done |].
  intros j Hj. unfold cell, matrix. cbn [data from_option]. rewrite Hcells. unfold numeric_rows.
  rewrite (nth_lookup_Some _ i [] ((fun val => default NaN (py_float val)) <$> drop 2 row))
    by (by rewrite list_lookup_fmap, Hrow).
  assert (drop 2 row !! j = Some (nth (j + 2) row "")) as Hfield.
  { rewrite lookup_drop. 
    replace (2 + j)%nat with (j + 2)%nat by lia.
    destruct (lookup_lt_is_Some_2 row (j + 2) Hj) as [x Hx].
    by rewrite Hx, (nth_lookup_Some _ _ "" _ Hx). }
  apply nth_lookup_Some. by rewrite list_lookup_fmap, Hfield.
Qed.

End Loader_cases.

(** ** The rows of a region *)

Lemma zip_nil_r {A B} (l : list A) : zip l (@nil B) = [].
Proof. by destruct l. Qed.

Lemma zip_region_rows {A B} (region : string) (regions : list string) :
  forall (l : list A) (k : list B),
  zip (snd <$> filter (fun p => fst p = region) (zip regions l))
      (snd <$> filter (fun p => fst p = region) (zip regions k))
  = snd <$> filter (fun p => fst p = region) (zip regions (zip l k)).
Proof.
  induction regions as [|r rs IH]; intros l k; [done |].
  destruct l as [|x l]; [done |].
  destruct k as [|y k]; [simpl; by rewrite zip_nil_r |].
  cbn [zip zip_with]. rewrite !filter_cons. cbn [fst].
  destruct (decide (r = region)); [| apply IH].
  cbn [fmap list_fmap snd zip zip_with]. f_equal. apply IH.
Qed.

Lemma mapR_length {A B} (f : A -> result B) (l : list A) (out : list B) :
  mapR f l = Ok out -> length out = length l.
Proof.
  revert out. induction l as [|x l IH]; intros out; simpl; [by intros [= <-] |].
  destruct (f x) as [y|e]; simpl; [| done].
  destruct (mapR f l) as [ys|e]; simpl; [| done].
  intros [= <-]. simpl. by rewrite (IH ys).
Qed.

(** X5: for a dataset with one name and one region per matrix row,
    [filter_by_region] never raises: it returns the names and the matrix
    rows of the rows whose region equals the argument, paired as in the
    dataset and in row order, in a matrix with one row per returned name
    and the width of the dataset; a region no row carries gives no name
    and a matrix without rows. *)
Theorem filter_by_region_selects s n w region :
  well_formed s n w ->
  exists countries d,
    run (filter_by_region region) s = Ok (countries, d) /\
    shape d = [length countries; w] /\
    length (cells d) = length countries /\
    zip countries (cells d)
    = snd <$> filter (fun p => fst p = region)
                (zip (regional_indicators s) (zip (country_names s) (matrix s))) /\
    (forall c r, (c, r) ∈ zip countries (cells d) <->
       exists i, regional_indicators s !! i = Some region /\
                 country_names s !! i = Some c /\ matrix s !! i = Some r) /\
    (region ∉ regional_indicators s -> countries = [] /\ cells d = []).
Proof.
  intros Hwf.
  destruct (well_formed_matrix _ _ _ Hwf) as (a & Hd & Hs & Hm & Hl).
  destruct Hwf as (_ & Hnames & Hregions).
  eexists _, _. split.
  { unfold filter_by_region.
    rewrite run_bind, run_gets by auto with readonly. simpl.
    rewrite run_bind, run_gets by auto with readonly. simpl.
    rewrite run_bind, run_lift by auto with readonly.
    rewrite rows_of_region_enumerate by lia. simpl.
    rewrite run_bind, run_get_data, Hd by auto with readonly. simpl.
    rewrite run_bind, run_lift by auto with readonly.
    unfold arr_rows. rewrite Hs.
    rewrite rows_of_region_enumerate by (rewrite <- Hm; lia). simpl.
    rewrite run_ret, <- Hm. reflexivity. }
  cbn [shape cells].
  assert (forall A (l : list A), length l = length (regional_indicators s) ->
            length (snd <$> filter (fun p => fst p = region) (zip (regional_indicators s) l))
            = length (fst <$> filter (fun p => snd p = region)
                                (enumerate (regional_indicators s))))
    as Hcount.
  { intros A l Hlen. apply (mapR_length (py_index l)).
    by apply rows_of_region_enumerate. }
  split; [by rewrite Hcount by lia |].
  split; [by rewrite !Hcount by lia |].
  split; [apply zip_region_rows |].
  split.
  - intros c r. rewrite zip_region_rows, region_rows_lookup.
    split.
    + intros (i & Hr & Hi). apply lookup_zip_with_Some in Hi as (x & y & [= <- <-] & ? & ?).
      eauto.
    + intros (i & Hr & Hc & Hrow). exists i. split; [done |].
      apply lookup_zip_with_Some. eauto.
  - intros Hnot. by rewrite !region_rows_absent.
Qed.

(** ** The dictionary of regions *)

Section Region_table.

Variable sqrt64 : Qc -> Qc.

(** X6: for a known column, [compare_regions] returns a dictionary whose
    keys are the regions with at least one row whose value is not MISSING;
    each key maps to the mean, median, standard deviation and count of the
    region's non-missing values.  A region whose values are all MISSING, or
    that no row carries, has no entry. *)
Theorem compare_regions_entries s n w name j :
  well_formed s n w -> resolves s w name j ->
  exists results,
    run (compare_regions sqrt64 name) s = Ok results /\
    (forall region,
       is_Some (results !! region) <->
       exists i v, regional_indicators s !! i = Some region /\
                   column s j !! i = Some v /\ isnan v = false) /\
    (forall region st, results !! region = Some st ->
       st = region_statistics_of sqrt64
              (region_values (regional_indicators s) (column s j) region) /\
       (0 < region_count st)%nat) /\
    (forall region, region ∉ regional_indicators s -> results !! region = None).
Proof.
  intros Hwf Hf. rewrite (run_compare_regions _ _ _ _ _ _ Hwf Hf).
  eexists. split; [reflexivity |]. split; [| split].
  - intros region. rewrite regions_of_lookup_total. split.
    + case_bool_decide as Hvals; [| by intros [? ?]]. intros _.
      destruct (region_values _ _ region) as [|v vs] eqn:E; [done |].
      assert (v ∈ region_values (regional_indicators s) (column s j) region) as Hv
        by (rewrite E; left).
      apply region_values_elem in Hv as (i & ? & ? & ?). eauto.
    + intros (i & v & Hr & Hv & Hnan).
      assert (v ∈ region_values (regional_indicators s) (column s j) region) as Hin
        by (apply region_values_elem; eauto).
      rewrite bool_decide_eq_true_2; [done |]. intros Hnil. rewrite Hnil in Hin.
      by apply elem_of_nil in Hin.
  - intros region st. rewrite regions_of_lookup_total.
    case_bool_decide as Hvals; [| done]. intros [= <-]. split; [done |]. simpl.
    destruct (region_values _ _ region); [done | simpl; lia].
  - intros region Hout. rewrite regions_of_lookup_total.
    by rewrite bool_decide_eq_false_2 by (intros H; apply H; by apply region_values_absent).
Qed.

(** X7: the dictionary [compare_regions] builds does not depend on the
    order in which [list(set(...))] lists the regions: the loop over any
    list holding exactly the regions of the dataset, in any order and with
    any repetitions, returns what the method returns. *)
Theorem compare_regions_any_order s n w name j c (order : list string) :
  well_formed s n w -> resolves s w name j ->
  run (get_column_index name) s = Ok c ->
  (forall region, region ∈ order <-> region ∈ regional_indicators s) ->
  run (foldM (compare_region sqrt64 c) ∅ order) s = run (compare_regions sqrt64 name) s.
Proof.
  intros Hwf Hf Hc Horder. rewrite (run_compare_regions _ _ _ _ _ _ Hwf Hf).
  destruct (run_resolved _ _ _ _ Hf) as (c' & Hc' & Hj).
  rewrite Hc in Hc'. injection Hc' as <-.
  rewrite (run_compare_fold sqrt64 s n w c j order Hwf Hj). f_equal.
  apply map_eq. intros region.
  rewrite regions_of_lookup_total, record_fold_lookup, lookup_empty.
  destruct (decide (region_values (regional_indicators s) (column s j) region = []))
    as [Hnil|Hvals].
  { rewrite (bool_decide_eq_false_2 (_ /\ _)) by (by intros [_ ?]).
    by rewrite bool_decide_eq_false_2 by (by intros ?). }
  rewrite (bool_decide_eq_true_2 (_ /\ _)); [by rewrite bool_decide_eq_true_2 |].
  split; [| done].
  apply Horder. destruct (decide (region ∈ regional_indicators s)) as [|Hout]; [done |].
  by apply (region_values_absent _ (column s j)) in Hout.
Qed.

End Region_table.

(** ** The counts of the regions *)

Lemma sum_list_with_zero {A} (f : A -> nat) (l : list A) :
  (forall x, x ∈ l -> f x = 0%nat) -> sum_list_with f l = 0%nat.
Proof.
  induction l as [|x l IH]; intros H; [done |]. cbn [sum_list_with].
  rewrite (H x) by left. rewrite IH; [done |]. intros y Hy. apply H. by right.
Qed.

Lemma sum_list_with_indicator (r : string) (ks : list string) :
  NoDup ks -> r ∈ ks ->
  sum_list_with (fun k => if decide (r = k) then 1%nat else 0%nat) ks = 1%nat.
Proof.
  induction 1 as [|k ks Hk Hnd IH]; intros Hin; [by apply elem_of_nil in Hin |].
  cbn [sum_list_with]. apply elem_of_cons in Hin as [->|Hin].
  - rewrite decide_True by done.
    rewrite sum_list_with_zero; [done |]. intros k' Hk'.
    rewrite decide_False; [done |]. by intros <-.
  - rewrite decide_False by (by intros <-). by rewrite IH.
Qed.

Lemma sum_list_with_add {A} (f g : A -> nat) (l : list A) :
  sum_list_with (fun x => (f x + g x)%nat) l
  = (sum_list_with f l + sum_list_with g l)%nat.
Proof. induction l as [|x l IH]; [done |]. cbn [sum_list_with]. rewrite IH. lia. Qed.

Lemma sum_list_with_ext {A} (f g : A -> nat) (l : list A) :
  (forall x, f x = g x) -> sum_list_with f l = sum_list_with g l.
Proof. intros H. induction l as [|x l IH]; [done |]. cbn [sum_list_with]. by rewrite H, IH. Qed.

(** The non-missing values of a column, split by region, are as many as
    the non-missing values of the column. *)
Lemma region_values_partition (ks : list string) :
  NoDup ks -> forall regions xs,
  length regions = length xs -> (forall r, r ∈ regions -> r ∈ ks) ->
  sum_list_with (fun k => length (region_values regions xs k)) ks = length (present xs).
Proof.
  intros Hnd. induction regions as [|r rs IH]; intros [|x xs] Hlen Hks; try done.
  - unfold region_values, present. simpl. by apply sum_list_with_zero.
  - injection Hlen as Hlen.
    assert (forall k, length (region_values (r :: rs) (x :: xs) k)
                      = ((if decide (r = k) then if isnan x then 0 else 1 else 0)
                         + length (region_values rs xs k))%nat) as Hstep.
    { intros k. unfold region_values, present. cbn [zip zip_with].
      rewrite filter_cons. cbn [fst]. destruct (decide (r = k)); [| done].
      cbn [fmap list_fmap snd]. rewrite filter_cons.
      destruct (isnan x); [by rewrite decide_False by done |].
      by rewrite decide_True by done. }
    rewrite (sum_list_with_ext _ _ ks Hstep). clear Hstep.
    rewrite sum_list_with_add, IH by (try done; intros r' ?; apply Hks; by right).
    unfold present at 2. rewrite filter_cons.
    destruct (isnan x) eqn:Hx.
    + rewrite decide_False by done.
      rewrite sum_list_with_zero; [done |]. intros k _. by case_decide.
    + rewrite decide_True by done.
      rewrite sum_list_with_indicator by (try done; apply Hks; by left). done.
Qed.

Section Region_counts.

Variable sqrt64 : Qc -> Qc.

Lemma record_fold_counts regions xs (l : list string) :
  NoDup l -> forall results : gmap string region_statistics,
  (forall r, r ∈ l -> results !! r = None) ->
  sum_list_with (fun p => region_count (snd p))
    (map_to_list (foldl (record_region sqrt64 regions xs) results l))
  = (sum_list_with (fun p => region_count (snd p)) (map_to_list results)
     + sum_list_with (fun k => length (region_values regions xs k)) l)%nat.
Proof.
  induction 1 as [|r l Hr Hnd IH]; intros results Hfresh; [simpl; lia |].
  cbn [foldl sum_list_with]. rewrite IH.
  - unfold record_region. cbv zeta. case_bool_decide as Hpos.
    + rewrite map_to_list_insert by (apply Hfresh; left). cbn [sum_list_with snd].
      unfold region_statistics_of. cbn [region_count]. lia.
    + assert (length (region_values regions xs r) = 0%nat) as -> by lia. lia.
  - intros r' Hr'. unfold record_region. cbv zeta. case_bool_decide.
    + rewrite lookup_insert_ne by (by intros ->). apply Hfresh. by right.
    + apply Hfresh. by right.
Qed.

(** X8: the counts [compare_regions] records for the regions add up to
    the number of non-missing values of the column, the [count] of
    [get_basic_statistics]: every row with a value is counted in exactly
    one region. *)
Theorem region_counts_add_up s n w name j :
  well_formed s n w -> resolves s w name j ->
  exists results,
    run (compare_regions sqrt64 name) s = Ok results /\
    sum_list_with (fun p => region_count (snd p)) (map_to_list results)
    = length (present (column s j)) /\
    forall st, run (get_basic_statistics sqrt64 name) s = Ok st ->
      sum_list_with (fun p => region_count (snd p)) (map_to_list results) = stat_count st.
Proof.
  intros Hwf Hf. rewrite (run_compare_regions _ _ _ _ _ _ Hwf Hf).
  rewrite (run_get_basic_statistics _ _ _ _ _ _ Hwf Hf).
  eexists. split; [reflexivity |].
  assert (sum_list_with (fun p => region_count (snd p))
            (map_to_list (regions_of sqrt64 (regional_indicators s) (column s j)))
          = length (present (column s j))) as Hsum.
  { unfold regions_of. rewrite record_fold_counts.
    - rewrite map_to_list_empty. cbn [sum_list_with].
      rewrite region_values_partition; [done | apply NoDup_elements | |].
      + rewrite (length_column s n w) by done. by destruct Hwf as (_ & _ & ?).
      + intros r Hr. by apply elem_of_elements, elem_of_list_to_set.
    - apply NoDup_elements.
    - intros r _. apply lookup_empty. }
  split; [done |]. intros st Hst. rewrite Hsum.
  by destruct (statistics_of_std _ _ _ Hst) as [_ ->].
Qed.

End Region_counts.

(** ** The rows [find_outliers] returns *)

Lemma fle_flt_trans a b c : fle a b = true -> flt b c = true -> flt a c = true.
Proof.
  destruct a as [|sa|p], b as [|sb|q], c as [|sc|r]; simpl; try done;
    repeat match goal with b : bool |- _ => destruct b end; simpl; try done.
  intros H1 H2. apply bool_decide_eq_true in H1, H2. apply bool_decide_eq_true.
  by eapply Qcle_lt_trans.
Qed.

Lemma filter_none {A} (P : A -> Prop) `{forall x, Decision (P x)} (l : list A) :
  (forall x, x ∈ l -> ~ P x) -> filter P l = [].
Proof.
  induction l as [|x l IH]; intros Hl; [done |]. rewrite filter_cons.
  rewrite decide_False by (apply Hl; left). apply IH. intros y Hy. apply Hl. by right.
Qed.

Lemma filter_sublist_impl {A} (P Q : A -> Prop) `{forall x, Decision (P x)}
    `{forall x, Decision (Q x)} (l : list A) :
  (forall x, P x -> Q x) -> filter P l `sublist_of` filter Q l.
Proof.
  intros HPQ. induction l as [|x l IH]; [done |]. rewrite !filter_cons.
  destruct (decide (P x)) as [HP|HP].
  - rewrite decide_True by auto. by constructor.
  - destruct (decide (Q x)); [by constructor | done].
Qed.

Section Outliers.

Variable sqrt64 : Qc -> Qc.

(** X9: for a known column, [find_outliers] never raises and returns,
    in row order, one triple (country, value, z-score) for each row whose
    value is not MISSING and whose z-score exceeds the threshold, and
    nothing else; the z-score is the distance of the value from the mean
    of the non-missing values in units of their standard deviation. *)
Theorem find_outliers_rows s n w name j threshold :
  well_formed s n w -> resolves s w name j ->
  exists outliers,
    run (find_outliers sqrt64 name threshold) s = Ok outliers /\
    outliers
    = (fun p => (fst p, snd p, z_score sqrt64 (column s j) (snd p))) <$>
        filter (fun p => isnan (snd p) = false /\
                         fgt (z_score sqrt64 (column s j) (snd p)) threshold = true)
          (zip (country_names s) (column s j)) /\
    forall c v z, (c, v, z) ∈ outliers <->
      exists i, country_names s !! i = Some c /\ column s j !! i = Some v /\
                isnan v = false /\ z = z_score sqrt64 (column s j) v /\
                fgt z threshold = true.
Proof.
  intros Hwf Hf. rewrite (run_find_outliers _ _ _ _ _ _ _ Hwf Hf).
  assert (length (country_names s) = length (column s j)) as Hlen.
  { rewrite (length_column s n w) by done. by destruct Hwf as (_ & ? & _). }
  rewrite outliers_of_rows by done. eexists. split; [reflexivity |]. split; [done |].
  intros c v z. rewrite list_elem_of_fmap. split.
  - intros ([c' v'] & [= -> -> ->] & Hin). simpl in *.
    apply list_elem_of_filter in Hin as [[Hnan Hgt] Hin]. simpl in *.
    apply list_elem_of_lookup in Hin as [i Hi].
    apply lookup_zip_with_Some in Hi as (a & b & [= <- <-] & Ha & Hb).
    exists i. eauto.
  - intros (i & Hc & Hv & Hnan & -> & Hgt). exists (c, v). split; [done |].
    apply list_elem_of_filter. split; [done |].
    apply list_elem_of_lookup. exists i. apply lookup_zip_with_Some. eauto.
Qed.

(** X10: raising the threshold never adds an outlier: the outliers at a
    threshold are, in the same order, among the outliers at any smaller
    threshold. *)
Theorem find_outliers_threshold s n w name j low high :
  well_formed s n w -> resolves s w name j -> fle low high = true ->
  exists at_low at_high,
    run (find_outliers sqrt64 name low) s = Ok at_low /\
    run (find_outliers sqrt64 name high) s = Ok at_high /\
    at_high `sublist_of` at_low.
Proof.
  intros Hwf Hf Hle. rewrite !(run_find_outliers _ _ _ _ _ _ _ Hwf Hf).
  assert (length (country_names s) = length (column s j)) as Hlen.
  { rewrite (length_column s n w) by done. by destruct Hwf as (_ & ? & _). }
  rewrite !outliers_of_rows by done. eexists _, _. split; [done |]. split; [done |].
  apply fmap_sublist, filter_sublist_impl. intros p [Hnan Hgt]. split; [done |].
  unfold fgt in *. by eapply fle_flt_trans.
Qed.

Lemma z_score_single v x :
  sqrt64 0%Qc = 0%Qc -> isnan v = false -> isnan x = true \/ x = v ->
  z_score sqrt64 [v] x = NaN.
Proof.
  intros Hsqrt Hv [Hx | ->]; unfold z_score.
  { by destruct x. }
  assert (present [v] = [v]) as -> by (unfold present; by rewrite filter_cons, decide_True).
  destruct (deviation_of_single v Hv) as [Hd | ->]; [| done].
  rewrite Hd. unfold np_std, np_var, sq_dev. cbn [fmap list_fmap]. rewrite Hd.
  assert (fdiv (fsum [fmul (Fin 0%Qc) (Fin 0%Qc)]) (of_nat (length [v] - 0)) = Fin 0%Qc) as ->
    by (vm_compute; apply (f_equal Fin), Qc_is_canon; reflexivity).
  unfold np_sqrt, Qc_neg.
  rewrite bool_decide_eq_false_2 by (intros Hlt; by apply Qclt_not_eq in Hlt).
  rewrite Hsqrt. by vm_compute.
Qed.

(** X11: when at most one value of a known column is not MISSING,
    [find_outliers] returns the empty list whatever the threshold: the one
    value is its own mean, the standard deviation is zero and the z-score
    is [0 / 0]. *)
Theorem find_outliers_of_single_value s n w name j threshold :
  sqrt64 0%Qc = 0%Qc ->
  well_formed s n w -> resolves s w name j ->
  (length (present (column s j)) <= 1)%nat ->
  run (find_outliers sqrt64 name threshold) s = Ok [].
Proof.
  intros Hsqrt Hwf Hf Hfew. rewrite (run_find_outliers _ _ _ _ _ _ _ Hwf Hf).
  assert (length (country_names s) = length (column s j)) as Hlen.
  { rewrite (length_column s n w) by done. by destruct Hwf as (_ & ? & _). }
  rewrite outliers_of_rows by done. f_equal.
  rewrite filter_none; [done |].
  intros [c x] Hin [Hnan Hgt]. simpl in *.
  assert (x ∈ present (column s j)) as Hx.
  { unfold present. apply list_elem_of_filter. split; [done |].
    apply list_elem_of_lookup in Hin as [i Hi].
    apply lookup_zip_with_Some in Hi as (a & b & [= <- <-] & _ & Hb).
    by eapply list_elem_of_lookup_2. }
  unfold z_score in Hgt.
  destruct (present (column s j)) as [|v [|? ?]] eqn:E;
    [by apply elem_of_nil in Hx | | simpl in Hfew; lia].
  apply list_elem_of_singleton in Hx as ->.
  pose proof (z_score_single v v Hsqrt Hnan (or_intror eq_refl)) as Hz.
  unfold z_score in Hz.
  assert (present [v] = [v]) as Hp by (unfold present; by rewrite filter_cons, decide_True).
  rewrite Hp in Hz. rewrite Hz in Hgt. unfold fgt in Hgt. by rewrite flt_nan_r in Hgt.
Qed.

End Outliers.

(** ** Rankings for a negative count *)

Lemma length_valid_pairs names xs :
  length names = length xs -> length (valid_pairs names xs) = length (present xs).
Proof.
  revert xs. unfold valid_pairs, present.
  induction names as [|c names IH]; intros [|x xs] Hlen; simpl in Hlen; try done.
  injection Hlen as Hlen. cbn [zip zip_with]. rewrite !filter_cons. cbn [snd].
  destruct (decide (isnan x = false)); simpl; by rewrite IH.
Qed.

Section Negative_count.

Variable argsort : list float64 -> list nat.
Hypothesis argsort_ok : argsort_contract argsort.

Lemma length_ranked names xs :
  length (ranked argsort names xs) = length (valid_pairs names xs).
Proof. by rewrite (ranked_permutation argsort argsort_ok). Qed.

Lemma bottom_of_negative names xs k :
  k < 0 ->
  bottom_of argsort names xs k
  = Ok (take (length (ranked argsort names xs) - Z.to_nat (- k)) (ranked argsort names xs)).
Proof.
  intros Hk. unfold bottom_of, py_take. cbv zeta.
  rewrite bool_decide_eq_true_2 by lia.
  rewrite (mapR_py_index _ ("", NaN)).
  - unfold ranked. by rewrite fmap_take, length_fmap.
  - apply Forall_take, argsort_in_range, argsort_ok.
Qed.

Lemma top_of_negative names xs k :
  k < 0 ->
  top_of argsort names xs k
  = Ok (take (length (ranked argsort names xs) - Z.to_nat (- k))
          (reverse (ranked argsort names xs))).
Proof.
  intros Hk. unfold top_of, py_take. cbv zeta.
  rewrite bool_decide_eq_true_2 by lia.
  rewrite (mapR_py_index _ ("", NaN)).
  - unfold ranked. by rewrite fmap_take, fmap_reverse, length_reverse, length_fmap.
  - apply Forall_take, Forall_reverse, argsort_in_range, argsort_ok.
Qed.

(** X12: for a known column and a negative count [k], the two rankings
    do not fail: as Python's
    [[:k]] does, they drop the last [-k] entries of the full ranking, so
    [get_top_countries] leaves out the [-k] lowest and
    [get_bottom_countries] the [-k] highest of the [N] rows with a value,
    and each returns [N + k] pairs, or none when [N <= -k]. *)
Theorem rankings_for_negative_count s n w name j k :
  well_formed s n w -> resolves s w name j -> k < 0 ->
  exists ranking : list (string * float64),
    ranking ≡ₚ valid_pairs (country_names s) (column s j) /\
    ascending ranking /\
    length ranking = length (present (column s j)) /\
    run (get_bottom_countries argsort name k) s
    = Ok (take (length ranking - Z.to_nat (- k)) ranking) /\
    run (get_top_countries argsort name k) s
    = Ok (take (length ranking - Z.to_nat (- k)) (reverse ranking)).
Proof.
  intros Hwf Hf Hk.
  exists (ranked argsort (country_names s) (column s j)).
  split; [by apply ranked_permutation |].
  split; [by apply ranked_ascending |].
  split.
  { rewrite length_ranked. apply length_valid_pairs.
    rewrite (length_column s n w) by done. by destruct Hwf as (_ & ? & _). }
  rewrite (run_get_bottom_countries _ _ _ _ _ _ _ Hwf Hf).
  rewrite (run_get_top_countries _ _ _ _ _ _ _ Hwf Hf).
  by rewrite bottom_of_negative, top_of_negative.
Qed.

End Negative_count.

(** ** The range of the percentile rank *)

Lemma flt_irrefl v : flt v v = false.
Proof.
  destruct v as [|a|q]; simpl; [done | by destruct a |].
  apply bool_decide_eq_false_2. intros H. by apply Qclt_not_eq in H.
Qed.

Lemma length_filter_lt {A} (P : A -> Prop) `{forall x, Decision (P x)} (l : list A) x :
  x ∈ l -> ~ P x -> (length (filter P l) < length l)%nat.
Proof.
  induction l as [|y l IH]; intros Hin Hx; [by apply elem_of_nil in Hin |].
  rewrite filter_cons. apply elem_of_cons in Hin as [<-|Hin].
  - rewrite decide_False by done. pose proof (length_filter P l). simpl. lia.
  - specialize (IH Hin Hx). case_decide; simpl; lia.
Qed.

Lemma count_below_lt_present v xs :
  (0 < length (present xs))%nat -> v ∈ xs -> (count_below v xs < length (present xs))%nat.
Proof.
  intros Hpos Hin. destruct (isnan v) eqn:Hv.
  - destruct v; try done. by rewrite count_below_nan.
  - rewrite <- filter_below. apply length_filter_lt with v.
    + unfold present. by apply list_elem_of_filter.
    + by rewrite flt_irrefl.
Qed.

Lemma percent_range k n : (k < n)%nat -> (0 <= percent k n)%Qc /\ (percent k n < Qc_of_Z 100)%Qc.
Proof.
  intros H. split.
  - rewrite <- (percent_zero n) by lia. apply percent_mono. lia.
  - unfold percent, Qcdiv.
    assert (0 < Qc_of_Z (Z.of_nat n))%Qc as Hn.
    { rewrite <- Z2Qc_inj_0. apply (proj1 (Z2Qc_inj_lt _ _)). lia. }
    assert (Qc_of_Z 100 = Qc_of_Z 100 * Qc_of_Z (Z.of_nat n) * / Qc_of_Z (Z.of_nat n))%Qc
      as Hone.
    { field. intros E. rewrite E in Hn. by apply Qclt_not_eq in Hn. }
    rewrite Hone at 2. apply Qcmult_lt_compat_r; [by apply Qcinv_pos |].
    rewrite !(Qcmult_comm (Qc_of_Z 100)). apply Qcmult_lt_compat_r.
    + rewrite <- Z2Qc_inj_0. apply (proj1 (Z2Qc_inj_lt _ _)). lia.
    + apply (proj1 (Z2Qc_inj_lt _ _)). lia.
Qed.

(** X13: for a known column and a country of the dataset,
    [calculate_percentile_rank] returns a number from 0 up to, but never
    reaching, 100: the country's own row is never counted as below
    itself.  The only other result is NaN, returned exactly when the column
    has no value at all. *)
Theorem percentile_rank_range s n w name j country :
  well_formed s n w -> resolves s w name j -> country ∈ country_names s ->
  exists r,
    run (calculate_percentile_rank country name) s = Ok r /\
    (present (column s j) = [] -> r = NaN) /\
    (present (column s j) <> [] ->
     exists q, r = Fin q /\ (0 <= q)%Qc /\ (q < Qc_of_Z 100)%Qc).
Proof.
  intros Hwf Hf Hin.
  destruct (list_index_present _ _ Hin) as [idx Hidx].
  apply list_index_first in Hidx.
  rewrite (run_calculate_percentile_rank _ _ _ _ _ _ _ Hwf Hf Hidx).
  eexists. split; [reflexivity |].
  pose proof (count_below_le_present (cell s idx j) (column s j)) as Hle.
  split.
  - intros Hnone. rewrite Hnone in *. simpl in Hle.
    assert (count_below (cell s idx j) (column s j) = 0%nat) as -> by lia.
    by vm_compute.
  - intros Hsome.
    assert (0 < length (present (column s j)))%nat as Hpos
      by (destruct (present (column s j)); [done | simpl; lia]).
    rewrite percent_of_counts by done. eexists. split; [reflexivity |].
    apply percent_range, count_below_lt_present; [done |].
    apply cell_in_column. apply first_row_lt in Hidx.
    destruct (well_formed_matrix _ _ _ Hwf) as (a & _ & _ & _ & Hl).
    destruct Hwf as (_ & Hnames & _). lia.
Qed.

(** ** The dictionary of a country *)

(** The loop of [get_country_data] over the feature headers. *)
Lemma run_country_field s a n w idx (result : gmap string field) header p :
  data s = Some a -> shape a = [n; w] -> (idx < length (cells a))%nat ->
  column_map s !! header = Some p ->
  run (col_idx <- get_column_index header ;;
       a <- get_data ;;
       v <- lift (arr_item a idx col_idx) ;;
       ret (<[header := Number v]> result))%M s
  = (j ← norm_index w (Z.of_nat p - 2);
     Ok (<[header := Number (cell s idx j)]> result)).
Proof.
  intros Hd Hs Hidx Hp.
  rewrite run_bind, run_get_column_index, Hp by auto with readonly. simpl.
  rewrite run_bind, run_get_data, Hd by auto with readonly. simpl.
  rewrite run_bind, run_lift by auto with readonly.
  unfold arr_item, py_index. rewrite Hs.
  destruct (lookup_lt_is_Some_2 (cells a) idx Hidx) as [r Hr]. rewrite Hr. simpl.
  destruct (norm_index w (Z.of_nat p - 2)) as [j|e]; simpl; [| done].
  rewrite run_ret. unfold cell, matrix. rewrite Hd.
  by rewrite (nth_lookup_Some _ _ [] _ Hr).
Qed.

Lemma readonly_country_field idx (result : gmap string field) header :
  readonly (col_idx <- get_column_index header ;;
            a <- get_data ;;
            v <- lift (arr_item a idx col_idx) ;;
            ret (<[header := Number v]> result))%M.
Proof. solve_readonly. Qed.

Lemma norm_index_feature (w p : nat) :
  (2 <= p)%nat ->
  norm_index w (Z.of_nat p - 2)
  = if bool_decide (p < w + 2)%nat then Ok (p - 2)%nat else Raise IndexError.
Proof.
  intros Hp. unfold norm_index. case_bool_decide as Hlt.
  - rewrite bool_decide_eq_true_2 by lia. f_equal. lia.
  - by rewrite !bool_decide_eq_false_2 by lia.
Qed.

Lemma run_country_fields s n w idx (hs : list string) :
  well_formed s n w -> (idx < n)%nat ->
  Forall (fun h => exists p, column_map s !! h = Some p /\ (2 <= p < w + 2)%nat) hs ->
  forall result : gmap string field,
  exists result',
    run (foldM (fun result header =>
                  col_idx <- get_column_index header ;;
                  a <- get_data ;;
                  v <- lift (arr_item a idx col_idx) ;;
                  ret (<[header := Number v]> result))%M result hs) s = Ok result' /\
    forall key,
      result' !! key =
      if bool_decide (key ∈ hs)
      then p ← column_map s !! key; Some (Number (cell s idx (p - 2)))
      else result !! key.
Proof.
  intros Hwf Hidx.
  destruct (well_formed_matrix _ _ _ Hwf) as (a & Hd & Hs & Hm & Hl).
  rewrite Hm in Hl.
  induction 1 as [|h hs (p & Hp & Hrange) _ IH]; intros result.
  - exists result. split; [done |]. intros key.
    rewrite bool_decide_eq_false_2; [done |]. apply not_elem_of_nil.
  - cbn [foldM]. rewrite run_bind by apply readonly_country_field.
    rewrite (run_country_field s a n w idx result h p) by (try done; lia).
    rewrite norm_index_feature, bool_decide_eq_true_2 by lia. simpl.
    destruct (IH (<[h := Number (cell s idx (p - 2))]> result)) as (result' & Hrun & Hlook).
    exists result'. split; [done |]. intros key. rewrite Hlook.
    destruct (decide (key ∈ hs)) as [Hin|Hout].
    + rewrite !bool_decide_eq_true_2; [done | by right | done].
    + rewrite (bool_decide_eq_false_2 (key ∈ hs)) by done.
      destruct (decide (key = h)) as [->|Hne].
      * rewrite bool_decide_eq_true_2 by left. by rewrite lookup_insert_eq, Hp.
      * rewrite bool_decide_eq_false_2.
        -- by rewrite lookup_insert_ne.
        -- intros Hin. by apply elem_of_cons in Hin as [|].
Qed.

Lemma run_country_fields_out_of_range s n w idx (hs : list string) :
  well_formed s n w -> (idx < n)%nat ->
  Forall (fun h => exists p, column_map s !! h = Some p /\ (2 <= p)%nat) hs ->
  Exists (fun h => exists p, column_map s !! h = Some p /\ (w + 2 <= p)%nat) hs ->
  forall result : gmap string field,
    run (foldM (fun result header =>
                  col_idx <- get_column_index header ;;
                  a <- get_data ;;
                  v <- lift (arr_item a idx col_idx) ;;
                  ret (<[header := Number v]> result))%M result hs) s = Raise IndexError.
Proof.
  intros Hwf Hidx.
  destruct (well_formed_matrix _ _ _ Hwf) as (a & Hd & Hs & Hm & Hl).
  rewrite Hm in Hl.
  induction 1 as [|h hs (p & Hp & Hrange) _ IH]; intros Hex result.
  - by apply Exists_nil in Hex.
  - cbn [foldM]. rewrite run_bind by apply readonly_country_field.
    rewrite (run_country_field s a n w idx result h p) by (try done; lia).
    rewrite norm_index_feature by done.
    case_bool_decide as Hlt; simpl; [| done].
    apply IH. apply Exists_cons in Hex as [(p' & Hp' & Hwide)|Hex]; [| done].
    rewrite Hp in Hp'. injection Hp' as <-. lia.
Qed.

(** Where the index built from the header row sends a feature header. *)
Lemma feature_header_position s h :
  header_index s -> h ∈ drop 2 (headers s) ->
  exists p, column_map s !! h = Some p /\ (2 <= p < length (headers s))%nat /\
            headers s !! p = Some h /\ h ∉ drop (S p) (headers s).
Proof.
  intros Hidx Hin.
  assert (h ∈ headers s) as Hin'.
  { rewrite <- (take_drop 2 (headers s)). apply elem_of_app. by right. }
  destruct (last_occurrence _ _ Hin') as (p & Hp & Hlast).
  exists p. split; [rewrite Hidx; by apply index_of_headers |].
  split; [| done]. split; [| by eapply lookup_lt_Some].
  destruct (decide (2 <= p)%nat) as [|Hsmall]; [done |]. exfalso. apply Hlast.
  apply list_elem_of_lookup in Hin as [k Hk]. rewrite lookup_drop in Hk.
  apply list_elem_of_lookup. exists (2 + k - S p)%nat. rewrite lookup_drop.
  rewrite <- Hk. f_equal. lia.
Qed.

(** X14: [get_country_data] of a name that is in no row returns the
    empty dictionary, where [calculate_percentile_rank] raises.  For a
    country of a dataset whose header row is no wider than the matrix, it
    returns a dictionary whose keys are the two fixed identity keys and the
    feature headers; a feature header maps to the cell of the country's
    first row in the column of the header's last occurrence, and the
    identity keys map to the country and its region unless a feature header
    of the same name overwrites them. *)
Theorem country_data_fields s n w country :
  well_formed s n w -> header_index s -> (length (headers s) <= w + 2)%nat ->
  (country ∉ country_names s -> run (get_country_data country) s = Ok ∅) /\
  (forall idx, first_row (country_names s) country idx ->
     exists region result,
       regional_indicators s !! idx = Some region /\
       run (get_country_data country) s = Ok result /\
       (forall p h, headers s !! p = Some h -> (2 <= p)%nat ->
          h ∉ drop (S p) (headers s) ->
          result !! h = Some (Number (cell s idx (p - 2)))) /\
       ("Country name" ∉ drop 2 (headers s) ->
          result !! "Country name" = Some (Text country)) /\
       ("Regional indicator" ∉ drop 2 (headers s) ->
          result !! "Regional indicator" = Some (Text region)) /\
       (forall key, is_Some (result !! key) <->
          key = "Country name" \/ key = "Regional indicator" \/ key ∈ drop 2 (headers s))).
Proof.
  intros Hwf Hidx Hwide. split.
  { intros Hout. unfold get_country_data.
    rewrite run_bind, run_gets by auto with readonly. simpl.
    by rewrite (list_index_absent _ _ Hout). }
  intros idx Hrow. pose proof (first_row_lt _ _ _ Hrow) as Hlt.
  pose proof Hwf as (_ & Hnames & Hregions).
  destruct (lookup_lt_is_Some_2 (regional_indicators s) idx ltac:(lia)) as [region Hregion].
  destruct (run_country_fields s n w idx (drop 2 (headers s)) Hwf ltac:(lia))
    with (result := <["Regional indicator" := Text region]>
                      (<["Country name" := Text country]> (∅ : gmap string field)))
    as (result & Hrun & Hlook).
  { apply list.Forall_forall. intros h Hh.
    destruct (feature_header_position s h Hidx Hh) as (p & Hp & Hrange & _).
    exists p. split; [done | lia]. }
  exists region, result. split; [done |]. split.
  { unfold get_country_data.
    rewrite run_bind, run_gets by auto with readonly. simpl.
    rewrite (proj2 (list_index_first _ _ _) Hrow).
    rewrite run_bind, run_gets by auto with readonly. simpl.
    rewrite run_bind, run_lift by auto with readonly.
    unfold py_index. rewrite Hregion. simpl.
    rewrite run_bind, run_gets by auto with readonly. simpl. exact Hrun. }
  split; [| split; [| split]].
  - intros p h Hp Hp2 Hlast. rewrite Hlook.
    rewrite bool_decide_eq_true_2.
    + rewrite Hidx. by rewrite (proj2 (index_of_headers _ _ _) (conj Hp Hlast)).
    + apply list_elem_of_lookup. exists (p - 2)%nat. rewrite lookup_drop.
      rewrite <- Hp. f_equal. lia.
  - intros Hout. rewrite Hlook, bool_decide_eq_false_2 by done.
    by rewrite lookup_insert_ne, lookup_insert_eq.
  - intros Hout. rewrite Hlook, bool_decide_eq_false_2 by done.
    by rewrite lookup_insert_eq.
  - intros key. rewrite Hlook. case_bool_decide as Hkey.
    + destruct (feature_header_position s key Hidx Hkey) as (p & -> & _). simpl.
      split; [auto | by eexists].
    + destruct (decide (key = "Regional indicator")) as [->|Hne1].
      { rewrite lookup_insert_eq. split; [auto | by eexists]. }
      rewrite lookup_insert_ne by done.
      destruct (decide (key = "Country name")) as [->|Hne2].
      { rewrite lookup_insert_eq. split; [auto | by eexists]. }
      rewrite lookup_insert_ne by done. rewrite lookup_empty. split.
      * by intros [? ?].
      * intros [?|[?|?]]; done.
Qed.

(** X15: when the header row is wider than the matrix, as after loading a
    file whose data rows are shorter than its header, [get_country_data]
    raises [IndexError] for every country of the dataset. *)
Theorem country_data_of_short_rows s n w country :
  well_formed s n w -> header_index s -> (w + 2 < length (headers s))%nat ->
  country ∈ country_names s ->
  run (get_country_data country) s = Raise IndexError.
Proof.
  intros Hwf Hidx Hwide Hin.
  destruct (list_index_present _ _ Hin) as [idx Hrow].
  pose proof (first_row_lt _ _ _ (proj1 (list_index_first _ _ _) Hrow)) as Hlt.
  pose proof Hwf as (_ & Hnames & Hregions).
  destruct (lookup_lt_is_Some_2 (regional_indicators s) idx ltac:(lia)) as [region Hregion].
  unfold get_country_data.
  rewrite run_bind, run_gets by auto with readonly. simpl.
  rewrite Hrow.
  rewrite run_bind, run_gets by auto with readonly. simpl.
  rewrite run_bind, run_lift by auto with readonly.
  unfold py_index. rewrite Hregion. simpl.
  rewrite run_bind, run_gets by auto with readonly. simpl.
  apply (run_country_fields_out_of_range s n w idx); [done | lia | |].
  - apply list.Forall_forall. intros h Hh.
    destruct (feature_header_position s h Hidx Hh) as (p & Hp & Hrange & _).
    exists p. split; [done | lia].
  - apply Exists_exists.
    destruct (lookup_lt_is_Some_2 (headers s) (w + 2) Hwide) as [h Hh].
    assert (h ∈ drop 2 (headers s)) as Hfeature.
    { apply list_elem_of_lookup. exists w. rewrite lookup_drop. rewrite <- Hh. f_equal. lia. }
    exists h. split; [done |].
    destruct (feature_header_position s h Hidx Hfeature) as (p & Hp & Hrange & _ & Hlast).
    exists p. split; [done |].
    destruct (decide (w + 2 <= p)%nat) as [|Hsmall]; [done |]. exfalso. apply Hlast.
    apply list_elem_of_lookup. exists (w + 2 - S p)%nat. rewrite lookup_drop.
    rewrite <- Hh. f_equal. lia.
Qed.

(** ** The order statistics *)

(** The smallest and the largest of finitely many finite values. *)
Lemma foldl_fmin_Fin qs : forall a,
  exists m, foldl fmin (Fin a) (Fin <$> qs) = Fin m /\ m ∈ a :: qs /\
            forall x, x ∈ a :: qs -> (m <= x)%Qc.
Proof.
  induction qs as [|q qs IH]; intros a.
  - exists a. split; [done |]. split; [left |]. intros x Hx.
    apply list_elem_of_singleton in Hx as ->. apply Qcle_refl.
  - cbn [fmap list_fmap foldl]. unfold fmin at 2. cbn [isnan orb flt].
    case_bool_decide as Hlt.
    + destruct (IH q) as (m & Hm & Hin & Hle). exists m. split; [done |].
      split; [by right |]. intros x Hx. apply elem_of_cons in Hx as [->|Hx]; [| by apply Hle].
      apply Qcle_trans with q; [apply Hle; left | by apply Qclt_le_weak].
    + destruct (IH a) as (m & Hm & Hin & Hle). exists m. split; [done |].
      split.
      { apply elem_of_cons in Hin as [->|Hin]; [left | right; by right]. }
      intros x Hx. apply elem_of_cons in Hx as [->|Hx]; [apply Hle; left |].
      apply elem_of_cons in Hx as [->|Hx]; [| apply Hle; by right].
      apply Qcle_trans with a; [apply Hle; left | by apply Qcnot_lt_le].
Qed.

Lemma foldl_fmax_Fin qs : forall a,
  exists m, foldl fmax (Fin a) (Fin <$> qs) = Fin m /\ m ∈ a :: qs /\
            forall x, x ∈ a :: qs -> (x <= m)%Qc.
Proof.
  induction qs as [|q qs IH]; intros a.
  - exists a. split; [done |]. split; [left |]. intros x Hx.
    apply list_elem_of_singleton in Hx as ->. apply Qcle_refl.
  - cbn [fmap list_fmap foldl]. unfold fmax at 2. cbn [isnan orb flt].
    case_bool_decide as Hlt.
    + destruct (IH q) as (m & Hm & Hin & Hle). exists m. split; [done |].
      split; [by right |]. intros x Hx. apply elem_of_cons in Hx as [->|Hx]; [| by apply Hle].
      apply Qcle_trans with q; [by apply Qclt_le_weak | apply Hle; left].
    + destruct (IH a) as (m & Hm & Hin & Hle). exists m. split; [done |].
      split.
      { apply elem_of_cons in Hin as [->|Hin]; [left | right; by right]. }
      intros x Hx. apply elem_of_cons in Hx as [->|Hx]; [apply Hle; left |].
      apply elem_of_cons in Hx as [->|Hx]; [| apply Hle; by right].
      apply Qcle_trans with a; [by apply Qcnot_lt_le | apply Hle; left].
Qed.

(** The insertion sort of [np_median] on finite values. *)
Lemma insert_sorted_Fin q qs :
  StronglySorted Qcle qs ->
  exists qs', insert_sorted (Fin q) (Fin <$> qs) = Fin <$> qs' /\
              qs' ≡ₚ q :: qs /\ StronglySorted Qcle qs'.
Proof.
  induction qs as [|y qs IH]; intros Hs.
  - exists [q]. split; [done |]. split; [done | repeat constructor].
  - apply StronglySorted_inv in Hs as [Hs Hy].
    cbn [fmap list_fmap insert_sorted fle]. case_bool_decide as Hle.
    + exists (q :: y :: qs). split; [done |]. split; [done |].
      constructor; [by constructor |]. constructor; [done |].
      eapply Forall_impl; [exact Hy |]. intros x Hx. by apply Qcle_trans with y.
    + destruct (IH Hs) as (qs' & Heq & Hp & Hs').
      exists (y :: qs'). split; [by rewrite Heq |]. split.
      * rewrite Hp. apply Permutation_swap.
      * constructor; [done |]. rewrite Hp. constructor; [| done].
        apply Qclt_le_weak. by apply Qcnot_le_lt.
Qed.

Lemma sort_floats_Fin qs :
  exists qs', sort_floats (Fin <$> qs) = Fin <$> qs' /\ qs' ≡ₚ qs /\ StronglySorted Qcle qs'.
Proof.
  induction qs as [|q qs (qs0 & Heq & Hp & Hs)].
  - exists []. split; [done |]. split; [done | constructor].
  - unfold sort_floats in *. cbn [fmap list_fmap foldr]. rewrite Heq.
    destruct (insert_sorted_Fin q qs0 Hs) as (qs' & Heq' & Hp' & Hs').
    exists qs'. split; [done |]. split; [by rewrite Hp', Hp | done].
Qed.

(** The median of finite values is the middle value of their sorted
    sequence when their number is odd, and the mean of the two middle
    values when it is even. *)
Lemma np_median_middle qs :
  (0 < length qs)%nat ->
  exists qs' lo hi,
    qs' ≡ₚ qs /\ StronglySorted Qcle qs' /\
    qs' !! ((length qs - 1) / 2)%nat = Some lo /\ qs' !! (length qs / 2)%nat = Some hi /\
    (Nat.odd (length qs) = true -> lo = hi /\ np_median (Fin <$> qs) = Fin lo) /\
    (Nat.even (length qs) = true -> np_median (Fin <$> qs) = np_mean [Fin lo; Fin hi]).
Proof.
  intros Hlen. destruct (sort_floats_Fin qs) as (qs' & Heq & Hp & Hs).
  assert (length qs' = length qs) as Hn by (by rewrite Hp).
  unfold np_median. cbv zeta. rewrite Heq, length_fmap, Hn.
  set (n := length qs) in *.
  destruct (Nat.even n) eqn:Heven.
  - assert (Nat.odd n = false) as Hodd by (by rewrite <- Nat.negb_even, Heven).
    apply Nat.even_spec in Heven as [m Hm].
    assert ((n - 1) / 2 = m - 1 /\ n / 2 = m /\ 0 < m)%nat as (E1 & E2 & Hpos).
    { split; [| split]; [| | lia].
      - symmetry. apply Nat.div_unique with 1%nat; lia.
      - symmetry. apply Nat.div_unique with 0%nat; lia. }
    rewrite E1, E2.
    destruct (lookup_lt_is_Some_2 qs' (m - 1)%nat ltac:(lia)) as [lo Hlo].
    destruct (lookup_lt_is_Some_2 qs' m ltac:(lia)) as [hi Hhi].
    exists qs', lo, hi. split; [done |]. split; [done |]. split; [done |]. split; [done |].
    split; [intros ?; congruence |]. intros _. f_equal.
    rewrite <- fmap_drop, <- fmap_take.
    rewrite (drop_S _ lo (m - 1)) by done.
    replace (S (m - 1)) with m by lia.
    by rewrite (drop_S _ hi m) by done.
  - assert (Nat.odd n = true) as Hodd by (by rewrite <- Nat.negb_even, Heven).
    apply Nat.odd_spec in Hodd as [m Hm].
    assert ((n - 1) / 2 = m /\ n / 2 = m)%nat as (E1 & E2).
    { split.
      - symmetry. apply Nat.div_unique with 0%nat; lia.
      - symmetry. apply Nat.div_unique with 1%nat; lia. }
    rewrite E1, E2.
    destruct (lookup_lt_is_Some_2 qs' m ltac:(lia)) as [mid Hmid].
    exists qs', mid, mid. split; [done |]. split; [done |]. split; [done |]. split; [done |].
    split; [| intros ?; congruence]. intros _. split; [done |].
    rewrite <- fmap_drop, <- fmap_take, (drop_S _ mid m) by done.
    change (take 1 (mid :: drop (S m) qs')) with [mid].
    cbn [fmap list_fmap]. unfold np_mean, fsum, of_nat, of_Z, fdiv. cbn [foldl fadd length].
    rewrite bool_decide_eq_false_2 by (apply (Qc_of_nat_nonzero 1); lia).
    change (Z.of_nat 1) with 1%Z. rewrite Z2Qc_inj_1.
    apply (f_equal Fin). field. apply Q_apart_0_1.
Qed.

Lemma count_before (P : Qc -> Prop) `{forall x, Decision (P x)} (l : list Qc) (k : nat) :
  (forall i x, (k <= i)%nat -> l !! i = Some x -> ~ P x) ->
  (length (filter P l) <= k)%nat.
Proof.
  intros Hl. rewrite <- (take_drop k l) at 1. rewrite filter_app, length_app.
  rewrite (filter_none P (drop k l)).
  - pose proof (length_filter P (take k l)) as Hle. rewrite length_take in Hle.
    simpl. lia.
  - intros x Hx. apply list_elem_of_lookup in Hx as [i Hi]. rewrite lookup_drop in Hi.
    apply (Hl (k + i)%nat); [lia | done].
Qed.

Lemma count_after (P : Qc -> Prop) `{forall x, Decision (P x)} (l : list Qc) (k : nat) :
  (forall i x, (i < k)%nat -> l !! i = Some x -> ~ P x) ->
  (length (filter P l) <= length l - k)%nat.
Proof.
  intros Hl. rewrite <- (take_drop k l) at 1. rewrite filter_app, length_app.
  rewrite (filter_none P (take k l)).
  - pose proof (length_filter P (drop k l)). rewrite length_drop in *. simpl. lia.
  - intros x Hx. apply list_elem_of_lookup in Hx as [i Hi].
    apply lookup_take_Some in Hi as [Hi Hlt]. by apply (Hl i).
Qed.

Lemma filter_below_Fin (b : Qc) qs :
  length (filter (fun x => flt x (Fin b) = true) (Fin <$> qs))
  = length (filter (fun q => (q < b)%Qc) qs).
Proof.
  induction qs as [|q qs IH]; [done |]. cbn [fmap list_fmap]. rewrite !filter_cons.
  cbn [flt]. destruct (decide (q < b)%Qc) as [Hlt|Hge].
  - rewrite decide_True by (by apply bool_decide_eq_true). cbn [length]. by rewrite IH.
  - rewrite decide_False; [done |]. intros Hlt. by apply bool_decide_eq_true in Hlt.
Qed.

Lemma filter_above_Fin (b : Qc) qs :
  length (filter (fun x => flt (Fin b) x = true) (Fin <$> qs))
  = length (filter (fun q => (b < q)%Qc) qs).
Proof.
  induction qs as [|q qs IH]; [done |]. cbn [fmap list_fmap]. rewrite !filter_cons.
  destruct (decide (b < q)%Qc) as [Hlt|Hge].
  - rewrite decide_True by (by apply bool_decide_eq_true). cbn [length]. by rewrite IH.
  - rewrite decide_False; [done |]. intros Hlt. by apply bool_decide_eq_true in Hlt.
Qed.

Lemma present_finite xs :
  Forall (fun x => forall neg, x <> Inf neg) xs -> exists qs, present xs = Fin <$> qs.
Proof.
  intros Hall. apply finite_list. apply list.Forall_forall. intros x Hx.
  unfold present in Hx. apply list_elem_of_filter in Hx as [Hnan Hx].
  rewrite list.Forall_forall in Hall. specialize (Hall x Hx).
  destruct x as [|neg|q]; [done | by destruct (Hall neg) | by exists q].
Qed.

Section Order_statistics.

Variable sqrt64 : Qc -> Qc.

(** X16: for a known column without infinities that has a value,
    [get_basic_statistics] returns as [min] and [max] two values of the
    column that bound every value of the column.  Its [median] is made of
    the two middle values of the column, which are the same value when the
    count is odd: at most half of the counted values lie below, and at most
    half above, each of them.  The median is that value when the count is
    odd, and the float64 mean of the two when it is even. *)
Theorem basic_statistics_order s n w name j :
  well_formed s n w -> resolves s w name j ->
  Forall (fun x => forall neg, x <> Inf neg) (column s j) ->
  present (column s j) <> [] ->
  exists st mn mx lo hi,
    run (get_basic_statistics sqrt64 name) s = Ok st /\
    stat_min st = Fin mn /\ stat_max st = Fin mx /\
    Fin mn ∈ column s j /\ Fin mx ∈ column s j /\
    (forall q, Fin q ∈ column s j -> (mn <= q)%Qc /\ (q <= mx)%Qc) /\
    Fin lo ∈ column s j /\ Fin hi ∈ column s j /\ (lo <= hi)%Qc /\
    (Nat.odd (stat_count st) = true -> lo = hi /\ stat_median st = Fin lo) /\
    (Nat.even (stat_count st) = true -> stat_median st = np_mean [Fin lo; Fin hi]) /\
    (count_below (Fin lo) (column s j) <= (stat_count st - 1) / 2)%nat /\
    (length (filter (fun x => flt (Fin lo) x = true) (present (column s j)))
     <= stat_count st / 2)%nat /\
    (count_below (Fin hi) (column s j) <= stat_count st / 2)%nat /\
    (length (filter (fun x => flt (Fin hi) x = true) (present (column s j)))
     <= (stat_count st - 1) / 2)%nat.
Proof.
  intros Hwf Hf Hfin Hsome.
  rewrite (run_get_basic_statistics _ _ _ _ _ _ Hwf Hf). unfold statistics_of. cbv zeta.
  destruct (present_finite _ Hfin) as [qs Hqs].
  assert (forall q, Fin q ∈ column s j <-> q ∈ qs) as Hmem.
  { intros q. transitivity (Fin q ∈ present (column s j)).
    - unfold present. rewrite list_elem_of_filter. tauto.
    - rewrite Hqs, list_elem_of_fmap. split; [by intros (? & [= <-] & ?) | eauto]. }
  setoid_rewrite Hmem. rewrite Hqs in *. clear Hmem Hfin.
  destruct qs as [|q0 qs]; [done |].
  destruct (foldl_fmin_Fin qs q0) as (mn & Hmn & Hmn_in & Hmn_le).
  destruct (foldl_fmax_Fin qs q0) as (mx & Hmx & Hmx_in & Hmx_le).
  destruct (np_median_middle (q0 :: qs) ltac:(simpl; lia))
    as (qs' & lo & hi & Hp & Hs & Hlo & Hhi & Hodd & Heven).
  assert (length qs' = length (q0 :: qs)) as Hn by (by rewrite Hp).
  set (l := q0 :: qs) in *.
  assert (np_min (Fin <$> l) = Ok (Fin mn)) as -> by (by rewrite <- Hmn).
  assert (np_max (Fin <$> l) = Ok (Fin mx)) as -> by (by rewrite <- Hmx).
  simpl mbind.
  eexists _, mn, mx, lo, hi. split; [reflexivity |].
  cbn [stat_min stat_max stat_median stat_count]. rewrite length_fmap.
  split; [done |]. split; [done |]. split; [done |]. split; [done |].
  split; [by auto |].
  assert (lo ∈ l /\ hi ∈ l) as [Hlo_in Hhi_in].
  { rewrite <- Hp. split; by eapply list_elem_of_lookup_2. }
  split; [done |]. split; [done |].
  assert (forall i k x y, (i <= k)%nat -> qs' !! i = Some x -> qs' !! k = Some y -> (x <= y)%Qc)
    as Hsorted.
  { intros i k x y Hik Hx Hy. destruct (decide (i = k)) as [->|Hne].
    - rewrite Hx in Hy. injection Hy as ->. apply Qcle_refl.
    - apply (StronglySorted_lookup Qcle qs' Hs i k); [lia | done | done]. }
  assert (length l / 2 < length l /\ (length l - 1) / 2 <= length l / 2)%nat as [Hhalf Hmid].
  { split.
    - apply Nat.div_lt; [unfold l; simpl; lia | lia].
    - apply Nat.Div0.div_le_mono. lia. }
  split; [by apply (Hsorted ((length l - 1) / 2)%nat (length l / 2)%nat) |].
  split; [done |]. split; [done |].
  rewrite <- !filter_below, Hqs.
  rewrite !filter_below_Fin, !filter_above_Fin, <- !Hp.
  assert (length l - S ((length l - 1) / 2) = length l / 2 /\
          length l - S (length l / 2) = (length l - 1) / 2)%nat as [E1 E2].
  { pose proof (Nat.div_mod_eq (length l) 2). pose proof (Nat.div_mod_eq (length l - 1) 2).
    pose proof (Nat.mod_upper_bound (length l) 2).
    pose proof (Nat.mod_upper_bound (length l - 1) 2).
    assert (0 < length l)%nat by (unfold l; simpl; lia). lia. }
  change (S (length qs)) with (length l).
  split; [| split; [| split]].
  - apply count_before. intros i x Hi Hx Hlt.
    apply Qclt_not_le in Hlt. apply Hlt. by apply (Hsorted ((length l - 1) / 2)%nat i).
  - rewrite <- E1, <- Hn. apply count_after. intros i x Hi Hx Hlt.
    apply Qclt_not_le in Hlt. apply Hlt. rewrite Hn in Hi.
    apply (Hsorted i ((length l - 1) / 2)%nat); [apply Nat.lt_succ_r, Hi | done | done].
  - apply count_before. intros i x Hi Hx Hlt.
    apply Qclt_not_le in Hlt. apply Hlt. by apply (Hsorted (length l / 2)%nat i).
  - rewrite <- E2, <- Hn. apply count_after. intros i x Hi Hx Hlt.
    apply Qclt_not_le in Hlt. apply Hlt. rewrite Hn in Hi.
    apply (Hsorted i (length l / 2)%nat); [apply Nat.lt_succ_r, Hi | done | done].
Qed.

End Order_statistics.

(** ** The correlation matrix of several columns *)
Lemma run_resolved_columns s w names js :
  Forall2 (resolves s w) names js ->
  exists cs, mapR (fun name => run (get_column_index name) s) names = Ok cs /\
             mapR (norm_index w) cs = Ok js.
Proof.
  induction 1 as [|name j names js Hf _ (cs & Hcs & Hjs)]; [by exists [] |].
  destruct (run_resolved _ _ _ _ Hf) as (c & Hc & Hj).
  exists (c :: cs). cbn [mapR]. by rewrite Hc, Hcs, Hj, Hjs.
Qed.

Section Correlation.

Variable sqrt64 : Qc -> Qc.

Lemma run_get_correlation_matrix s n w names js :
  well_formed s n w -> Forall2 (resolves s w) names js ->
  run (get_correlation_matrix sqrt64 names) s = Ok (np_corrcoef sqrt64 (variables_of s js)).
Proof.
  intros Hwf Hf.
  destruct (well_formed_matrix _ _ _ Hwf) as (a & Hd & Hs & Hm & Hl).
  destruct (run_resolved_columns _ _ _ _ Hf) as (cs & Hcs & Hjs).
  assert (length cs = length js) as Hlen by (symmetry; by eapply mapR_length).
  unfold get_correlation_matrix.
  rewrite run_bind by solve_readonly.
  rewrite run_column_indices, Hcs. simpl.
  rewrite run_bind, run_get_data, Hd by solve_readonly. simpl.
  rewrite run_bind, run_lift by solve_readonly.
  unfold arr_cols. rewrite Hs, Hjs. simpl.
  rewrite run_ret. do 2 f_equal.
  unfold drop_nan_rows, transpose, variables_of, complete_rows. cbn [shape cells drop].
  by rewrite Hm, Hlen.
Qed.

Lemma np_corrcoef_matrix x :
  length (np_cov x) <> 1%nat ->
  np_corrcoef sqrt64 x =
  Matrix (imap (fun i row =>
            imap (fun j v =>
                    fclip (fdiv (fdiv v (nth i (imap (fun i row => np_sqrt sqrt64 (nth i row NaN))
                                                  (np_cov x)) NaN))
                                (nth j (imap (fun i row => np_sqrt sqrt64 (nth i row NaN))
                                          (np_cov x)) NaN))) row)
            (np_cov x)).
Proof.
  intros Hlen. unfold np_corrcoef.
  destruct (np_cov x) as [|[|c [|c' r]] [|r' l]]; try done.
Qed.

Lemma fclip_coefficient v : coefficient (fclip v).
Proof.
  unfold coefficient, fclip.
  destruct (flt v (of_Z (-1))) eqn:Hlow; [right; by vm_compute |].
  destruct (flt (of_Z 1) v) eqn:Hhigh; [right; by vm_compute |].
  destruct v as [|neg|q]; [by left | by destruct neg |]. right.
  simpl in *. apply bool_decide_eq_false in Hlow, Hhigh.
  split; apply bool_decide_eq_true; by apply Qcnot_lt_le.
Qed.

Lemma np_cov_shape x k m :
  shape x = [k; m] -> length (cells x) = k ->
  length (np_cov x) = k /\ Forall (fun row => length row = k) (np_cov x).
Proof.
  intros Hs Hk. unfold np_cov. rewrite Hs. cbv zeta. rewrite !length_fmap.
  split; [done |]. apply Forall_fmap, list.Forall_forall. intros r _. simpl.
  by rewrite !length_fmap.
Qed.

Lemma dot_few (r r' : list float64) :
  Forall (fun d => d = Fin 0%Qc \/ d = NaN) r -> Forall (fun d => d = Fin 0%Qc \/ d = NaN) r' ->
  (length r <= 1)%nat ->
  fmul (dot r r') (Inf false) = NaN.
Proof.
  intros Hr Hr' Hlen. destruct r as [|d [|? ?]]; [| | simpl in Hlen; lia].
  - by vm_compute.
  - destruct r' as [|d' r']; [by vm_compute |].
    apply Forall_cons in Hr as [Hd _]. apply Forall_cons in Hr' as [Hd' _].
    unfold dot, fsum. cbn [zip_with foldl].
    destruct Hd as [-> | ->], Hd' as [-> | ->]; by vm_compute.
Qed.

Lemma np_cov_few x k m :
  shape x = [k; m] -> (m <= 1)%nat ->
  Forall (fun r => length r = m /\ Forall (fun v => isnan v = false) r) (cells x) ->
  Forall (Forall (fun v => v = NaN)) (np_cov x).
Proof.
  intros Hs Hm Hrows. unfold np_cov. rewrite Hs. cbv zeta.
  assert (fdiv (of_nat 1) (of_nat (m - 1)) = Inf false) as ->.
  { replace (m - 1)%nat with 0%nat by lia. by vm_compute. }
  assert (Forall (fun r => Forall (fun d => d = Fin 0%Qc \/ d = NaN) r /\ (length r <= 1)%nat)
            ((fun r => (fun v => fsub v (np_mean r)) <$> r) <$> cells x)) as Hcentred.
  { apply Forall_fmap. eapply Forall_impl; [exact Hrows |]. intros r [Hlen Hr]. simpl.
    rewrite length_fmap. split; [| lia].
    destruct r as [|v [|? ?]]; [constructor | | simpl in Hlen; lia].
    apply Forall_cons in Hr as [Hv _]. cbn [fmap list_fmap].
    constructor; [by apply deviation_of_single | constructor]. }
  set (centred := (fun r => (fun v => fsub v (np_mean r)) <$> r) <$> cells x) in *.
  apply Forall_fmap, list.Forall_forall. intros r Hr. simpl.
  apply Forall_fmap, list.Forall_forall. intros r' Hr'. simpl.
  rewrite list.Forall_forall in Hcentred.
  destruct (Hcentred r Hr) as [Hz Hlen]. destruct (Hcentred r' Hr') as [Hz' _].
  by apply dot_few.
Qed.

Lemma variables_complete s js :
  Forall (fun r => length r = length (complete_rows s js) /\
                   Forall (fun v => isnan v = false) r)
    (cells (variables_of s js)).
Proof.
  unfold variables_of. cbn [cells]. apply Forall_fmap, list.Forall_forall.
  intros k Hk. apply elem_of_seq in Hk. simpl. rewrite length_fmap. split; [done |].
  apply Forall_fmap, list.Forall_forall. intros r Hr. simpl.
  unfold complete_rows in Hr. apply list_elem_of_filter in Hr as [Hall Hr].
  apply list_elem_of_fmap in Hr as (r0 & -> & _).
  rewrite forallb_forall in Hall.
  assert (k < length ((fun j => nth j r0 NaN) <$> js))%nat as Hlt
    by (rewrite length_fmap; lia).
  destruct (lookup_lt_is_Some_2 _ _ Hlt) as [v Hv].
  rewrite (nth_lookup_Some _ _ NaN _ Hv).
  apply list_elem_of_lookup_2, list_elem_of_In, Hall in Hv.
  unfold notnan in Hv. by destruct (isnan v).
Qed.

(** X17: for two or more known columns, [get_correlation_matrix] returns
    a square matrix with one row and one column per requested name, in the
    order of the request; every entry is NaN or lies in [-1, 1]; and when
    fewer than two rows of the dataset have a value in all the requested
    columns, every entry is NaN. *)
Theorem correlation_matrix_entries s n w names js :
  well_formed s n w -> Forall2 (resolves s w) names js -> (2 <= length names)%nat ->
  exists rows,
    run (get_correlation_matrix sqrt64 names) s = Ok (Matrix rows) /\
    length rows = length names /\
    Forall (fun row => length row = length names) rows /\
    Forall (Forall coefficient) rows /\
    ((length (complete_rows s js) <= 1)%nat -> Forall (Forall (fun v => v = NaN)) rows).
Proof.
  intros Hwf Hf Hk. rewrite (run_get_correlation_matrix s n w names js Hwf Hf).
  pose proof (Forall2_length _ _ _ Hf) as Hlen.
  destruct (np_cov_shape (variables_of s js) (length js) (length (complete_rows s js)))
    as [Hrows Hcols];
    [done | unfold variables_of; cbn [cells]; by rewrite length_fmap, length_seq |].
  rewrite np_corrcoef_matrix by lia.
  set (c := np_cov (variables_of s js)) in *.
  set (stddev := imap (fun i row => np_sqrt sqrt64 (nth i row NaN)) c).
  eexists. split; [reflexivity |].
  split; [by rewrite length_imap, Hrows |].
  rewrite list.Forall_forall in Hcols.
  split; [| split].
  - apply Forall_lookup. intros i row Hrow.
    apply list_lookup_imap_Some in Hrow as (row0 & Hrow0 & ->).
    rewrite length_imap, Hlen. apply Hcols. by eapply list_elem_of_lookup_2.
  - apply Forall_lookup. intros i row Hrow.
    apply list_lookup_imap_Some in Hrow as (row0 & Hrow0 & ->).
    apply Forall_lookup. intros j v Hv.
    apply list_lookup_imap_Some in Hv as (v0 & _ & ->). apply fclip_coefficient.
  - intros Hfew.
    pose proof (np_cov_few (variables_of s js) _ _ eq_refl Hfew (variables_complete s js))
      as Hnan.
    fold c in Hnan. rewrite list.Forall_forall in Hnan.
    apply Forall_lookup. intros i row Hrow.
    apply list_lookup_imap_Some in Hrow as (row0 & Hrow0 & ->).
    apply list_elem_of_lookup_2, Hnan in Hrow0. rewrite list.Forall_forall in Hrow0.
    apply Forall_lookup. intros j v Hv.
    apply list_lookup_imap_Some in Hv as (v0 & Hv0 & ->).
    apply list_elem_of_lookup_2, Hrow0 in Hv0. by subst v0.
Qed.

End Correlation.

(** ** Loading a second time *)
Lemma index_last_occurrence (hs : list string) (m : gmap string nat) h i :
  hs !! i = Some h -> h ∉ drop (S i) hs ->
  foldl (fun (m : gmap string nat) p => <[snd p := fst p]> m) m (enumerate hs) !! h = Some i.
Proof.
  revert m i. induction hs as [|x hs IH] using rev_ind; intros m i Hi Hlast; [done |].
  rewrite enumerate_app, foldl_app. cbn [foldl fst snd].
  destruct (decide (i = length hs)) as [->|Hne].
  - rewrite list_lookup_middle in Hi by done. injection Hi as ->.
    by rewrite lookup_insert_eq.
  - assert (i < length hs)%nat as Hlt.
    { apply lookup_lt_Some in Hi. rewrite length_app in Hi. simpl in Hi. lia. }
    rewrite lookup_app_l in Hi by done.
    rewrite drop_app_le in Hlast by lia.
    apply not_elem_of_app in Hlast as [Hlast Hx].
    rewrite lookup_insert_ne by (intros ->; apply Hx; left).
    by apply IH.
Qed.

Section Reloading.

Variable py_float : string -> option float64.

(** [load_data] on any analyzer: what it assigns before [np.array] can
    fail, and what after. *)
Lemma load_data_unfold header body s :
  load_data py_float (header :: body) s =
  let s1 := loaded_names body (indexed header (set_headers header s)) in
  match np_array (numeric_rows py_float body) with
  | Raise e => (Raise e, s1)
  | Ok a =>
      match py_index (shape a) 1 with
      | Raise e => (Raise e, set_data a s1)
      | Ok _ => (Ok tt, set_data a s1)
      end
  end.
Proof.
  unfold load_data.
  unfold bind at 1. simpl.
  unfold bind at 1. rewrite foldM_set_column. simpl.
  unfold bind at 1. rewrite foldM_load_row. simpl.
  unfold bind at 1. unfold lift at 1.
  destruct (np_array (numeric_rows py_float body)) as [a|e]; simpl; [| done].
  unfold bind at 1. simpl. unfold bind at 1. unfold lift at 1.
  by destruct (py_index (shape a) 1).
Qed.

(** X18: [load_data] called on an analyzer that already holds a dataset
    replaces the header row and, when the file is accepted, the matrix, but
    appends the names and regions of the file to those already there and
    keeps the index entries of the old header names: after a reload of a
    non-empty dataset there are more names than matrix rows.  When
    [np.array] refuses the rows, the names have been appended and the old
    matrix is still in place. *)
Theorem load_data_appends s header body :
  let s' := exec (load_data py_float (header :: body)) s in
  headers s' = header /\
  country_names s' = country_names s ++ ((fun row => nth 0 row "") <$> admitted body) /\
  regional_indicators s' =
    regional_indicators s ++ ((fun row => nth 1 row "") <$> admitted body) /\
  (forall h, h ∉ header -> column_map s' !! h = column_map s !! h) /\
  (forall h i, header !! i = Some h -> h ∉ drop (S i) header ->
     column_map s' !! h = Some i) /\
  (forall e, np_array (numeric_rows py_float body) = Raise e ->
     run (load_data py_float (header :: body)) s = Raise e /\ data s' = data s) /\
  (run (load_data py_float (header :: body)) s = Ok tt ->
     length (matrix s') = length (admitted body) /\
     length (country_names s') = (length (country_names s) + length (matrix s'))%nat).
Proof.
  intros s'. subst s'. unfold exec, run. rewrite load_data_unfold. cbv zeta.
  set (s1 := loaded_names body (indexed header (set_headers header s))).
  assert (forall h, h ∉ header -> column_map s1 !! h = column_map s !! h) as Hold.
  { intros h Hh. unfold s1. cbn [loaded_names indexed set_headers column_map].
    apply index_untouched. apply list.Forall_forall. intros p Hp Hsnd.
    apply Hh. rewrite <- Hsnd. by apply (enumerate_names_from pair header). }
  assert (forall h i, header !! i = Some h -> h ∉ drop (S i) header ->
            column_map s1 !! h = Some i) as Hnew.
  { intros h i Hi Hlast. unfold s1. cbn [loaded_names indexed set_headers column_map].
    by apply index_last_occurrence. }
  destruct (np_array (numeric_rows py_float body)) as [a|e] eqn:Ha.
  - assert (length (cells a) = length (admitted body)) as Hrows.
    { apply np_array_shape in Ha as [-> _]. unfold numeric_rows. by rewrite length_fmap. }
    destruct (py_index (shape a) 1); cbn [fst snd];
      (split; [done |]); (split; [done |]); (split; [done |]); (split; [exact Hold |]);
      (split; [exact Hnew |]); (split; [done |]).
    + intros _. unfold matrix. cbn [set_data data]. split; [done |].
      unfold s1. cbn [set_data loaded_names indexed set_headers country_names].
      by rewrite length_app, length_fmap, Hrows.
    + done.
  - cbn [fst snd]. split; [done |]. split; [done |]. split; [done |].
    split; [exact Hold |]. split; [exact Hnew |]. split; [| done].
    by intros e' [= <-].
Qed.

End Reloading.

(** ** The columns of a loaded file *)
Section Loaded_features.

Variable py_float : string -> option float64.

(** X19: after loading a file whose admitted data rows are as long as
    its header row, the dataset is rectangular and every header field from
    the third on, if it is not repeated later in the header, names the
    matrix column that holds the parsed fields below it: the operations
    given that name work on exactly the numbers of that column of the
    file. *)
Theorem loaded_features_resolve csv header body s :
  new py_float csv (header :: body) = Ok s ->
  Forall (fun row => (2 < length row)%nat -> length row = length header) body ->
  well_formed s (length (admitted body)) (length header - 2) /\
  forall j h, header !! (j + 2)%nat = Some h -> h ∉ drop (S (j + 2)) header ->
    feature s (length header - 2) h j /\
    column s j = (fun row => default NaN (py_float (nth (j + 2) row ""))) <$> admitted body.
Proof.
  rewrite new_unfold. intros Hnew Hrect.
  destruct (np_array (numeric_rows py_float body)) as [a|e] eqn:Ha; simpl in Hnew; [| done].
  destruct (py_index (shape a) 1) as [w0|e] eqn:Hw; simpl in Hnew; [| done].
  injection Hnew as <-.
  assert (forall row, row ∈ admitted body -> length row = length header) as Hlen.
  { intros row Hrow. unfold admitted in Hrow. apply list_elem_of_filter in Hrow as [Hlong Hrow].
    rewrite list.Forall_forall in Hrect. by apply Hrect. }
  apply np_array_shape in Ha as [Hc [[_ Hs]|(w & Hs & Hn & Hrows)]].
  { by rewrite Hs in Hw. }
  assert (length (numeric_rows py_float body) = length (admitted body)) as Hcount.
  { unfold numeric_rows. by rewrite length_fmap. }
  assert (w = length header - 2)%nat as ->.
  { unfold numeric_rows in Hrows, Hn. rewrite length_fmap in Hn.
    destruct (admitted body) as [|row rows] eqn:E; [simpl in Hn; lia |].
    cbn [fmap list_fmap] in Hrows. apply Forall_cons in Hrows as [Hrow _].
    rewrite numeric_row_length in Hrow. rewrite <- Hrow. f_equal. apply Hlen. left. }
  split.
  { split;
      [| cbn [set_data loaded_names indexed set_headers blank country_names
              regional_indicators app]; by rewrite !length_fmap].
    exists a. cbn [set_data data]. split; [done |]. split; [by rewrite Hs, Hcount |].
    split; [by rewrite Hc |]. by rewrite Hc. }
  intros j h Hh Hlast. split.
  - split.
    + cbn [set_data loaded_names indexed set_headers blank column_map].
      by apply index_last_occurrence.
    + apply lookup_lt_Some in Hh. lia.
  - unfold column, matrix. cbn [set_data data]. rewrite Hc. unfold numeric_rows.
    rewrite <- list_fmap_compose. apply Forall_fmap_ext, list.Forall_forall.
    intros row Hrow. simpl. specialize (Hlen row Hrow).
    apply lookup_lt_Some in Hh.
    destruct (lookup_lt_is_Some_2 row (j + 2)) as [x Hx]; [lia |].
    rewrite (nth_lookup_Some _ _ "" _ Hx).
    apply nth_lookup_Some. rewrite list_lookup_fmap, lookup_drop.
    replace (2 + j)%nat with (j + 2)%nat by lia. by rewrite Hx.
Qed.

End Loaded_features.

(** ** Header names beyond the matrix *)
Section Beyond_the_matrix.

Variable sqrt64 : Qc -> Qc.
Variable argsort : list float64 -> list nat.

(** X20: a header name whose position lies beyond the last matrix
    column, as the later feature names of a file with short data rows do,
    is found by [get_column_index], and every operation given it then
    raises [IndexError] when it reads the matrix; [compare_regions] does
    so as soon as the dataset has a row. *)
Theorem column_beyond_matrix_raises s n w name p :
  well_formed s n w -> column_map s !! name = Some p -> (w + 2 <= p)%nat ->
  run (get_column_index name) s = Ok (Z.of_nat p - 2) /\
  run (get_basic_statistics sqrt64 name) s = Raise IndexError /\
  (forall k, run (get_top_countries argsort name k) s = Raise IndexError) /\
  (forall k, run (get_bottom_countries argsort name k) s = Raise IndexError) /\
  (forall threshold, run (find_outliers sqrt64 name threshold) s = Raise IndexError) /\
  run (get_correlation_matrix sqrt64 [name]) s = Raise IndexError /\
  ((0 < n)%nat -> run (compare_regions sqrt64 name) s = Raise IndexError) /\
  (forall country, country ∈ country_names s ->
     run (calculate_percentile_rank country name) s = Raise IndexError).
Proof.
  intros Hwf Hp Hwide.
  assert (run (get_column_index name) s = Ok (Z.of_nat p - 2)) as Hc
    by (by rewrite run_get_column_index, Hp).
  assert (norm_index w (Z.of_nat p - 2) = Raise IndexError) as Hn.
  { rewrite norm_index_feature by lia. by rewrite bool_decide_eq_false_2 by lia. }
  split; [done |].
  split; [by apply (out_of_range_operations sqrt64 argsort s n w name _ NaN 0 Hwf Hc Hn) |].
  split; [intros k; by apply (out_of_range_operations sqrt64 argsort s n w name _ NaN k Hwf Hc Hn) |].
  split; [intros k; by apply (out_of_range_operations sqrt64 argsort s n w name _ NaN k Hwf Hc Hn) |].
  split; [intros t; by apply (out_of_range_operations sqrt64 argsort s n w name _ t 0 Hwf Hc Hn) |].
  by apply (out_of_range_operations sqrt64 argsort s n w name _ NaN 0 Hwf Hc Hn).
Qed.

End Beyond_the_matrix.

(** ** The rankings and the extremes *)

Lemma valid_pairs_values names xs :
  length names = length xs -> snd <$> valid_pairs names xs = present xs.
Proof.
  revert xs. unfold valid_pairs, present.
  induction names as [|c names IH]; intros [|x xs] Hlen; simpl in Hlen; try done.
  injection Hlen as Hlen. cbn [zip zip_with]. rewrite !filter_cons. cbn [snd].
  destruct (decide (isnan x = false)); cbn [fmap list_fmap snd]; by rewrite IH.
Qed.

(** The head of an ascending list of finite values is their minimum, and
    the head of a descending one their maximum. *)
Lemma ascending_head p l qs mn :
  ascending (p :: l) -> snd <$> (p :: l) ≡ₚ Fin <$> qs ->
  mn ∈ qs -> (forall x, x ∈ qs -> (mn <= x)%Qc) -> snd p = Fin mn.
Proof.
  intros Hasc Hperm Hin Hle.
  assert (exists a, snd p = Fin a /\ a ∈ qs) as (a & Ha & Haq).
  { assert (snd p ∈ Fin <$> qs) as H by (rewrite <- Hperm; left).
    apply list_elem_of_fmap in H as (a & ? & ?). eauto. }
  assert (Fin mn ∈ snd <$> (p :: l)) as Hmn by (rewrite Hperm; by apply list_elem_of_fmap_2).
  rewrite Ha. f_equal. apply Qcle_antisym; [| by apply Hle].
  apply list_elem_of_fmap in Hmn as (q & Hq & Hql).
  apply list_elem_of_lookup in Hql as [i Hi].
  destruct i as [|i]; [injection Hi as <-; rewrite Ha in Hq; injection Hq as ->; apply Qcle_refl |].
  pose proof (Hasc 0%nat (S i) p q ltac:(lia) eq_refl Hi) as Hlt.
  rewrite <- Hq, Ha in Hlt. simpl in Hlt. apply bool_decide_eq_false in Hlt.
  by apply Qcnot_lt_le.
Qed.

Lemma descending_head p l qs mx :
  descending (p :: l) -> snd <$> (p :: l) ≡ₚ Fin <$> qs ->
  mx ∈ qs -> (forall x, x ∈ qs -> (x <= mx)%Qc) -> snd p = Fin mx.
Proof.
  intros Hdesc Hperm Hin Hle.
  assert (exists a, snd p = Fin a /\ a ∈ qs) as (a & Ha & Haq).
  { assert (snd p ∈ Fin <$> qs) as H by (rewrite <- Hperm; left).
    apply list_elem_of_fmap in H as (a & ? & ?). eauto. }
  assert (Fin mx ∈ snd <$> (p :: l)) as Hmx by (rewrite Hperm; by apply list_elem_of_fmap_2).
  rewrite Ha. f_equal. apply Qcle_antisym; [by apply Hle |].
  apply list_elem_of_fmap in Hmx as (q & Hq & Hql).
  apply list_elem_of_lookup in Hql as [i Hi].
  destruct i as [|i]; [injection Hi as <-; rewrite Ha in Hq; injection Hq as ->; apply Qcle_refl |].
  pose proof (Hdesc 0%nat (S i) p q ltac:(lia) eq_refl Hi) as Hlt.
  rewrite <- Hq, Ha in Hlt. simpl in Hlt. apply bool_decide_eq_false in Hlt.
  by apply Qcnot_lt_le.
Qed.

Section Extremes.

Variable sqrt64 : Qc -> Qc.
Variable argsort : list float64 -> list nat.
Hypothesis argsort_ok : argsort_contract argsort.

(** X21: for a known column without infinities that has a value, and a
    count of at least one, the first pair of [get_top_countries] carries
    the [max] of [get_basic_statistics] and the first pair of
    [get_bottom_countries] its [min]. *)
Theorem rankings_start_at_the_extremes s n w name j k :
  well_formed s n w -> resolves s w name j ->
  Forall (fun x => forall neg, x <> Inf neg) (column s j) ->
  present (column s j) <> [] -> 1 <= k ->
  exists st highest lowest top bottom,
    run (get_basic_statistics sqrt64 name) s = Ok st /\
    run (get_top_countries argsort name k) s = Ok ((highest, stat_max st) :: top) /\
    run (get_bottom_countries argsort name k) s = Ok ((lowest, stat_min st) :: bottom).
Proof.
  intros Hwf Hf Hfin Hsome Hk.
  rewrite (run_get_basic_statistics _ _ _ _ _ _ Hwf Hf).
  rewrite (run_get_bottom_countries _ _ _ _ _ _ _ Hwf Hf).
  rewrite (run_get_top_countries _ _ _ _ _ _ _ Hwf Hf).
  rewrite (bottom_of_ranked argsort argsort_ok), (top_of_ranked argsort argsort_ok) by lia.
  assert (length (country_names s) = length (column s j)) as Hlen.
  { rewrite (length_column s n w) by done. by destruct Hwf as (_ & ? & _). }
  pose proof (ranked_permutation argsort argsort_ok (country_names s) (column s j)) as Hperm.
  pose proof (ranked_ascending argsort argsort_ok (country_names s) (column s j)) as Hasc.
  pose proof (ascending_reverse _ Hasc) as Hdesc.
  assert (snd <$> ranked argsort (country_names s) (column s j) ≡ₚ present (column s j))
    as Hvalues by (by rewrite Hperm, valid_pairs_values).
  set (ranking := ranked argsort (country_names s) (column s j)) in *.
  destruct (present_finite _ Hfin) as [qs Hqs]. rewrite Hqs in *.
  unfold statistics_of. cbv zeta. rewrite Hqs.
  destruct qs as [|q0 qs]; [done |].
  destruct (foldl_fmin_Fin qs q0) as (mn & Hmn & Hmn_in & Hmn_le).
  destruct (foldl_fmax_Fin qs q0) as (mx & Hmx & Hmx_in & Hmx_le).
  assert (np_min (Fin <$> q0 :: qs) = Ok (Fin mn)) as -> by (by rewrite <- Hmn).
  assert (np_max (Fin <$> q0 :: qs) = Ok (Fin mx)) as -> by (by rewrite <- Hmx).
  simpl mbind.
  assert (Z.to_nat k = S (Z.to_nat k - 1)) as -> by lia.
  destruct ranking as [|[lowest v] rest] eqn:E.
  { apply Permutation_length in Hvalues. simpl in Hvalues. done. }
  assert (v = Fin mn) as ->.
  { apply (ascending_head (lowest, v) rest (q0 :: qs) mn); done. }
  assert (snd <$> reverse ((lowest, Fin mn) :: rest) ≡ₚ Fin <$> q0 :: qs) as Hvalues'.
  { by rewrite fmap_reverse, reverse_Permutation. }
  destruct (reverse ((lowest, Fin mn) :: rest)) as [|[highest v'] rest'] eqn:E'.
  { apply Permutation_length in Hvalues'. simpl in Hvalues'. done. }
  assert (v' = Fin mx) as ->.
  { apply (descending_head (highest, v') rest' (q0 :: qs) mx); done. }
  eexists _, highest, lowest, _, _. cbn [take stat_max stat_min]. done.
Qed.

End Extremes.

(** * The further properties at the example tables *)

(** X1 at the scenario, which has no column named Ladder. *)
Lemma unknown_column_raises_key_error_witness :
  column_map scenario !! "Ladder" = None /\
  run (get_basic_statistics sqrt_52 "Ladder") scenario = Raise KeyError /\
  run (get_correlation_matrix sqrt_52 ["F1"; "Ladder"; "F2"]) scenario = Raise KeyError.
Proof.
  assert (column_map scenario !! "Ladder" = None) as Hnone by (by vm_compute).
  split; [done |].
  destruct (unknown_column_raises_key_error sqrt_52 stable_argsort scenario "Ladder" Hnone)
    as (_ & Hstat & _ & _ & _ & _ & _ & Hcorr).
  split; [done |]. apply (Hcorr ["F1"] ["F2"]).
  repeat constructor. eexists. by vm_compute.
Defined.

(** X2 at the file of two admitted rows. *)
Lemma column_index_after_loading_witness :
  exists s,
    new float_of_digits "two.csv" two_rows = Ok s /\
    run (get_column_index "F2") s = Ok 1 /\
    run (get_column_index "Ladder") s = Raise KeyError.
Proof.
  eexists. split; [by vm_compute |].
  destruct (column_index_after_loading float_of_digits "two.csv" two_rows _ eq_refl)
    as (Hfound & _ & Hmissing).
  split.
  - apply (Hfound "F2" 3%nat); [reflexivity | check_absent].
  - apply Hmissing. check_absent.
Defined.

(** X4 at the file of two admitted rows: the second admitted row is the
    fourth line of the file. *)
Lemma loader_stores_admitted_rows_witness :
  exists s,
    new float_of_digits "two.csv" two_rows = Ok s /\
    country_names s !! 1%nat = Some "B" /\
    cell s 1 1 = default NaN (float_of_digits "5").
Proof.
  eexists. split; [by vm_compute |].
  destruct (loader_stores_admitted_rows float_of_digits "two.csv"
              ["Country name"; "Regional indicator"; "F1"; "F2"]
              [["A"; "R1"; "1"; ""]; []; ["B"; "R1"; "2"; "5"]] _ eq_refl)
    as (_ & _ & _ & Hrows).
  destruct (Hrows 1%nat ["B"; "R1"; "2"; "5"] eq_refl) as (Hname & _ & Hcell).
  split; [exact Hname |]. apply (Hcell 1%nat). simpl. lia.
Defined.

(** X5 at the scenario: the rows of region R1. *)
Lemma filter_by_region_selects_witness :
  well_formed scenario 3 2 /\
  exists countries d,
    run (filter_by_region "R1") scenario = Ok (countries, d) /\
    shape d = [length countries; 2%nat] /\
    length (cells d) = length countries.
Proof.
  assert (well_formed scenario 3 2) as Hwf by check_well_formed.
  split; [done |].
  destruct (filter_by_region_selects scenario 3 2 "R1" Hwf)
    as (countries & d & Hrun & Hshape & Hrows & _).
  exists countries, d. by repeat split.
Defined.

(** X6 at the scenario: no row carries R3. *)
Lemma compare_regions_entries_witness :
  well_formed scenario 3 2 /\ resolves scenario 2 "F2" 1 /\
  exists results,
    run (compare_regions sqrt_52 "F2") scenario = Ok results /\
    results !! "R3" = None.
Proof.
  assert (well_formed scenario 3 2) as Hwf by check_well_formed.
  assert (resolves scenario 2 "F2" 1) as Hf by (apply feature_resolves; check_feature).
  split; [done |]. split; [done |].
  destruct (compare_regions_entries sqrt_52 scenario 3 2 "F2" 1 Hwf Hf)
    as (results & Hrun & _ & _ & Habsent).
  exists results. split; [done |]. apply Habsent. check_absent.
Defined.

(** X7 at the scenario: the regions listed as R2, R1, R2. *)
Lemma compare_regions_any_order_witness :
  well_formed scenario 3 2 /\ resolves scenario 2 "F2" 1 /\
  run (get_column_index "F2") scenario = Ok 1 /\
  run (foldM (compare_region sqrt_52 1) ∅ ["R2"; "R1"; "R2"]) scenario
  = run (compare_regions sqrt_52 "F2") scenario.
Proof.
  assert (well_formed scenario 3 2) as Hwf by check_well_formed.
  assert (resolves scenario 2 "F2" 1) as Hf by (apply feature_resolves; check_feature).
  assert (run (get_column_index "F2") scenario = Ok 1) as Hc by (by vm_compute).
  split; [done |]. split; [done |]. split; [done |].
  apply (compare_regions_any_order sqrt_52 scenario 3 2 "F2" 1 1 ["R2"; "R1"; "R2"] Hwf Hf Hc).
  intros region. cbn [regional_indicators scenario]. rewrite !elem_of_cons, !elem_of_nil. tauto.
Defined.

(** X8 at the scenario: F2 has two values, both in R1 and R2 together. *)
Lemma region_counts_add_up_witness :
  well_formed scenario 3 2 /\ resolves scenario 2 "F2" 1 /\
  exists results,
    run (compare_regions sqrt_52 "F2") scenario = Ok results /\
    sum_list_with (fun p => region_count (snd p)) (map_to_list results) = 2%nat.
Proof.
  assert (well_formed scenario 3 2) as Hwf by check_well_formed.
  assert (resolves scenario 2 "F2" 1) as Hf by (apply feature_resolves; check_feature).
  split; [done |]. split; [done |].
  destruct (region_counts_add_up sqrt_52 scenario 3 2 "F2" 1 Hwf Hf)
    as (results & Hrun & Hsum & _).
  exists results. split; [done |]. exact Hsum.
Defined.

(** X9 at the scenario. *)
Lemma find_outliers_rows_witness :
  well_formed scenario 3 2 /\ resolves scenario 2 "F1" 0 /\
  exists outliers,
    run (find_outliers sqrt_52 "F1" (num 1)) scenario = Ok outliers /\
    forall c v z, (c, v, z) ∈ outliers -> fgt z (num 1) = true.
Proof.
  assert (well_formed scenario 3 2) as Hwf by check_well_formed.
  assert (resolves scenario 2 "F1" 0) as Hf by (apply feature_resolves; check_feature).
  split; [done |]. split; [done |].
  destruct (find_outliers_rows sqrt_52 scenario 3 2 "F1" 0 (num 1) Hwf Hf)
    as (outliers & Hrun & _ & Hrows).
  exists outliers. split; [done |]. intros c v z Hin.
  by destruct (proj1 (Hrows c v z) Hin) as (i & _ & _ & _ & _ & Hgt).
Defined.

(** X10 at the scenario, for the thresholds 0 and 1. *)
Lemma find_outliers_threshold_witness :
  well_formed scenario 3 2 /\ resolves scenario 2 "F1" 0 /\
  fle (num 0) (num 1) = true /\
  exists at_low at_high,
    run (find_outliers sqrt_52 "F1" (num 0)) scenario = Ok at_low /\
    run (find_outliers sqrt_52 "F1" (num 1)) scenario = Ok at_high /\
    at_high `sublist_of` at_low.
Proof.
  assert (well_formed scenario 3 2) as Hwf by check_well_formed.
  assert (resolves scenario 2 "F1" 0) as Hf by (apply feature_resolves; check_feature).
  assert (fle (num 0) (num 1) = true) as Hle by (by vm_compute).
  split; [done |]. split; [done |]. split; [done |].
  exact (find_outliers_threshold sqrt_52 scenario 3 2 "F1" 0 (num 0) (num 1) Hwf Hf Hle).
Defined.

(** X11 at the table of two rows: F2 has the single value 7.0. *)
Lemma find_outliers_of_single_value_witness :
  sqrt_52 0%Qc = 0%Qc /\
  well_formed paired 2 2 /\ resolves paired 2 "F2" 1 /\
  (length (present (column paired 1)) <= 1)%nat /\
  run (find_outliers sqrt_52 "F2" (num 0)) paired = Ok [].
Proof.
  assert (sqrt_52 0%Qc = 0%Qc) as Hsqrt by (by apply Qc_is_canon).
  assert (well_formed paired 2 2) as Hwf by check_well_formed.
  assert (resolves paired 2 "F2" 1) as Hf by (apply feature_resolves; check_feature).
  assert (length (present (column paired 1)) <= 1)%nat as Hfew by (vm_compute; lia).
  split; [done |]. split; [done |]. split; [done |]. split; [done |].
  exact (find_outliers_of_single_value sqrt_52 paired 2 2 "F2" 1 (num 0) Hsqrt Hwf Hf Hfew).
Defined.

(** X12 at the scenario: the count -1 drops the last entry of each
    ranking of the three values of F1. *)
Lemma rankings_for_negative_count_witness :
  argsort_contract stable_argsort /\
  well_formed scenario 3 2 /\ resolves scenario 2 "F1" 0 /\
  exists ranking : list (string * float64),
    length ranking = 3%nat /\
    run (get_top_countries stable_argsort "F1" (-1)) scenario
    = Ok (take 2 (reverse ranking)).
Proof.
  assert (well_formed scenario 3 2) as Hwf by check_well_formed.
  assert (resolves scenario 2 "F1" 0) as Hf by (apply feature_resolves; check_feature).
  split; [exact stable_argsort_contract |]. split; [done |]. split; [done |].
  destruct (rankings_for_negative_count stable_argsort stable_argsort_contract
              scenario 3 2 "F1" 0 (-1) Hwf Hf ltac:(lia))
    as (ranking & _ & _ & Hlen & _ & Htop).
  exists ranking. change (length (present (column scenario 0))) with 3%nat in Hlen.
  split; [done |]. by rewrite Hlen in Htop.
Defined.

(** X13 at the scenario. *)
Lemma percentile_rank_range_witness :
  well_formed scenario 3 2 /\ resolves scenario 2 "F1" 0 /\
  "B" ∈ country_names scenario /\
  exists r,
    run (calculate_percentile_rank "B" "F1") scenario = Ok r /\
    exists q, r = Fin q /\ (0 <= q)%Qc /\ (q < Qc_of_Z 100)%Qc.
Proof.
  assert (well_formed scenario 3 2) as Hwf by check_well_formed.
  assert (resolves scenario 2 "F1" 0) as Hf by (apply feature_resolves; check_feature).
  assert ("B" ∈ country_names scenario) as Hin by (right; left).
  split; [done |]. split; [done |]. split; [done |].
  destruct (percentile_rank_range scenario 3 2 "F1" 0 "B" Hwf Hf Hin)
    as (r & Hrun & _ & Hrange).
  exists r. split; [done |]. apply Hrange. by vm_compute.
Defined.

(** X14 at the scenario: the dictionary of B. *)
Lemma country_data_fields_witness :
  well_formed scenario 3 2 /\ header_index scenario /\
  (length (headers scenario) <= 2 + 2)%nat /\
  exists region result,
    regional_indicators scenario !! 1%nat = Some region /\
    run (get_country_data "B") scenario = Ok result /\
    result !! "F2" = Some (Number (cell scenario 1 1)) /\
    result !! "Country name" = Some (Text "B").
Proof.
  assert (well_formed scenario 3 2) as Hwf by check_well_formed.
  assert (header_index scenario) as Hidx by (by vm_compute).
  assert (length (headers scenario) <= 2 + 2)%nat as Hwide by (simpl; lia).
  split; [done |]. split; [done |]. split; [done |].
  destruct (country_data_fields scenario 3 2 "B" Hwf Hidx Hwide) as [_ Hknown].
  destruct (Hknown 1%nat) as (region & result & Hregion & Hrun & Hcells & Hname & _).
  { check_first_row. }
  exists region, result. split; [done |]. split; [done |]. split.
  - apply (Hcells 3%nat "F2"); [reflexivity | lia | check_absent].
  - apply Hname. check_absent.
Defined.

(** X15 at the file whose only data row is shorter than the header. *)
Lemma country_data_of_short_rows_witness :
  exists s,
    new float_of_digits "short.csv" short_row = Ok s /\
    well_formed s 1 1 /\ header_index s /\ (1 + 2 < length (headers s))%nat /\
    "A" ∈ country_names s /\
    run (get_country_data "A") s = Raise IndexError.
Proof.
  eexists. split; [by vm_compute |].
  match goal with |- well_formed ?s _ _ /\ _ =>
    assert (well_formed s 1 1) as Hwf by check_well_formed;
    assert (header_index s) as Hidx by (by vm_compute);
    assert (1 + 2 < length (headers s))%nat as Hwide by (simpl; lia);
    assert ("A" ∈ country_names s) as Hin by left
  end.
  split; [done |]. split; [done |]. split; [done |]. split; [done |].
  exact (country_data_of_short_rows _ 1 1 "A" Hwf Hidx Hwide Hin).
Defined.

(** X16 at the scenario: the values of F1 are 1, 2 and 3. *)
Lemma basic_statistics_order_witness :
  well_formed scenario 3 2 /\ resolves scenario 2 "F1" 0 /\
  Forall (fun x => forall neg, x <> Inf neg) (column scenario 0) /\
  present (column scenario 0) <> [] /\
  exists st mn mx lo,
    run (get_basic_statistics sqrt_52 "F1") scenario = Ok st /\
    stat_min st = Fin mn /\ stat_max st = Fin mx /\ stat_median st = Fin lo /\
    Fin lo ∈ column scenario 0 /\ (mn <= lo)%Qc /\ (lo <= mx)%Qc.
Proof.
  assert (well_formed scenario 3 2) as Hwf by check_well_formed.
  assert (resolves scenario 2 "F1" 0) as Hf by (apply feature_resolves; check_feature).
  assert (Forall (fun x => forall neg, x <> Inf neg) (column scenario 0)) as Hfin
    by (by repeat constructor).
  assert (present (column scenario 0) <> []) as Hsome by (by vm_compute).
  split; [done |]. split; [done |]. split; [done |]. split; [done |].
  destruct (basic_statistics_order sqrt_52 scenario 3 2 "F1" 0 Hwf Hf Hfin Hsome)
    as (st & mn & mx & lo & hi & Hrun & Hmn & Hmx & _ & _ & Hbounds & Hlo & _ & _ & Hodd & _).
  assert (stat_count st = 3%nat) as Hcount.
  { pose proof Hrun as Hrun'. vm_compute in Hrun'. injection Hrun' as <-. reflexivity. }
  destruct Hodd as [_ Hmed]; [by rewrite Hcount |].
  exists st, mn, mx, lo. destruct (Hbounds lo Hlo). by repeat split.
Defined.

(** X17 at the scenario: F1 and F2 have two complete rows. *)
Lemma correlation_matrix_entries_witness :
  well_formed scenario 3 2 /\ Forall2 (resolves scenario 2) ["F1"; "F2"] [0%nat; 1%nat] /\
  exists rows,
    run (get_correlation_matrix sqrt_52 ["F1"; "F2"]) scenario = Ok (Matrix rows) /\
    length rows = 2%nat /\
    Forall (fun row => length row = 2%nat) rows /\
    Forall (Forall coefficient) rows.
Proof.
  assert (well_formed scenario 3 2) as Hwf by check_well_formed.
  assert (Forall2 (resolves scenario 2) ["F1"; "F2"] [0%nat; 1%nat]) as Hf
    by (repeat constructor; apply feature_resolves; check_feature).
  split; [done |]. split; [done |].
  destruct (correlation_matrix_entries sqrt_52 scenario 3 2 ["F1"; "F2"] [0%nat; 1%nat]
              Hwf Hf ltac:(simpl; lia))
    as (rows & Hrun & Hlen & Hcols & Hcoef & _).
  exists rows. by repeat split.
Defined.

(** X19 at the file of two admitted rows, both as long as the header. *)
Lemma loaded_features_resolve_witness :
  exists s,
    new float_of_digits "two.csv" two_rows = Ok s /\
    well_formed s 2 2 /\ feature s 2 "F2" 1 /\
    column s 1 = [default NaN (float_of_digits ""); default NaN (float_of_digits "5")].
Proof.
  eexists. split; [by vm_compute |].
  destruct (loaded_features_resolve float_of_digits "two.csv"
              ["Country name"; "Regional indicator"; "F1"; "F2"]
              [["A"; "R1"; "1"; ""]; []; ["B"; "R1"; "2"; "5"]] _ eq_refl)
    as [Hwf Hfeatures].
  { repeat constructor; simpl; lia. }
  split; [exact Hwf |].
  destruct (Hfeatures 1%nat "F2" eq_refl) as [Hf Hcol]; [check_absent |].
  split; [exact Hf | exact Hcol].
Defined.

(** X20 at the file whose only data row is shorter than the header: F2 is
    in the header and beyond the one matrix column. *)
Lemma column_beyond_matrix_raises_witness :
  exists s,
    new float_of_digits "short.csv" short_row = Ok s /\
    well_formed s 1 1 /\ column_map s !! "F2" = Some 3%nat /\
    run (get_column_index "F2") s = Ok 1 /\
    run (get_basic_statistics sqrt_52 "F2") s = Raise IndexError.
Proof.
  eexists. split; [by vm_compute |].
  match goal with |- well_formed ?s _ _ /\ _ =>
    assert (well_formed s 1 1) as Hwf by check_well_formed;
    assert (column_map s !! "F2" = Some 3%nat) as Hp by (by vm_compute)
  end.
  split; [done |]. split; [done |].
  destruct (column_beyond_matrix_raises sqrt_52 stable_argsort _ 1 1 "F2" 3 Hwf Hp
              ltac:(lia))
    as (Hc & Hstat & _).
  split; [exact Hc | exact Hstat].
Defined.

(** X21 at the scenario: the values of F1 are 1, 2 and 3. *)
Lemma rankings_start_at_the_extremes_witness :
  argsort_contract stable_argsort /\
  well_formed scenario 3 2 /\ resolves scenario 2 "F1" 0 /\
  Forall (fun x => forall neg, x <> Inf neg) (column scenario 0) /\
  present (column scenario 0) <> [] /\
  exists st highest lowest top bottom,
    run (get_basic_statistics sqrt_52 "F1") scenario = Ok st /\
    run (get_top_countries stable_argsort "F1" 1) scenario
    = Ok ((highest, stat_max st) :: top) /\
    run (get_bottom_countries stable_argsort "F1" 1) scenario
    = Ok ((lowest, stat_min st) :: bottom).
Proof.
  assert (well_formed scenario 3 2) as Hwf by check_well_formed.
  assert (resolves scenario 2 "F1" 0) as Hf by (apply feature_resolves; check_feature).
  assert (Forall (fun x => forall neg, x <> Inf neg) (column scenario 0)) as Hfin
    by (by repeat constructor).
  assert (present (column scenario 0) <> []) as Hsome by (by vm_compute).
  split; [exact stable_argsort_contract |].
  split; [done |]. split; [done |]. split; [done |]. split; [done |].
  exact (rankings_start_at_the_extremes sqrt_52 stable_argsort stable_argsort_contract
           scenario 3 2 "F1" 0 1 Hwf Hf Hfin Hsome ltac:(lia)).
Defined.
